(** * Printer discovery relay ([web/api/printer_discovery.py])

    A shallow embedding of the presence registry and of the per-device
    mailbox that the relay keeps in a Redis store, together with the parts
    of the libraries the module leans on: the [json] codec, the
    rest_framework serializers and the Redis commands issued through
    pipelines.

    Conventions of the model.
    - Python [str] values are [string]s whose characters are code points
      below 256.  JSON numbers are integers; documents with fractional or
      exponent parts, the constants [NaN] and [Infinity] and [\u] escapes
      above [00ff] lie outside the modelled alphabet and are rejected by
      [json_loads], so a refusal of [json_loads] stands for a refusal of
      [json.loads] only on texts without them, the texts of [json_dumps]
      among them.
    - Time stamps (the [cur_time] arguments, sorted-set scores, the clock
      of the store) are integers counting seconds; the server keeps
      scores as doubles, which are exact below 2^53.
    - The store handle [REDIS] of [lib.cache] decodes replies to [str].
    - The store follows the Redis server: a key with an expiry is readable
      while the clock has not passed its deadline and is removed on first
      access afterwards; [EXPIRE] with a non-positive time deletes the
      key; [SETEX] with a non-positive time is refused; a command on a key
      of the wrong type is refused; a pipeline is a transaction. *)

From Stdlib Require Import ZArith Ascii String List Bool Lia.
From Stdlib Require Import DecimalString DecimalFacts DecimalN.
From stdpp Require Import gmap strings list sorting.

Local Open Scope Z_scope.

(** ** Characters and strings *)

Definition dquote : ascii := "034"%char.
Definition backslash : ascii := "092"%char.

Definition code (c : ascii) : N := N_of_ascii c.

Fixpoint str_mem (c : ascii) (s : string) : bool :=
  match s with
  | EmptyString => false
  | String x s' => Ascii.eqb c x || str_mem c s'
  end.

(** ** JSON documents *)

Unset Elimination Schemes.
Inductive json : Type :=
| JNull
| JBool (b : bool)
| JInt (z : Z)
| JStr (s : string)
| JArr (items : list json)
| JObj (members : list (string * json)).
Set Elimination Schemes.

(** Python dictionaries keep insertion order; assigning to a key that is
    already present replaces the value in place. *)
Fixpoint dict_set {A} (k : string) (v : A) (d : list (string * A)) : list (string * A) :=
  match d with
  | [] => [(k, v)]
  | (k', v') :: d' =>
      if String.eqb k k' then (k, v) :: d' else (k', v') :: dict_set k v d'
  end.

Definition py_dict {A} (pairs : list (string * A)) : list (string * A) :=
  fold_left (fun d kv => dict_set (fst kv) (snd kv) d) pairs [].

Fixpoint dict_get {A} (k : string) (d : list (string * A)) : option A :=
  match d with
  | [] => None
  | (k', v) :: d' => if String.eqb k k' then Some v else dict_get k d'
  end.

(** *** [json.dumps] *)

(** [str(int)]: decimal digits with a leading minus sign. *)
Definition str_of_N (n : N) : string := NilEmpty.string_of_uint (N.to_uint n).

Definition str_of_int (z : Z) : string :=
  if z <? 0 then String "-" (str_of_N (Z.abs_N z)) else str_of_N (Z.to_N z).

Definition hex_digit (n : N) : ascii :=
  if (n <? 10)%N then ascii_of_N (48 + n) else ascii_of_N (87 + n).

(** [ESCAPE_ASCII] of [json.encoder]: quote, backslash and everything
    outside [' '..'~'] is escaped. *)
Definition escape_char (c : ascii) : string :=
  if Ascii.eqb c dquote then String backslash (String dquote EmptyString)
  else if Ascii.eqb c backslash then String backslash (String backslash EmptyString)
  else if Ascii.eqb c "010" then String backslash "n"
  else if Ascii.eqb c "013" then String backslash "r"
  else if Ascii.eqb c "009" then String backslash "t"
  else if Ascii.eqb c "012" then String backslash "f"
  else if Ascii.eqb c "008" then String backslash "b"
  else if (code c <? 32)%N || (126 <? code c)%N then
    String backslash
      (String "u" (String "0" (String "0"
        (String (hex_digit (code c / 16)) (String (hex_digit (code c mod 16)) EmptyString)))))
  else String c EmptyString.

Fixpoint escape_body (s : string) : string :=
  match s with
  | EmptyString => EmptyString
  | String c s' => escape_char c +:+ escape_body s'
  end.

Definition quote (s : string) : string :=
  String dquote (escape_body s +:+ String dquote EmptyString).

Fixpoint json_dumps (j : json) : string :=
  match j with
  | JNull => "null"
  | JBool true => "true"
  | JBool false => "false"
  | JInt z => str_of_int z
  | JStr s => quote s
  | JArr items =>
      String "["
        match items with
        | [] => "]"
        | x :: rest =>
            json_dumps x +:+
            (fix tail (l : list json) : string :=
               match l with
               | [] => "]"
               | y :: l' => ", " +:+ json_dumps y +:+ tail l'
               end) rest
        end
  | JObj members =>
      String "{"
        match members with
        | [] => "}"
        | (k, x) :: rest =>
            quote k +:+ ": " +:+ json_dumps x +:+
            (fix tail (l : list (string * json)) : string :=
               match l with
               | [] => "}"
               | (k', y) :: l' => ", " +:+ quote k' +:+ ": " +:+ json_dumps y +:+ tail l'
               end) rest
        end
  end.

(** *** [json.loads] *)

Definition is_ws (c : ascii) : bool :=
  Ascii.eqb c " " || Ascii.eqb c "009" || Ascii.eqb c "010" || Ascii.eqb c "013".

Fixpoint skip_ws (s : string) : string :=
  match s with
  | EmptyString => EmptyString
  | String c s' => if is_ws c then skip_ws s' else s
  end.

Definition is_digit (c : ascii) : bool := (48 <=? code c)%N && (code c <=? 57)%N.

Definition hex_val (c : ascii) : option N :=
  let n := code c in
  if (48 <=? n)%N && (n <=? 57)%N then Some (n - 48)%N
  else if (97 <=? n)%N && (n <=? 102)%N then Some (n - 87)%N
  else if (65 <=? n)%N && (n <=? 70)%N then Some (n - 55)%N
  else None.

Definition hex4 (a b c d : ascii) : option N :=
  match hex_val a, hex_val b, hex_val c, hex_val d with
  | Some x, Some y, Some z, Some w => Some (((x * 16 + y) * 16 + z) * 16 + w)%N
  | _, _, _, _ => None
  end.

(** [BACKSLASH] table of [json.decoder]. *)
Definition unescape (e : ascii) : option ascii :=
  if Ascii.eqb e dquote then Some dquote
  else if Ascii.eqb e backslash then Some backslash
  else if Ascii.eqb e "/" then Some "/"%char
  else if Ascii.eqb e "b" then Some "008"%char
  else if Ascii.eqb e "f" then Some "012"%char
  else if Ascii.eqb e "n" then Some "010"%char
  else if Ascii.eqb e "r" then Some "013"%char
  else if Ascii.eqb e "t" then Some "009"%char
  else None.

Definition cons_chunk (c : ascii) (r : option (string * string)) : option (string * string) :=
  match r with
  | Some (body, rest) => Some (String c body, rest)
  | None => None
  end.

(** [py_scanstring] in strict mode, started right after the opening quote:
    the decoded body and the text after the closing quote. *)
Fixpoint scanstring (s : string) : option (string * string) :=
  match s with
  | EmptyString => None
  | String c s1 =>
      if Ascii.eqb c dquote then Some (EmptyString, s1)
      else if Ascii.eqb c backslash then
        match s1 with
        | EmptyString => None
        | String e s2 =>
            if Ascii.eqb e "u" then
              match s2 with
              | String h1 (String h2 (String h3 (String h4 s3))) =>
                  match hex4 h1 h2 h3 h4 with
                  | Some n =>
                      if (n <? 256)%N then cons_chunk (ascii_of_N n) (scanstring s3)
                      else None
                  | None => None
                  end
              | _ => None
              end
            else
              match unescape e with
              | Some ch => cons_chunk ch (scanstring s2)
              | None => None
              end
        end
      else if (code c <? 32)%N then None
      else cons_chunk c (scanstring s1)
  end.

(** The longest prefix of decimal digits. *)
Fixpoint span_digits (s : string) : string * string :=
  match s with
  | EmptyString => (EmptyString, EmptyString)
  | String c s' =>
      if is_digit c then
        let '(ds, rest) := span_digits s' in (String c ds, rest)
      else (EmptyString, s)
  end.

Definition starts_fraction (s : string) : bool :=
  match s with
  | String c _ => Ascii.eqb c "." || Ascii.eqb c "e" || Ascii.eqb c "E"
  | EmptyString => false
  end.

(** [NUMBER_RE]: ["0"] or a digit run without a leading zero. *)
Definition scan_N (s : string) : option (N * string) :=
  let '(ds, rest) := span_digits s in
  match NilEmpty.uint_of_string ds with
  | Some Decimal.Nil => None
  | Some (Decimal.D0 Decimal.Nil) =>
      if starts_fraction rest then None else Some (0%N, rest)
  | Some (Decimal.D0 _) => None
  | Some d => if starts_fraction rest then None else Some (N.of_uint d, rest)
  | None => None
  end.

Definition scan_number (s : string) : option (json * string) :=
  match s with
  | String c s' =>
      if Ascii.eqb c "-" then
        match scan_N s' with
        | Some (n, rest) => Some (JInt (- Z.of_N n), rest)
        | None => None
        end
      else
        match scan_N s with
        | Some (n, rest) => Some (JInt (Z.of_N n), rest)
        | None => None
        end
  | EmptyString => None
  end.

Fixpoint strip_prefix (p s : string) : option string :=
  match p, s with
  | EmptyString, _ => Some s
  | String a p', String b s' => if Ascii.eqb a b then strip_prefix p' s' else None
  | String _ _, EmptyString => None
  end.

(** [scan_once] with its helpers [JSONArray] and [JSONObject].  The natural
    number bounds the nesting and sibling count still to be read; the input
    length always suffices. *)
Fixpoint parse_value (n : nat) (s : string) : option (json * string) :=
  match n with
  | O => None
  | S n' =>
      match s with
      | EmptyString => None
      | String c r =>
          if Ascii.eqb c dquote then
            match scanstring r with
            | Some (body, r') => Some (JStr body, r')
            | None => None
            end
          else if Ascii.eqb c "[" then
            match skip_ws r with
            | String c1 r' =>
                if Ascii.eqb c1 "]" then Some (JArr [], r')
                else
                  match parse_elems n' (String c1 r') with
                  | Some (items, r2) => Some (JArr items, r2)
                  | None => None
                  end
            | EmptyString => None
            end
          else if Ascii.eqb c "{" then
            match skip_ws r with
            | String c1 r' =>
                if Ascii.eqb c1 "}" then Some (JObj [], r')
                else
                  match parse_members n' (String c1 r') with
                  | Some (pairs, r2) => Some (JObj (py_dict pairs), r2)
                  | None => None
                  end
            | EmptyString => None
            end
          else if Ascii.eqb c "n" then
            match strip_prefix "ull" r with
            | Some r' => Some (JNull, r')
            | None => None
            end
          else if Ascii.eqb c "t" then
            match strip_prefix "rue" r with
            | Some r' => Some (JBool true, r')
            | None => None
            end
          else if Ascii.eqb c "f" then
            match strip_prefix "alse" r with
            | Some r' => Some (JBool false, r')
            | None => None
            end
          else scan_number s
      end
  end
with parse_elems (n : nat) (s : string) : option (list json * string) :=
  match n with
  | O => None
  | S n' =>
      match parse_value n' s with
      | Some (v, r) =>
          match skip_ws r with
          | String c r1 =>
              if Ascii.eqb c "," then
                match parse_elems n' (skip_ws r1) with
                | Some (items, r') => Some (v :: items, r')
                | None => None
                end
              else if Ascii.eqb c "]" then Some ([v], r1)
              else None
          | EmptyString => None
          end
      | None => None
      end
  end
with parse_members (n : nat) (s : string) : option (list (string * json) * string) :=
  match n with
  | O => None
  | S n' =>
      match s with
      | String c r =>
          if Ascii.eqb c dquote then
            match scanstring r with
            | Some (k, r0) =>
                match skip_ws r0 with
                | String c0 r1 =>
                    if negb (Ascii.eqb c0 ":") then None else
                    match parse_value n' (skip_ws r1) with
                    | Some (v, r2) =>
                        match skip_ws r2 with
                        | String c' r3 =>
                            if Ascii.eqb c' "," then
                              match parse_members n' (skip_ws r3) with
                              | Some (pairs, r') => Some ((k, v) :: pairs, r')
                              | None => None
                              end
                            else if Ascii.eqb c' "}" then Some ([(k, v)], r3)
                            else None
                        | EmptyString => None
                        end
                    | None => None
                    end
                | EmptyString => None
                end
            | None => None
            end
          else None
      | EmptyString => None
      end
  end.

(** [json.loads]: one value, surrounded by optional white space.  [None]
    stands for [JSONDecodeError]. *)
Definition json_loads (raw : string) : option json :=
  match parse_value (String.length raw) (skip_ws raw) with
  | Some (j, rest) =>
      match skip_ws rest with
      | EmptyString => Some j
      | String _ _ => None
      end
  | None => None
  end.

(** ** Induction, size and well-formedness of documents *)

Section json_induction.
Variable P : json -> Prop.
Hypothesis Hnull : P JNull.
Hypothesis Hbool : forall b, P (JBool b).
Hypothesis Hint : forall z, P (JInt z).
Hypothesis Hstr : forall s, P (JStr s).
Hypothesis Harr : forall items, Forall P items -> P (JArr items).
Hypothesis Hobj : forall members, Forall (fun kv => P (snd kv)) members -> P (JObj members).

Fixpoint json_ind (j : json) : P j :=
  match j with
  | JNull => Hnull
  | JBool b => Hbool b
  | JInt z => Hint z
  | JStr s => Hstr s
  | JArr items =>
      Harr items
        ((fix all (l : list json) : Forall P l :=
            match l with
            | [] => @List.Forall_nil _ P
            | x :: l' => @List.Forall_cons _ P x l' (json_ind x) (all l')
            end) items)
  | JObj members =>
      Hobj members
        ((fix all (l : list (string * json)) : Forall (fun kv => P (snd kv)) l :=
            match l with
            | [] => @List.Forall_nil _ _
            | kv :: l' => @List.Forall_cons _ (fun kv => P (snd kv)) kv l' (json_ind (snd kv)) (all l')
            end) members)
  end.
End json_induction.

(** Documents that [json.dumps] of a Python value can produce and that
    [json.loads] gives back: the keys of every object are distinct. *)
Fixpoint json_wf (j : json) : Prop :=
  match j with
  | JArr items =>
      (fix all (l : list json) : Prop :=
         match l with
         | [] => True
         | x :: l' => json_wf x /\ all l'
         end) items
  | JObj members =>
      NoDup (map fst members) /\
      (fix all (l : list (string * json)) : Prop :=
         match l with
         | [] => True
         | kv :: l' => json_wf (snd kv) /\ all l'
         end) members
  | _ => True
  end.

Fixpoint json_size (j : json) : nat :=
  match j with
  | JArr items =>
      S ((fix sum (l : list json) : nat :=
            match l with
            | [] => O
            | x :: l' => S (json_size x + sum l')
            end) items)
  | JObj members =>
      S ((fix sum (l : list (string * json)) : nat :=
            match l with
            | [] => O
            | kv :: l' => S (json_size (snd kv) + sum l')
            end) members)
  | _ => 1%nat
  end.

(** What may follow a number for the scanner to stop right after it. *)
Definition num_stop (s : string) : bool :=
  match s with
  | EmptyString => true
  | String c _ => negb (is_digit c) && negb (starts_fraction s)
  end.

(** The first character of a serialized value announces its kind. *)
Definition value_head (c : ascii) : bool :=
  Ascii.eqb c dquote || Ascii.eqb c "[" || Ascii.eqb c "{" || Ascii.eqb c "n" ||
  Ascii.eqb c "t" || Ascii.eqb c "f" || Ascii.eqb c "-" || is_digit c.

Definition arr_tail : list json -> string :=
  fix tail (l : list json) : string :=
    match l with
    | [] => "]"
    | y :: l' => ", " +:+ json_dumps y +:+ tail l'
    end.

Definition obj_tail : list (string * json) -> string :=
  fix tail (l : list (string * json)) : string :=
    match l with
    | [] => "}"
    | (k', y) :: l' => ", " +:+ quote k' +:+ ": " +:+ json_dumps y +:+ tail l'
    end.

Definition items_size : list json -> nat :=
  fix sum (l : list json) : nat :=
    match l with
    | [] => O
    | x :: l' => S (json_size x + sum l')
    end.

Definition members_size : list (string * json) -> nat :=
  fix sum (l : list (string * json)) : nat :=
    match l with
    | [] => O
    | kv :: l' => S (json_size (snd kv) + sum l')
    end.

Definition items_wf : list json -> Prop :=
  fix all (l : list json) : Prop :=
    match l with
    | [] => True
    | x :: l' => json_wf x /\ all l'
    end.

Definition members_wf : list (string * json) -> Prop :=
  fix all (l : list (string * json)) : Prop :=
    match l with
    | [] => True
    | kv :: l' => json_wf (snd kv) /\ all l'
    end.

Definition parses_back (j : json) : Prop :=
  json_wf j ->
  forall (n : nat) (rest : string),
    (json_size j <= n)%nat -> num_stop rest = true ->
    parse_value n (json_dumps j +:+ rest) = Some (j, rest).

(** ** Exceptions *)

Inductive exn : Type :=
| JSONDecodeError     (* json.loads on a malformed document *)
| ValidationError     (* serializer.is_valid(raise_exception=True) *)
| ResponseError.      (* a command of an executed pipeline failed *)

Inductive outcome (A : Type) : Type :=
| Return (a : A)
| Raise (e : exn).
Arguments Return {A} a.
Arguments Raise {A} e.

Definition bind {A B} (x : outcome A) (f : A -> outcome B) : outcome B :=
  match x with
  | Return a => f a
  | Raise e => Raise e
  end.

Notation "'let*' x := a 'in' b" := (bind a (fun x => b))
  (at level 10, x name, a at level 100, b at level 200, only parsing).

(** ** rest_framework fields *)

(** [str.isspace] on the modelled alphabet. *)
Definition py_isspace (c : ascii) : bool :=
  let n := code c in
  ((9 <=? n)%N && (n <=? 13)%N) || ((28 <=? n)%N && (n <=? 32)%N) ||
  (n =? 133)%N || (n =? 160)%N.

Fixpoint lstrip (s : string) : string :=
  match s with
  | EmptyString => EmptyString
  | String c s' => if py_isspace c then lstrip s' else s
  end.

Fixpoint rstrip (s : string) : string :=
  match s with
  | EmptyString => EmptyString
  | String c s' =>
      match rstrip s' with
      | EmptyString => if py_isspace c then EmptyString else String c EmptyString
      | r => String c r
      end
  end.

Definition strip (s : string) : string := rstrip (lstrip s).

Definition is_empty_str (s : string) : bool :=
  match s with EmptyString => true | String _ _ => false end.

(** A [serializers.CharField(required=True, ...)]; [allow_null] is off and
    [trim_whitespace] is on, the defaults. *)
Record CharField : Type := {
  min_length : option nat;
  max_length : option nat;
  allow_blank : bool
}.

Definition length_ok (f : CharField) (s : string) : bool :=
  match max_length f with Some n => (String.length s <=? n)%nat | None => true end &&
  match min_length f with Some n => (n <=? String.length s)%nat | None => true end.

(** [MaxLengthValidator], [MinLengthValidator] and
    [ProhibitNullCharactersValidator]. *)
Definition run_validators (f : CharField) (s : string) : outcome string :=
  if length_ok f s && negb (str_mem "000" s) then Return s else Raise ValidationError.

(** [CharField.run_validation]; [None] is the marker [empty] of a key that
    the input mapping lacks. *)
Definition CharField_run_validation (f : CharField) (data : option json) : outcome string :=
  match data with
  | None => Raise ValidationError
  | Some JNull => Raise ValidationError
  | Some (JBool _) => Raise ValidationError
  | Some (JArr _) => Raise ValidationError
  | Some (JObj _) => Raise ValidationError
  | Some (JInt z) => run_validators f (strip (str_of_int z))
  | Some (JStr s) =>
      if is_empty_str (strip s) then
        if allow_blank f then Return EmptyString else Raise ValidationError
      else run_validators f (strip s)
  end.

(** [DictField.run_validation] with the default child, which accepts every
    value as it is. *)
Definition DictField_run_validation (data : option json) : outcome (list (string * json)) :=
  match data with
  | Some (JObj d) => Return (py_dict d)
  | _ => Raise ValidationError
  end.

(** ** The data classes *)

Record DeviceInfo : Type := {
  device_id : string;
  hostname : string;
  os : string;
  arch : string;
  octopi_version : string;
  rpi_model : string;
  printerprofile : string
}.

Record DeviceMessage : Type := {
  m_device_id : string;
  m_type : string;
  m_data : list (string * json)
}.

Definition id_field : CharField :=
  {| min_length := Some 32%nat; max_length := Some 32%nat; allow_blank := false |}.
Definition hostname_field : CharField :=
  {| min_length := None; max_length := Some 253%nat; allow_blank := false |}.
Definition text_field : CharField :=
  {| min_length := None; max_length := Some 253%nat; allow_blank := true |}.
Definition type_field : CharField :=
  {| min_length := None; max_length := Some 64%nat; allow_blank := false |}.

(** [v or ''] on a string. *)
Definition or_empty (v : string) : string :=
  if is_empty_str v then EmptyString else v.

Definition DeviceInfo_from_dict (data : json) : outcome DeviceInfo :=
  match data with
  | JObj d =>
      let* v1 := CharField_run_validation id_field (dict_get "device_id" d) in
      let* v2 := CharField_run_validation hostname_field (dict_get "hostname" d) in
      let* v3 := CharField_run_validation text_field (dict_get "os" d) in
      let* v4 := CharField_run_validation text_field (dict_get "arch" d) in
      let* v5 := CharField_run_validation text_field (dict_get "rpi_model" d) in
      let* v6 := CharField_run_validation text_field (dict_get "octopi_version" d) in
      let* v7 := CharField_run_validation text_field (dict_get "printerprofile" d) in
      Return {| device_id := or_empty v1; hostname := or_empty v2; os := or_empty v3;
                arch := or_empty v4; octopi_version := or_empty v6;
                rpi_model := or_empty v5; printerprofile := or_empty v7 |}
  | _ => Raise ValidationError
  end.

Definition DeviceInfo_asdict (i : DeviceInfo) : json :=
  JObj [("device_id", JStr (device_id i)); ("hostname", JStr (hostname i));
        ("os", JStr (os i)); ("arch", JStr (arch i));
        ("octopi_version", JStr (octopi_version i)); ("rpi_model", JStr (rpi_model i));
        ("printerprofile", JStr (printerprofile i))].

Definition DeviceInfo_to_json (i : DeviceInfo) : string := json_dumps (DeviceInfo_asdict i).

Definition DeviceInfo_from_json (raw : string) : outcome DeviceInfo :=
  match json_loads raw with
  | Some j => DeviceInfo_from_dict j
  | None => Raise JSONDecodeError
  end.

Definition DeviceMessage_from_dict (data : json) : outcome DeviceMessage :=
  match data with
  | JObj d =>
      let* v1 := CharField_run_validation id_field (dict_get "device_id" d) in
      let* v2 := CharField_run_validation type_field (dict_get "type" d) in
      let* v3 := DictField_run_validation (dict_get "data" d) in
      Return {| m_device_id := v1; m_type := v2; m_data := v3 |}
  | _ => Raise ValidationError
  end.

Definition DeviceMessage_asdict (m : DeviceMessage) : json :=
  JObj [("device_id", JStr (m_device_id m)); ("type", JStr (m_type m));
        ("data", JObj (m_data m))].

Definition DeviceMessage_to_json (m : DeviceMessage) : string :=
  json_dumps (DeviceMessage_asdict m).

Definition DeviceMessage_from_json (raw : string) : outcome DeviceMessage :=
  match json_loads raw with
  | Some j => DeviceMessage_from_dict j
  | None => Raise JSONDecodeError
  end.

(** ** The Redis store *)

(** A sorted set maps each member to its score. *)
Inductive value : Type :=
| VStr (s : string)
| VZSet (z : gmap string Z).

(** A key holds a value and, when volatile, the instant after which it is
    gone. *)
Record entry : Type := {
  e_val : value;
  e_deadline : option Z
}.

Record Store : Type := {
  db : gmap string entry;
  clock : Z
}.

Definition expired (now : Z) (e : entry) : bool :=
  match e_deadline e with
  | Some d => d <? now
  | None => false
  end.

(** What a command sees under a key. *)
Definition lookup_key (k : string) (s : Store) : option entry :=
  match db s !! k with
  | Some e => if expired (clock s) e then None else Some e
  | None => None
  end.

Definition set_key (k : string) (e : entry) (s : Store) : Store :=
  {| db := <[k := e]> (db s); clock := clock s |}.

Definition del_key (k : string) (s : Store) : Store :=
  {| db := delete k (db s); clock := clock s |}.

(** A sorted set that lost its last member is removed with its key. *)
Definition put_zset (k : string) (z : gmap string Z) (d : option Z) (s : Store) : Store :=
  if decide (z = ∅) then del_key k s
  else set_key k {| e_val := VZSet z; e_deadline := d |} s.

(** Members are listed by score, equal scores by member. *)
Definition zle (a b : string * Z) : Prop :=
  a.2 < b.2 \/ (a.2 = b.2 /\ String.le a.1 b.1).

#[global] Instance zle_dec : RelDecision zle.
Proof. intros a b. unfold zle. apply _. Defined.

Definition zrange (z : gmap string Z) : list (string * Z) :=
  merge_sort zle (map_to_list z).

Definition zremove (l : list (string * Z)) (z : gmap string Z) : gmap string Z :=
  foldr (fun p acc => delete p.1 acc) z l.

Inductive reply : Type :=
| RInt (n : Z)
| RNil
| RBulk (v : string)
| RMembers (l : list string)
| RPairs (l : list (string * Z))
| RErr.

Definition is_error (r : reply) : bool :=
  match r with RErr => true | _ => false end.

(** The commands the module issues, with the arguments it varies. *)
Inductive command : Type :=
| ZREMRANGEBYSCORE (key : string) (max : Z)       (* min = -inf *)
| ZADD (key member : string) (score : Z)
| EXPIRE (key : string) (secs : Z)
| ZPOPMIN (key : string) (count : Z)
| ZRANGEBYSCORE (key : string) (min : Z)          (* max = +inf *)
| GET (key : string)
| SETEX (key : string) (secs : Z) (v : string).

Definition exec_command (c : command) (s : Store) : Store * reply :=
  match c with
  | ZREMRANGEBYSCORE k max =>
      match lookup_key k s with
      | None => (del_key k s, RInt 0)
      | Some {| e_val := VZSet z; e_deadline := d |} =>
          let z' := filter (fun p => max < p.2) z in
          (put_zset k z' d s, RInt (Z.of_nat (size z) - Z.of_nat (size z')))
      | Some {| e_val := VStr _ |} => (s, RErr)
      end
  | ZADD k m sc =>
      match lookup_key k s with
      | None => (set_key k {| e_val := VZSet {[ m := sc ]}; e_deadline := None |} s, RInt 1)
      | Some {| e_val := VZSet z; e_deadline := d |} =>
          (set_key k {| e_val := VZSet (<[m := sc]> z); e_deadline := d |} s,
           RInt (match z !! m with Some _ => 0 | None => 1 end))
      | Some {| e_val := VStr _ |} => (s, RErr)
      end
  | EXPIRE k secs =>
      match lookup_key k s with
      | None => (del_key k s, RInt 0)
      | Some e =>
          if secs <=? 0 then (del_key k s, RInt 1)
          else (set_key k {| e_val := e_val e; e_deadline := Some (clock s + secs) |} s, RInt 1)
      end
  | ZPOPMIN k count =>
      (* a count that is not positive pops nothing, as servers up to 6.2
         reply; later servers refuse a negative count *)
      match lookup_key k s with
      | None => (del_key k s, RPairs [])
      | Some {| e_val := VZSet z; e_deadline := d |} =>
          let popped := take (Z.to_nat count) (zrange z) in
          (put_zset k (zremove popped z) d s, RPairs popped)
      | Some {| e_val := VStr _ |} => (s, RErr)
      end
  | ZRANGEBYSCORE k min =>
      match lookup_key k s with
      | None => (del_key k s, RMembers [])
      | Some {| e_val := VZSet z |} =>
          (s, RMembers (fst <$> filter (fun p => min <= p.2) (zrange z)))
      | Some {| e_val := VStr _ |} => (s, RErr)
      end
  | GET k =>
      match lookup_key k s with
      | None => (del_key k s, RNil)
      | Some {| e_val := VStr v |} => (s, RBulk v)
      | Some {| e_val := VZSet _ |} => (s, RErr)
      end
  | SETEX k secs v =>
      if secs <=? 0 then (s, RErr)
      else (set_key k {| e_val := VStr v; e_deadline := Some (clock s + secs) |} s, RBulk "OK")
  end.

(** [MULTI] ... [EXEC]: every queued command runs, in order and without
    interleaving; a failing command does not stop the ones after it. *)
Fixpoint exec_all (cs : list command) (s : Store) : Store * list reply :=
  match cs with
  | [] => (s, [])
  | c :: cs' =>
      let '(s1, r) := exec_command c s in
      let '(s2, rs) := exec_all cs' s1 in
      (s2, r :: rs)
  end.

(** [Pipeline.execute()] raises once the transaction is over if a reply is
    an error. *)
Definition execute (cs : list command) (s : Store) : Store * outcome (list reply) :=
  let '(s', rs) := exec_all cs s in
  (s', if existsb is_error rs then Raise ResponseError else Return rs).

(** [time.time()]: the relay and the store read the same clock. *)
Definition time_time (s : Store) : Z := clock s.

(** The passing of time between two calls. *)
Definition advance (dt : Z) (s : Store) : Store :=
  {| db := db s; clock := clock s + Z.max 0 dt |}.

Definition empty_store (now : Z) : Store := {| db := ∅; clock := now |}.

(** ** The module *)

Definition LINKHELPER_MESSAGE_EXPIRATION_SECS : Z := 60.
Definition LINKHELPER_PRESENCE_EXPIRATION_SECS : Z := 10.

Definition redis__presence_prefix (client_ip : string) : string :=
  "printer_discovery:" +:+ client_ip +:+ ":presence".

Definition redis__device_info_prefix (client_ip device_id : string) : string :=
  "printer_discovery:" +:+ client_ip +:+ ":device_info:" +:+ device_id.

Definition redis__to_device_message_queue_prefix (client_ip device_id : string) : string :=
  "printer_discovery:" +:+ client_ip +:+ ":messages_to:" +:+ device_id.

(** [cur_time if cur_time is not None else time.time()] *)
Definition current_time (cur_time : option Z) (s : Store) : Z :=
  match cur_time with
  | Some t => t
  | None => time_time s
  end.

Definition redis__push_message_for_device
    (client_ip device_id : string) (message : DeviceMessage)
    (cur_time : option Z) (expiration_secs : Z) (s : Store) : Store * outcome unit :=
  let t := current_time cur_time s in
  let raw := DeviceMessage_to_json message in
  let key := redis__to_device_message_queue_prefix client_ip device_id in
  let '(s', ret) :=
    execute [ZREMRANGEBYSCORE key (t - expiration_secs);
             ZADD key raw t;
             EXPIRE key expiration_secs] s in
  (s', let* _r := ret in Return tt).

(** The loop over [raw_messages]; [from_json] either yields a message or
    raises, so the test [msg is not None] always passes. *)
Fixpoint parse_messages (raws : list (string * Z)) : outcome (list DeviceMessage) :=
  match raws with
  | [] => Return []
  | (raw, _) :: rest =>
      let* msg := DeviceMessage_from_json raw in
      let* messages := parse_messages rest in
      Return (msg :: messages)
  end.

Definition redis__pull_messages_for_device
    (client_ip device_id : string) (message_count : Z)
    (cur_time : option Z) (expiration_secs : Z) (s : Store)
    : Store * outcome (list DeviceMessage) :=
  let t := current_time cur_time s in
  let key := redis__to_device_message_queue_prefix client_ip device_id in
  let '(s', ret) :=
    execute [ZREMRANGEBYSCORE key (t - expiration_secs);
             ZPOPMIN key message_count] s in
  (s', let* ret := ret in
       match ret with
       | [_; RPairs raw_messages] => parse_messages raw_messages
       | _ => Return []
       end).

(** The loop over [ret2]: a missing or empty snapshot is skipped. *)
Fixpoint parse_infos (raws : list reply) : outcome (list DeviceInfo) :=
  match raws with
  | [] => Return []
  | r :: rest =>
      match r with
      | RBulk device_info_raw =>
          if is_empty_str device_info_raw then parse_infos rest
          else
            let* dinfo := DeviceInfo_from_json device_info_raw in
            let* dinfos := parse_infos rest in
            Return (dinfo :: dinfos)
      | _ => parse_infos rest
      end
  end.

Definition redis__active_devices_for_client_ip
    (client_ip : string) (cur_time : option Z) (expiration_secs : Z) (s : Store)
    : Store * outcome (list DeviceInfo) :=
  let t := current_time cur_time s in
  let key := redis__presence_prefix client_ip in
  let '(s1, ret1) :=
    execute [ZREMRANGEBYSCORE key (t - expiration_secs);
             ZRANGEBYSCORE key (t - expiration_secs)] s in
  match ret1 with
  | Raise e => (s1, Raise e)
  | Return ret1 =>
      let device_ids :=
        match ret1 with
        | [_; RMembers ids] => ids
        | _ => []
        end in
      let '(s2, ret2) :=
        execute (map (fun device_id => GET (redis__device_info_prefix client_ip device_id))
                     device_ids) s1 in
      (s2, let* ret2 := ret2 in parse_infos ret2)
  end.

Definition redis__update_presence_for_device
    (client_ip device_id : string) (device_info : DeviceInfo)
    (cur_time : option Z) (expiration_secs : Z) (s : Store) : Store * outcome unit :=
  let t := current_time cur_time s in
  let raw := DeviceInfo_to_json device_info in
  let key := redis__presence_prefix client_ip in
  let info_key := redis__device_info_prefix client_ip device_id in
  let '(s', ret) :=
    execute [ZADD key device_id t;
             EXPIRE key expiration_secs;
             SETEX info_key expiration_secs raw] s in
  (s', let* _r := ret in Return tt).

(** ** Key names *)

Definition colon_free (s : string) : Prop := str_mem ":" s = false.

(** Device identifiers that cannot be mistaken for a part of a key name. *)
Definition key_safe (device_id : string) : Prop :=
  colon_free device_id /\ device_id <> "presence".

(** ** Validated values *)

(** What a [CharField] hands back unchanged: trimmed text within the
    length bounds, without NUL, blank only where the field allows it. *)
Definition field_accepts (f : CharField) (s : string) : bool :=
  String.eqb (strip s) s && (allow_blank f || negb (is_empty_str s)) &&
  length_ok f s && negb (str_mem "000" s).

(** The values the transport layer delivers: those that went through
    [DeviceInfoSerializer] and [DeviceMessageSerializer]. *)
Definition valid_info (i : DeviceInfo) : Prop :=
  field_accepts id_field (device_id i) = true /\
  field_accepts hostname_field (hostname i) = true /\
  field_accepts text_field (os i) = true /\
  field_accepts text_field (arch i) = true /\
  field_accepts text_field (rpi_model i) = true /\
  field_accepts text_field (octopi_version i) = true /\
  field_accepts text_field (printerprofile i) = true.

Definition valid_message (m : DeviceMessage) : Prop :=
  field_accepts id_field (m_device_id m) = true /\
  field_accepts type_field (m_type m) = true /\
  json_wf (JObj (m_data m)).

(** ** Views of the store *)

Definition zset_of (o : option entry) : gmap string Z :=
  match o with
  | Some {| e_val := VZSet z |} => z
  | _ => ∅
  end.

Definition deadline_of (o : option entry) : option Z :=
  match o with
  | Some e => e_deadline e
  | None => None
  end.

(** The key is free or holds a sorted set. *)
Definition zset_or_free (o : option entry) : Prop :=
  match o with
  | Some {| e_val := VStr _ |} => False
  | _ => True
  end.

(** The score of a member of the sorted set under a key ([ZSCORE]). *)
Definition zscore (k m : string) (s : Store) : option Z :=
  zset_of (lookup_key k s) !! m.

(** The members that survive [ZREMRANGEBYSCORE key -inf (t - secs)]. *)
Definition unexpired (t secs : Z) (z : gmap string Z) : gmap string Z :=
  filter (fun p => t - secs < p.2) z.

Definition queue_entry (z : gmap string Z) (d : option Z) : entry :=
  {| e_val := VZSet z; e_deadline := d |}.

Definition snapshot_entry (raw : string) (d : option Z) : entry :=
  {| e_val := VStr raw; e_deadline := d |}.

(** The reply of [GET key]. *)
Definition get_reply (s : Store) (key : string) : reply :=
  match lookup_key key s with
  | None => RNil
  | Some {| e_val := VStr v |} => RBulk v
  | Some {| e_val := VZSet _ |} => RErr
  end.

(** [s'] is [s] up to the removal of keys that are dead in [s]. *)
Definition purged (s s' : Store) : Prop :=
  clock s' = clock s /\
  forall k, db s' !! k = db s !! k \/ (db s' !! k = None /\ lookup_key k s = None).

(** The store after the first pipeline of
    [redis__active_devices_for_client_ip]. *)
Definition pruned_presence (ip : string) (t secs : Z) (s : Store) : Store :=
  let k := redis__presence_prefix ip in
  put_zset k (unexpired t secs (zset_of (lookup_key k s))) (deadline_of (lookup_key k s)) s.

(** The identifiers read back by [ZRANGEBYSCORE]. *)
Definition active_ids (ip : string) (t secs : Z) (s : Store) : list string :=
  (zrange (unexpired t secs (zset_of (lookup_key (redis__presence_prefix ip) s)))).*1.

Definition snapshot_replies (ip : string) (ids : list string) (s : Store) : list reply :=
  map (fun d => get_reply s (redis__device_info_prefix ip d)) ids.

Definition ipA : string := "203.0.113.7".
Definition idA : string := "0123456789abcdef0123456789abcdef".
Definition infoA : DeviceInfo :=
  {| device_id := idA; hostname := "octopi"; os := "Linux"; arch := "armv7l";
     octopi_version := "0.18.0"; rpi_model := "Raspberry Pi 4"; printerprofile := "Ender 3" |}.

(** ** Every case of the two writers *)

Definition write_key (k : string) (o : option entry) (s : Store) : Store :=
  match o with
  | Some e => set_key k e s
  | None => del_key k s
  end.

Definition holds_string (o : option entry) : bool :=
  match o with
  | Some {| e_val := VStr _ |} => true
  | _ => false
  end.

(** What the three commands of [redis__push_message_for_device] leave
    under the queue key, from what they find there. *)
Definition pushed_entry (raw : string) (t secs now : Z) (o : option entry) : option entry :=
  if secs <=? 0 then None
  else
    match o with
    | Some {| e_val := VStr v |} => Some {| e_val := VStr v; e_deadline := Some (now + secs) |}
    | _ => Some (queue_entry (<[raw := t]> (unexpired t secs (zset_of o))) (Some (now + secs)))
    end.

(** What [ZADD] and [EXPIRE] of [redis__update_presence_for_device] leave
    under the presence key. *)
Definition presence_entry (d : string) (t secs now : Z) (o : option entry) : option entry :=
  if secs <=? 0 then None
  else
    match o with
    | Some {| e_val := VStr v |} => Some {| e_val := VStr v; e_deadline := Some (now + secs) |}
    | _ => Some (queue_entry (<[d := t]> (zset_of o)) (Some (now + secs)))
    end.

Definition alive_or_free (now : Z) (o : option entry) : Prop :=
  match o with
  | Some e => expired now e = false
  | None => True
  end.

(** ** The mailbox *)

(** The pending entries of a mailbox, oldest first. *)
Definition mailbox (ip d : string) (s : Store) : list (string * Z) :=
  zrange (zset_of (lookup_key (redis__to_device_message_queue_prefix ip d) s)).

Definition msgA : DeviceMessage :=
  {| m_device_id := idA; m_type := "cmd"; m_data := [("x", JInt 1)] |}.

(** A mailbox that holds a message and, behind it, a member that is no
    JSON document. *)
Definition store_with_junk : Store :=
  {| db := {[ redis__to_device_message_queue_prefix ipA idA :=
                queue_entry (<["not json" := 2]> {[ DeviceMessage_to_json msgA := 1 ]}) None ]};
     clock := 5 |}.

(** A message that never went through the serializer: its type is blank. *)
Definition msg_blank_type : DeviceMessage :=
  {| m_device_id := idA; m_type := EmptyString; m_data := [] |}.

Definition store_with_blank_type : Store :=
  (redis__push_message_for_device ipA idA msg_blank_type (Some 1) 60
     (redis__push_message_for_device ipA idA msgA (Some 0) 60 (empty_store 0)).1).1.

Definition msgB : DeviceMessage :=
  {| m_device_id := idA; m_type := "gcode"; m_data := [("line", JStr "G28"); ("n", JInt 2)] |}.
Definition msgC : DeviceMessage :=
  {| m_device_id := idA; m_type := "ping"; m_data := [] |}.

(** ** Frame of the operations *)

(** The key a command addresses. *)
Definition command_key (c : command) : string :=
  match c with
  | ZREMRANGEBYSCORE k _ | ZADD k _ _ | EXPIRE k _ | ZPOPMIN k _
  | ZRANGEBYSCORE k _ | GET k | SETEX k _ _ => k
  end.

(** A device identifier of the required length with a colon in it, and
    the client address whose presence key it reaches. *)
Definition id_with_colon : string := "0123456789abcdef0123456:presence".
Definition ip_reached : string := "203.0.113.7:messages_to:0123456789abcdef0123456".

(** ** Reading the snapshots *)

(** The entry a reply of [GET] contributes to the result. *)
Definition reply_info (r : reply) : option DeviceInfo :=
  match r with
  | RBulk raw =>
      match DeviceInfo_from_json raw with
      | Return i => Some i
      | Raise _ => None
      end
  | _ => None
  end.

(** The reply is nil or a snapshot that parses. *)
Definition readable (r : reply) : Prop :=
  match r with
  | RNil => True
  | RBulk raw => exists i, DeviceInfo_from_json raw = Return i
  | _ => False
  end.

(** The snapshot stored for a device, when there is one and it parses. *)
Definition snapshot_of (ip : string) (s : Store) (d : string) : option DeviceInfo :=
  reply_info (get_reply s (redis__device_info_prefix ip d)).

Definition idB : string := "fedcba9876543210fedcba9876543210".
Definition infoB : DeviceInfo :=
  {| device_id := idB; hostname := "klipper"; os := "Linux"; arch := "aarch64";
     octopi_version := EmptyString; rpi_model := EmptyString; printerprofile := "Voron" |}.

(** Device B was announced with a window of one second and device A with a
    window of ten; five seconds later the snapshot of B is gone while its
    score counts as fresh for a reader with [now = 100]. *)
Definition store_with_lost_snapshot : Store :=
  advance 5
    (redis__update_presence_for_device ipA idA infoA (Some 100) 10
       (redis__update_presence_for_device ipA idB infoB (Some 100) 1 (empty_store 0)).1).1.

(** ** Histories of calls *)

(** A call of one of the four operations, or the passing of time. *)
Inductive call : Type :=
| UpdatePresence (ip d : string) (i : DeviceInfo) (cur : option Z) (secs : Z)
| ListActive (ip : string) (cur : option Z) (secs : Z)
| PushMessage (ip d : string) (m : DeviceMessage) (cur : option Z) (secs : Z)
| PullMessages (ip d : string) (n : Z) (cur : option Z) (secs : Z)
| Elapse (dt : Z).

(** The store after a call; an exception does not undo what the executed
    pipelines wrote. *)
Definition step (c : call) (s : Store) : Store :=
  match c with
  | UpdatePresence ip d i cur secs => (redis__update_presence_for_device ip d i cur secs s).1
  | ListActive ip cur secs => (redis__active_devices_for_client_ip ip cur secs s).1
  | PushMessage ip d m cur secs => (redis__push_message_for_device ip d m cur secs s).1
  | PullMessages ip d n cur secs => (redis__pull_messages_for_device ip d n cur secs s).1
  | Elapse dt => advance dt s
  end.

Definition run (cs : list call) (s : Store) : Store :=
  fold_left (fun s c => step c s) cs s.

(** Calls as the transport layer issues them: device identifiers without
    a colon, validated snapshots filed under their own identifier, a
    positive presence window. *)
Definition proper (c : call) : Prop :=
  match c with
  | UpdatePresence ip d i cur secs =>
      key_safe d /\ valid_info i /\ device_id i = d /\ 0 < secs
  | PushMessage ip d m cur secs => key_safe d
  | PullMessages ip d n cur secs => key_safe d
  | ListActive _ _ _ | Elapse _ => True
  end.

(** The call is an [updatePresence] for the device [d] of client [ip]. *)
Definition updates (ip d : string) (c : call) : Prop :=
  match c with
  | UpdatePresence ip' d' _ _ _ => ip' = ip /\ d' = d
  | _ => False
  end.


(** What the presence registry keeps in the store: presence keys hold
    sorted sets of safe identifiers, snapshot keys hold the serialized
    validated snapshot of their device. *)
Definition snapshots_ok (s : Store) : Prop :=
  (forall ip e, db s !! redis__presence_prefix ip = Some e ->
     exists z, e_val e = VZSet z /\ forall d sc, z !! d = Some sc -> key_safe d) /\
  (forall ip d e, key_safe d -> db s !! redis__device_info_prefix ip d = Some e ->
     exists i, e_val e = VStr (DeviceInfo_to_json i) /\ valid_info i /\ device_id i = d).

(** The snapshot key of the device holds what the call [i] wrote. *)
Definition holds_snapshot (ip d : string) (i : DeviceInfo) (s : Store) : Prop :=
  forall e, db s !! redis__device_info_prefix ip d = Some e ->
    e_val e = VStr (DeviceInfo_to_json i).

(** Calls of other devices and of the mailbox after the announcement of
    device A. *)
Definition history_after_A : list call :=
  [UpdatePresence ipA idB infoB (Some 50) 10;
   PushMessage ipA idA msgA (Some 3) 60;
   ListActive ipA (Some 55) 10;
   Elapse 2].

(** The same device announced twice, the second call with the older
    [now]. *)
Definition infoA_renamed : DeviceInfo :=
  {| device_id := idA; hostname := "octopi-2"; os := "Linux"; arch := "armv7l";
     octopi_version := "0.18.0"; rpi_model := "Raspberry Pi 4"; printerprofile := "Ender 3" |}.





(** Calls made on the clock after the announcement of device A: seven
    seconds pass in all. *)
Definition history_on_clock : list call :=
  [Elapse 3;
   UpdatePresence ipA idB infoB None 10;
   ListActive ipA None 10;
   PushMessage ipA idA msgA None 60;
   Elapse 4].

(** ** Serializer fields and further sample values *)

(** A snapshot as a device may send it: padded text, a key the
    serializer does not know. *)
Definition raw_padded : string :=
  json_dumps
    (JObj [("hostname", JStr "  octopi "); ("device_id", JStr idA); ("os", JStr "Linux");
           ("arch", JStr "armv7l"); ("octopi_version", JStr "0.18.0");
           ("rpi_model", JStr "Raspberry Pi 4"); ("printerprofile", JStr "Ender 3 ");
           ("uptime", JInt 17)]).


(** The keys the two serializers require. *)
Definition DeviceInfo_fields : list string :=
  ["device_id"; "hostname"; "os"; "arch"; "rpi_model"; "octopi_version"; "printerprofile"].

Definition DeviceMessage_fields : list string := ["device_id"; "type"; "data"].

(** A snapshot that never went through the serializer: its host name is
    blank. *)
Definition info_blank_hostname : DeviceInfo :=
  {| device_id := idA; hostname := EmptyString; os := "Linux"; arch := "armv7l";
     octopi_version := "0.18.0"; rpi_model := "Raspberry Pi 4"; printerprofile := "Ender 3" |}.

Definition store_with_blank_hostname : Store :=
  (redis__update_presence_for_device ipA idA info_blank_hostname None 10
     (redis__update_presence_for_device ipA idB infoB None 10 (empty_store 1000)).1).1.

(** ** What histories of validated calls keep *)

(** Calls as the transport layer issues them, the pushed messages
    validated as well. *)
Definition validated (c : call) : Prop :=
  proper c /\
  match c with
  | PushMessage _ _ m _ _ => valid_message m
  | _ => True
  end.

(** What the mailboxes keep in the store after the calls [done]: a
    mailbox key holds a sorted set, and each of its members is the
    payload of a validated message that one of the calls pushed to this
    mailbox. *)
Definition mailboxes_ok (done : list call) (s : Store) : Prop :=
  forall ip d e, key_safe d ->
    db s !! redis__to_device_message_queue_prefix ip d = Some e ->
    exists z, e_val e = VZSet z /\
      forall raw sc, z !! raw = Some sc ->
        exists m cur secs,
          valid_message m /\ raw = DeviceMessage_to_json m /\
          PushMessage ip d m cur secs ∈ done.

(** What the snapshots keep in the store after the calls [done]: a
    snapshot key holds the serialized validated snapshot that one of the
    calls announced for this client and device. *)
Definition announced (done : list call) (s : Store) : Prop :=
  forall ip d e, key_safe d ->
    db s !! redis__device_info_prefix ip d = Some e ->
    exists i cur secs,
      e_val e = VStr (DeviceInfo_to_json i) /\ valid_info i /\ device_id i = d /\
      UpdatePresence ip d i cur secs ∈ done.
(** * Properties *)

(** ** Round trip of the codec *)

Lemma str_app_cons (x : ascii) (a b : string) : String x a +:+ b = String x (a +:+ b).
Proof. reflexivity. Qed.

Lemma str_app_nil_l (b : string) : EmptyString +:+ b = b.
Proof. reflexivity. Qed.

Lemma str_app_assoc (a b c : string) : (a +:+ b) +:+ c = a +:+ (b +:+ c).
Proof.
  induction a as [|x a IH]; [reflexivity|].
  now rewrite !str_app_cons, IH.
Qed.

Lemma str_app_nil_r (a : string) : a +:+ EmptyString = a.
Proof.
  induction a as [|x a IH]; [reflexivity|].
  now rewrite str_app_cons, IH.
Qed.

Lemma str_length_app (a b : string) :
  String.length (a +:+ b) = (String.length a + String.length b)%nat.
Proof.
  induction a as [|x a IH]; [reflexivity|].
  rewrite str_app_cons. cbn [String.length]. now rewrite IH.
Qed.

Lemma scanstring_escape_char (c : ascii) (tail : string) :
  scanstring (escape_char c +:+ tail) = cons_chunk c (scanstring tail).
Proof.
  destruct c as [[] [] [] [] [] [] [] []]; reflexivity.
Qed.

Lemma scanstring_quote (s rest : string) :
  scanstring (escape_body s +:+ String dquote rest) = Some (s, rest).
Proof.
  induction s as [|c s IH]; [reflexivity|].
  cbn [escape_body]. rewrite str_app_assoc, scanstring_escape_char, IH.
  reflexivity.
Qed.

(** Numbers. *)

Lemma span_digits_uint (d : Decimal.uint) (rest : string) :
  (match rest with String c _ => is_digit c = false | EmptyString => True end) ->
  span_digits (NilEmpty.string_of_uint d +:+ rest) = (NilEmpty.string_of_uint d, rest).
Proof.
  intros Hrest.
  induction d as [|d IH|d IH|d IH|d IH|d IH|d IH|d IH|d IH|d IH|d IH];
    cbn [NilEmpty.string_of_uint]; rewrite ?str_app_cons; cbn [span_digits];
    try (change (is_digit _) with true; cbv iota; rewrite IH; reflexivity).
  rewrite str_app_nil_l. destruct rest as [|c rest]; [reflexivity|].
  cbn [span_digits]. now rewrite Hrest.
Qed.

Lemma to_uint_normal (n : N) : Decimal.unorm (N.to_uint n) = N.to_uint n.
Proof. rewrite <- (Unsigned.of_to n) at 2. symmetry. apply Unsigned.to_of. Qed.

Lemma num_stop_digit (rest : string) :
  num_stop rest = true ->
  match rest with String c _ => is_digit c = false | EmptyString => True end.
Proof.
  destruct rest as [|c rest]; [easy|]. unfold num_stop.
  intros H. apply andb_true_iff in H as [H _]. now apply negb_true_iff in H.
Qed.

Lemma num_stop_fraction (rest : string) :
  num_stop rest = true -> starts_fraction rest = false.
Proof.
  destruct rest as [|c rest]; [easy|]. unfold num_stop.
  intros H. apply andb_true_iff in H as [_ H]. now apply negb_true_iff in H.
Qed.

Lemma scan_N_str_of_N (n : N) (rest : string) :
  num_stop rest = true -> scan_N (str_of_N n +:+ rest) = Some (n, rest).
Proof.
  intros Hstop. unfold scan_N, str_of_N.
  rewrite span_digits_uint by now apply num_stop_digit.
  rewrite NilEmpty.usu, (num_stop_fraction _ Hstop).
  pose proof (to_uint_normal n) as Hn.
  pose proof (Unsigned.of_to n) as Hof.
  destruct (N.to_uint n) as [|d|d|d|d|d|d|d|d|d|d] eqn:E;
    try (rewrite Hof; reflexivity).
  - exfalso. now apply (unorm_nonnil Decimal.Nil).
  - destruct d; try (exfalso; revert Hn; rewrite unorm_D0;
      intros Hn; unfold Decimal.unorm in Hn;
      match type of Hn with
      | context [Decimal.nzhead ?u] =>
          destruct (Decimal.nzhead u) eqn:E'; try discriminate;
          injection Hn as Hn; subst; now apply nzhead_nonzero in E'
      end).
    now rewrite <- Hof.
Qed.

Lemma str_of_N_head (n : N) (rest : string) :
  exists c r, str_of_N n +:+ rest = String c r /\ is_digit c = true.
Proof.
  unfold str_of_N. pose proof (to_uint_normal n) as Hn.
  destruct (N.to_uint n); cbn [NilEmpty.string_of_uint]; rewrite ?str_app_cons;
    try (eexists _, _; split; [reflexivity | reflexivity]).
  exfalso. now apply (unorm_nonnil Decimal.Nil).
Qed.

Lemma scan_number_str_of_int (z : Z) (rest : string) :
  num_stop rest = true -> scan_number (str_of_int z +:+ rest) = Some (JInt z, rest).
Proof.
  intros Hstop. unfold str_of_int. destruct (Z.ltb_spec z 0) as [Hz|Hz].
  - rewrite str_app_cons. cbn [scan_number]. change (Ascii.eqb "-" "-") with true. cbv iota.
    rewrite scan_N_str_of_N by assumption. do 2 f_equal. f_equal. lia.
  - destruct (str_of_N_head (Z.to_N z) rest) as (c & r & E & Hc).
    pose proof (scan_N_str_of_N (Z.to_N z) rest Hstop) as Hscan.
    rewrite E in *. cbn [scan_number].
    assert (Ascii.eqb c "-" = false) as ->.
    { destruct (Ascii.eqb_spec c "-"); [subst; discriminate | reflexivity]. }
    rewrite Hscan. do 2 f_equal. f_equal. lia.
Qed.

Lemma str_of_int_head (z : Z) (rest : string) :
  exists c r, str_of_int z +:+ rest = String c r /\
              (Ascii.eqb c "-" || is_digit c) = true.
Proof.
  unfold str_of_int. destruct (z <? 0).
  - rewrite str_app_cons. eexists _, _. split; reflexivity.
  - destruct (str_of_N_head (Z.to_N z) rest) as (c & r & E & Hc).
    exists c, r. split; [assumption|]. rewrite Hc. apply orb_true_r.
Qed.

Lemma parse_value_number (n : nat) (c : ascii) (r : string) :
  (Ascii.eqb c "-" || is_digit c) = true ->
  parse_value (S n) (String c r) = scan_number (String c r).
Proof.
  intros Hc. cbn [parse_value].
  destruct c as [[] [] [] [] [] [] [] []]; try discriminate Hc; reflexivity.
Qed.

Lemma json_dumps_head (j : json) (rest : string) :
  exists c r, json_dumps j +:+ rest = String c r /\ value_head c = true.
Proof.
  destruct j as [|[]|z|s|[|x l]|[|[k x] l]]; cbn [json_dumps]; unfold quote;
    rewrite ?str_app_cons; try (eexists _, _; split; reflexivity).
  destruct (str_of_int_head z rest) as (c & r & E & Hc).
  exists c, r. split; [assumption|]. unfold value_head.
  apply orb_true_iff in Hc as [-> | ->]; rewrite ?orb_true_r; reflexivity.
Qed.

Lemma skip_ws_value_head (c : ascii) (r : string) :
  value_head c = true -> skip_ws (String c r) = String c r.
Proof.
  intros Hc. cbn [skip_ws].
  destruct c as [[] [] [] [] [] [] [] []]; try discriminate Hc; reflexivity.
Qed.

Lemma value_head_not_close (c : ascii) :
  value_head c = true -> Ascii.eqb c "]" = false /\ Ascii.eqb c "}" = false.
Proof.
  intros Hc.
  destruct c as [[] [] [] [] [] [] [] []]; try discriminate Hc; split; reflexivity.
Qed.

Lemma arr_tail_stop (l : list json) (rest : string) : num_stop (arr_tail l +:+ rest) = true.
Proof. destruct l; reflexivity. Qed.

Lemma obj_tail_stop (l : list (string * json)) (rest : string) :
  num_stop (obj_tail l +:+ rest) = true.
Proof. destruct l as [|[k y] l]; reflexivity. Qed.

Lemma skip_ws_dumps (j : json) (rest : string) :
  skip_ws (json_dumps j +:+ rest) = json_dumps j +:+ rest.
Proof.
  destruct (json_dumps_head j rest) as (c & r & -> & Hc).
  now apply skip_ws_value_head.
Qed.

Lemma skip_ws_space (s : string) : skip_ws (String " " s) = skip_ws s.
Proof. reflexivity. Qed.

Lemma skip_ws_comma (s : string) : skip_ws (String "," s) = String "," s.
Proof. reflexivity. Qed.

Lemma skip_ws_colon (s : string) : skip_ws (String ":" s) = String ":" s.
Proof. reflexivity. Qed.

Lemma skip_ws_quote (k rest : string) : skip_ws (quote k +:+ rest) = quote k +:+ rest.
Proof. reflexivity. Qed.

Ltac norm_str :=
  repeat first
    [ rewrite str_app_assoc | rewrite str_app_cons | rewrite str_app_nil_l ].

Ltac ws_step :=
  repeat first
    [ rewrite skip_ws_comma | rewrite skip_ws_colon | rewrite skip_ws_space
    | rewrite skip_ws_dumps | rewrite skip_ws_quote ].

Lemma parse_elems_dumps (l : list json) :
  Forall parses_back l ->
  forall (x : json) (n : nat) (rest : string),
    parses_back x -> json_wf x -> items_wf l ->
    (S (json_size x + items_size l) <= n)%nat ->
    parse_elems n (json_dumps x +:+ arr_tail l +:+ rest) = Some (x :: l, rest).
Proof.
  induction 1 as [|y l Hy Hl IH]; intros x n rest Hx Wx Wl Hn;
    (destruct n as [|m]; [lia|]); cbn [parse_elems]; cbn [items_size] in Hn;
    rewrite (Hx Wx m _) by (first [lia | apply arr_tail_stop]).
  - reflexivity.
  - cbn [arr_tail]. fold arr_tail. norm_str. ws_step.
    change (Ascii.eqb "," ",") with true. cbv iota.
    destruct Wl as [Wy Wl].
    rewrite (IH y m rest Hy Wy Wl) by lia. reflexivity.
Qed.

Lemma scanstring_quoted (k rest : string) :
  exists r, quote k +:+ rest = String dquote r /\ scanstring r = Some (k, rest).
Proof.
  unfold quote. norm_str.
  eexists. split; [reflexivity|]. apply scanstring_quote.
Qed.

Lemma parse_members_dumps (l : list (string * json)) :
  Forall (fun kv => parses_back (snd kv)) l ->
  forall (k : string) (x : json) (n : nat) (rest : string),
    parses_back x -> json_wf x -> members_wf l ->
    (S (json_size x + members_size l) <= n)%nat ->
    parse_members n (quote k +:+ ": " +:+ json_dumps x +:+ obj_tail l +:+ rest)
    = Some ((k, x) :: l, rest).
Proof.
  induction 1 as [|[k' y] l Hy Hl IH]; intros k x n rest Hx Wx Wl Hn;
    (destruct n as [|m]; [lia|]); cbn [parse_members]; cbn [members_size snd] in Hn;
    match goal with
    | |- context [quote k +:+ ?r] =>
        destruct (scanstring_quoted k r) as (r0 & -> & ->)
    end;
    change (Ascii.eqb dquote dquote) with true; cbv iota;
    norm_str; ws_step;
    change (negb (Ascii.eqb ":" ":")) with false; cbv iota;
    rewrite (Hx Wx m _) by (first [lia | apply obj_tail_stop]).
  - reflexivity.
  - cbn [obj_tail]. fold obj_tail. norm_str. ws_step.
    change (Ascii.eqb "," ",") with true. cbv iota.
    destruct Wl as [Wy Wl]. cbn [snd] in Hy, Wy.
    pose proof (IH k' y m rest Hy Wy Wl ltac:(lia)) as IH'.
    revert IH'. norm_str. intros ->. reflexivity.
Qed.

Lemma dict_set_fresh {A} (k : string) (v : A) (d : list (string * A)) :
  k ∉ map fst d -> dict_set k v d = d ++ [(k, v)].
Proof.
  induction d as [|[k' v'] d IH]; intros Hk; [reflexivity|].
  cbn [dict_set]. cbn [map fst] in Hk. apply not_elem_of_cons in Hk as [Hne Hk].
  destruct (String.eqb_spec k k') as [->|_]; [congruence|].
  rewrite IH by assumption. reflexivity.
Qed.

Lemma py_dict_app {A} (l acc : list (string * A)) :
  NoDup (map fst (acc ++ l)) ->
  fold_left (fun d kv => dict_set (fst kv) (snd kv) d) l acc = acc ++ l.
Proof.
  revert acc. induction l as [|[k v] l IH]; intros acc Hnd; cbn [fold_left].
  - now rewrite app_nil_r.
  - cbn [fst snd]. rewrite dict_set_fresh.
    + rewrite IH; rewrite <- app_assoc; [reflexivity | exact Hnd].
    + rewrite map_app in Hnd. cbn [map fst] in Hnd.
      apply NoDup_app in Hnd as (_ & Hdis & _). intros Hin.
      apply (Hdis k Hin). left.
Qed.

Lemma py_dict_nodup {A} (l : list (string * A)) :
  NoDup (map fst l) -> py_dict l = l.
Proof. intros H. unfold py_dict. now rewrite py_dict_app. Qed.

Theorem parse_value_dumps (j : json) : parses_back j.
Proof.
  induction j as [|b|z|s|items IH|members IH] using json_ind;
    intros Wf n rest Hn Hstop; (destruct n as [|m]; [cbn in Hn; lia|]).
  - reflexivity.
  - destruct b; reflexivity.
  - cbn [json_dumps].
    destruct (str_of_int_head z rest) as (c & r & E & Hc).
    pose proof (scan_number_str_of_int z rest Hstop) as Hscan.
    rewrite E in *. now rewrite parse_value_number.
  - cbn [json_dumps].
    destruct (scanstring_quoted s rest) as (r & -> & Hr).
    cbn [parse_value]. change (Ascii.eqb dquote dquote) with true. cbv iota.
    now rewrite Hr.
  - destruct items as [|x l]; [reflexivity|].
    change (json_dumps (JArr (x :: l))) with (String "[" (json_dumps x +:+ arr_tail l)).
    change (json_size (JArr (x :: l))) with (S (S (json_size x + items_size l))) in Hn.
    destruct Wf as [Wx Wl]. apply Forall_cons in IH as [Hx Hl].
    norm_str. cbn [parse_value]. change (Ascii.eqb "[" dquote) with false.
    change (Ascii.eqb "[" "[") with true. cbv iota.
    rewrite skip_ws_dumps.
    pose proof (parse_elems_dumps l Hl x m rest Hx Wx Wl ltac:(lia)) as Hp.
    destruct (json_dumps_head x (arr_tail l +:+ rest)) as (c & r & E & Hc).
    rewrite E in *. destruct (value_head_not_close c Hc) as [-> _].
    now rewrite Hp.
  - destruct members as [|[k x] l]; [reflexivity|].
    change (json_dumps (JObj ((k, x) :: l)))
      with (String "{" (quote k +:+ ": " +:+ json_dumps x +:+ obj_tail l)).
    change (json_size (JObj ((k, x) :: l))) with (S (S (json_size x + members_size l))) in Hn.
    destruct Wf as [Hnd [Wx Wl]]. apply Forall_cons in IH as [Hx Hl].
    cbn [snd] in Hx, Wx.
    pose proof (parse_members_dumps l Hl k x m rest Hx Wx Wl ltac:(lia)) as Hp.
    revert Hp. norm_str. intros Hp.
    cbn [parse_value]. change (Ascii.eqb "{" dquote) with false.
    change (Ascii.eqb "{" "[") with false. change (Ascii.eqb "{" "{") with true.
    cbv iota. unfold quote in *. revert Hp. norm_str. intros Hp.
    cbn [skip_ws]. change (is_ws dquote) with false. cbv iota.
    change (Ascii.eqb dquote "}") with false. cbv iota.
    rewrite Hp. now rewrite py_dict_nodup.
Qed.

Lemma json_dumps_nonempty (j : json) : (1 <= String.length (json_dumps j))%nat.
Proof.
  destruct (json_dumps_head j EmptyString) as (c & r & E & _).
  rewrite str_app_nil_r in E. rewrite E. cbn. lia.
Qed.

Lemma json_size_length (j : json) : (json_size j <= String.length (json_dumps j))%nat.
Proof.
  induction j as [|b|z|s|items IH|members IH] using json_ind;
    try (apply (json_dumps_nonempty (JInt z)));
    try (apply (json_dumps_nonempty (JStr s)));
    try (apply (json_dumps_nonempty (JBool b)));
    try (apply (json_dumps_nonempty JNull)).
  - destruct items as [|x l]; [cbn; lia|].
    change (json_dumps (JArr (x :: l))) with (String "[" (json_dumps x +:+ arr_tail l)).
    change (json_size (JArr (x :: l))) with (S (S (json_size x + items_size l))).
    apply Forall_cons in IH as [Hx Hl]. cbn [String.length].
    rewrite str_length_app.
    enough (S (items_size l) <= String.length (arr_tail l))%nat by lia.
    clear Hx. induction Hl as [|y l Hy Hl IH]; [cbn; lia|].
    cbn [arr_tail items_size]. fold arr_tail. fold items_size.
    rewrite !str_length_app. cbn [String.length]. lia.
  - destruct members as [|[k x] l]; [cbn; lia|].
    change (json_dumps (JObj ((k, x) :: l)))
      with (String "{" (quote k +:+ ": " +:+ json_dumps x +:+ obj_tail l)).
    change (json_size (JObj ((k, x) :: l))) with (S (S (json_size x + members_size l))).
    apply Forall_cons in IH as [Hx Hl]. cbn [snd] in Hx. cbn [String.length].
    rewrite !str_length_app.
    enough (S (members_size l) <= String.length (obj_tail l))%nat by lia.
    clear Hx. induction Hl as [|[k' y] l Hy Hl IH]; [cbn; lia|].
    cbn [obj_tail members_size snd] in *. fold obj_tail. fold members_size.
    rewrite !str_length_app. cbn [String.length]. lia.
Qed.

(** [json.loads(json.dumps(j)) == j]. *)
Theorem json_loads_dumps (j : json) : json_wf j -> json_loads (json_dumps j) = Some j.
Proof.
  intros Wf. unfold json_loads.
  rewrite <- (str_app_nil_r (json_dumps j)) at 2.
  rewrite skip_ws_dumps.
  rewrite (parse_value_dumps j Wf _ EmptyString (json_size_length j) eq_refl).
  reflexivity.
Qed.

(** ** Sorted sets *)

#[global] Instance zle_total : Total zle.
Proof.
  intros [m1 s1] [m2 s2]. unfold zle. cbn.
  destruct (Z.lt_trichotomy s1 s2) as [?|[->|?]]; [tauto| |tauto].
  destruct (total String.le m1 m2); tauto.
Qed.

#[global] Instance zle_trans : Transitive zle.
Proof.
  intros [m1 s1] [m2 s2] [m3 s3]. unfold zle. cbn.
  intros [?|[-> H12]] [?|[-> H23]]; try (left; lia); try tauto.
  right. split; [reflexivity|]. now transitivity m2.
Qed.

#[global] Instance zle_antisymm : AntiSymm (=) zle.
Proof.
  intros [m1 s1] [m2 s2]. unfold zle. cbn.
  intros [?|[-> H12]] [?|[E H21]]; try lia.
  f_equal. now apply (anti_symm String.le).
Qed.

Lemma zrange_perm (z : gmap string Z) : zrange z ≡ₚ map_to_list z.
Proof. apply merge_sort_Permutation. Qed.

Lemma zrange_sorted (z : gmap string Z) : StronglySorted zle (zrange z).
Proof. apply StronglySorted_merge_sort; apply _. Qed.

Lemma elem_of_zrange (z : gmap string Z) (m : string) (sc : Z) :
  (m, sc) ∈ zrange z <-> z !! m = Some sc.
Proof. rewrite zrange_perm. apply elem_of_map_to_list. Qed.

Lemma zrange_NoDup (z : gmap string Z) : NoDup (zrange z).*1.
Proof. rewrite zrange_perm. apply NoDup_fst_map_to_list. Qed.

Lemma zrange_unique (z : gmap string Z) (l : list (string * Z)) :
  StronglySorted zle l -> l ≡ₚ map_to_list z -> zrange z = l.
Proof.
  intros Hs Hp. apply (StronglySorted_unique zle); [apply zrange_sorted | exact Hs |].
  now rewrite zrange_perm, Hp.
Qed.

Lemma zrange_empty : zrange ∅ = [].
Proof. reflexivity. Qed.

Lemma zrange_length (z : gmap string Z) : length (zrange z) = size z.
Proof. rewrite zrange_perm. apply length_map_to_list. Qed.

(** ** Key names and validated values *)

Lemma split_last_colon (a a' d d' : string) :
  colon_free d -> colon_free d' ->
  a +:+ String ":" d = a' +:+ String ":" d' -> a = a' /\ d = d'.
Proof.
  unfold colon_free. revert a'.
  induction a as [|x a IH]; intros [|x' a'] Hd Hd'; norm_str; intros E.
  - injection E as ->. easy.
  - injection E as <- ->. exfalso. clear -Hd.
    induction a' as [|y a' IH]; revert Hd; norm_str; cbn [str_mem].
    + discriminate.
    + destruct (Ascii.eqb ":" y); [discriminate | exact IH].
  - injection E as -> <-. exfalso. clear -Hd'.
    induction a as [|y a IH]; revert Hd'; norm_str; cbn [str_mem].
    + discriminate.
    + destruct (Ascii.eqb ":" y); [discriminate | exact IH].
  - injection E as -> E. destruct (IH a' Hd Hd' E) as [-> ->]. easy.
Qed.

Lemma presence_form (ip : string) :
  redis__presence_prefix ip = ("printer_discovery:" +:+ ip) +:+ String ":" "presence".
Proof. unfold redis__presence_prefix. now rewrite str_app_assoc. Qed.

Lemma device_info_form (ip d : string) :
  redis__device_info_prefix ip d
  = ("printer_discovery:" +:+ ip +:+ ":device_info") +:+ String ":" d.
Proof. unfold redis__device_info_prefix. now rewrite !str_app_assoc. Qed.

Lemma message_queue_form (ip d : string) :
  redis__to_device_message_queue_prefix ip d
  = ("printer_discovery:" +:+ ip +:+ ":messages_to") +:+ String ":" d.
Proof. unfold redis__to_device_message_queue_prefix. now rewrite !str_app_assoc. Qed.

Lemma presence_ne_device_info (ip ip' d : string) :
  key_safe d -> redis__presence_prefix ip <> redis__device_info_prefix ip' d.
Proof.
  intros [Hd Hne]. rewrite presence_form, device_info_form. intros E.
  apply split_last_colon in E as [_ E]; [congruence | reflexivity | exact Hd].
Qed.

Lemma presence_ne_message_queue (ip ip' d : string) :
  key_safe d -> redis__presence_prefix ip <> redis__to_device_message_queue_prefix ip' d.
Proof.
  intros [Hd Hne]. rewrite presence_form, message_queue_form. intros E.
  apply split_last_colon in E as [_ E]; [congruence | reflexivity | exact Hd].
Qed.

Lemma device_info_ne_message_queue (ip ip' d d' : string) :
  key_safe d -> key_safe d' ->
  redis__device_info_prefix ip d <> redis__to_device_message_queue_prefix ip' d'.
Proof.
  intros [Hd _] [Hd' _]. rewrite device_info_form, message_queue_form. intros E.
  apply split_last_colon in E as [E _]; [| exact Hd | exact Hd'].
  rewrite <- !str_app_assoc in E.
  apply (split_last_colon _ _ "device_info" "messages_to") in E as [_ E];
    [discriminate | reflexivity | reflexivity].
Qed.

Lemma presence_inj (ip ip' : string) :
  redis__presence_prefix ip = redis__presence_prefix ip' -> ip = ip'.
Proof.
  rewrite !presence_form. intros E.
  apply split_last_colon in E as [E _]; [| reflexivity | reflexivity].
  now apply (inj (String.app _)) in E.
Qed.

Lemma device_info_inj (ip ip' d d' : string) :
  key_safe d -> key_safe d' ->
  redis__device_info_prefix ip d = redis__device_info_prefix ip' d' -> ip = ip' /\ d = d'.
Proof.
  intros [Hd _] [Hd' _]. rewrite !device_info_form. intros E.
  apply split_last_colon in E as [E ->]; [| exact Hd | exact Hd'].
  split; [|reflexivity]. rewrite <- !str_app_assoc in E.
  apply (split_last_colon _ _ "device_info" "device_info") in E as [E _];
    [| reflexivity | reflexivity].
  now apply (inj (String.app _)) in E.
Qed.

(** Within one client address the presence key and a snapshot key differ
    whatever the device identifier is. *)
Lemma presence_ne_own_device_info (ip d : string) :
  redis__presence_prefix ip <> redis__device_info_prefix ip d.
Proof.
  unfold redis__presence_prefix, redis__device_info_prefix. intros E.
  apply (inj (String.app _)) in E. apply (inj (String.app _)) in E. discriminate E.
Qed.

Lemma CharField_accepts (f : CharField) (s : string) :
  field_accepts f s = true -> CharField_run_validation f (Some (JStr s)) = Return s.
Proof.
  unfold field_accepts. rewrite !andb_true_iff. intros [[[Hs Hb] Hl] Hn].
  apply String.eqb_eq in Hs. cbn [CharField_run_validation]. rewrite Hs.
  unfold run_validators. rewrite Hl, Hn.
  destruct s; [|reflexivity]. cbn in *. now rewrite orb_false_r in Hb; rewrite Hb.
Qed.

Lemma or_empty_id (s : string) : or_empty s = s.
Proof. now destruct s. Qed.

Lemma DeviceInfo_asdict_wf (i : DeviceInfo) : json_wf (DeviceInfo_asdict i).
Proof.
  split; [|cbn; tauto]. apply (bool_decide_unpack _). reflexivity.
Qed.

Theorem DeviceInfo_round_trip (i : DeviceInfo) :
  valid_info i -> DeviceInfo_from_json (DeviceInfo_to_json i) = Return i.
Proof.
  intros (H1 & H2 & H3 & H4 & H5 & H6 & H7).
  unfold DeviceInfo_from_json, DeviceInfo_to_json.
  rewrite json_loads_dumps by apply DeviceInfo_asdict_wf.
  unfold DeviceInfo_asdict, DeviceInfo_from_dict. cbn [dict_get String.eqb Ascii.eqb Bool.eqb].
  rewrite !CharField_accepts by assumption. cbn [bind].
  rewrite !or_empty_id. now destruct i.
Qed.

Lemma DeviceMessage_asdict_wf (m : DeviceMessage) :
  valid_message m -> json_wf (DeviceMessage_asdict m).
Proof.
  intros (_ & _ & Hd).
  split; [apply (bool_decide_unpack _); reflexivity|].
  cbn [DeviceMessage_asdict snd]. repeat split; apply Hd.
Qed.

Theorem DeviceMessage_round_trip (m : DeviceMessage) :
  valid_message m -> DeviceMessage_from_json (DeviceMessage_to_json m) = Return m.
Proof.
  intros Hm. pose proof Hm as (H1 & H2 & H3).
  unfold DeviceMessage_from_json, DeviceMessage_to_json.
  rewrite json_loads_dumps by now apply DeviceMessage_asdict_wf.
  unfold DeviceMessage_asdict, DeviceMessage_from_dict.
  cbn [dict_get String.eqb Ascii.eqb Bool.eqb].
  rewrite !CharField_accepts by assumption. cbn [bind DictField_run_validation].
  rewrite py_dict_nodup by apply H3. now destruct m.
Qed.

Lemma DeviceMessage_to_json_inj (m1 m2 : DeviceMessage) :
  valid_message m1 -> valid_message m2 ->
  DeviceMessage_to_json m1 = DeviceMessage_to_json m2 -> m1 = m2.
Proof.
  intros H1 H2 E. apply DeviceMessage_round_trip in H1, H2.
  rewrite E in H1. congruence.
Qed.

(** ** Commands *)

Lemma lookup_key_alive (k : string) (s : Store) (e : entry) :
  lookup_key k s = Some e -> db s !! k = Some e /\ expired (clock s) e = false.
Proof.
  unfold lookup_key. destruct (db s !! k) as [e'|]; [|discriminate].
  destruct (expired (clock s) e') eqn:E; [discriminate|]. now intros [= ->].
Qed.

Lemma lookup_key_set_eq (k : string) (e : entry) (s : Store) :
  lookup_key k (set_key k e s) = if expired (clock s) e then None else Some e.
Proof. unfold lookup_key, set_key. cbn. now rewrite lookup_insert_eq. Qed.

Lemma lookup_key_set_ne (k k' : string) (e : entry) (s : Store) :
  k <> k' -> lookup_key k' (set_key k e s) = lookup_key k' s.
Proof. intros H. unfold lookup_key, set_key. cbn. now rewrite lookup_insert_ne. Qed.

Lemma lookup_key_del_eq (k : string) (s : Store) : lookup_key k (del_key k s) = None.
Proof. unfold lookup_key, del_key. cbn. now rewrite lookup_delete_eq. Qed.

Lemma lookup_key_del_ne (k k' : string) (s : Store) :
  k <> k' -> lookup_key k' (del_key k s) = lookup_key k' s.
Proof. intros H. unfold lookup_key, del_key. cbn. now rewrite lookup_delete_ne. Qed.

Lemma fresh_deadline (now secs : Z) : 0 < secs -> (now + secs <? now) = false.
Proof. intros H. apply Z.ltb_ge. lia. Qed.

Lemma store_eq (s s' : Store) : db s = db s' -> clock s = clock s' -> s = s'.
Proof. destruct s, s'. cbn. now intros -> ->. Qed.

Lemma clock_set_key (k : string) (e : entry) (s : Store) : clock (set_key k e s) = clock s.
Proof. reflexivity. Qed.

Lemma clock_del_key (k : string) (s : Store) : clock (del_key k s) = clock s.
Proof. reflexivity. Qed.

Lemma positive_secs (secs : Z) : 0 < secs -> (secs <=? 0) = false.
Proof. intros H. apply Z.leb_gt. lia. Qed.

Ltac store_step :=
  repeat first
    [ rewrite lookup_key_del_eq
    | rewrite lookup_key_set_eq
    | rewrite clock_set_key
    | rewrite clock_del_key
    | progress cbn [expired e_deadline e_val]
    | rewrite fresh_deadline by assumption
    | rewrite positive_secs by assumption ].

Ltac store_done :=
  cbn; apply (f_equal2 pair);
  [ apply store_eq; [|reflexivity]; cbn;
    rewrite ?insert_insert_eq, ?insert_delete_eq, ?delete_insert_eq, ?delete_delete_eq,
      ?insert_empty;
    try reflexivity
  | try reflexivity ].

(** [redis__push_message_for_device] on a key that is free or a queue. *)
Lemma push_message_effect (ip d : string) (m : DeviceMessage) (cur : option Z) (secs : Z)
    (s : Store) :
  let k := redis__to_device_message_queue_prefix ip d in
  let t := current_time cur s in
  0 < secs -> zset_or_free (lookup_key k s) ->
  redis__push_message_for_device ip d m cur secs s
  = ({| db := <[k := queue_entry
                      (<[DeviceMessage_to_json m := t]> (unexpired t secs (zset_of (lookup_key k s))))
                      (Some (clock s + secs))]> (db s);
        clock := clock s |}, Return tt).
Proof.
  intros k t Hsecs Hfree.
  unfold redis__push_message_for_device, execute, exec_all. fold k. fold t.
  cbn [exec_command].
  destruct (lookup_key k s) as [[[v|z] dl]|] eqn:E; cbn in Hfree; [tauto| |].
  - apply lookup_key_alive in E as [_ Halive]. cbn [zset_of].
    fold (unexpired t secs z). unfold put_zset.
    destruct (decide (unexpired t secs z = ∅)) as [->|Hne]; store_step.
    + store_done.
    + assert (forall v, expired (clock s) {| e_val := v; e_deadline := dl |} = false)
        as Hv by (intros v; exact Halive).
      rewrite Hv. store_step. rewrite Hv. store_step. store_done.
  - store_step. cbn [zset_of]. unfold unexpired. rewrite map_filter_empty. store_done.
Qed.

(** [redis__update_presence_for_device] with a positive window, on a
    presence key that is free or a sorted set. *)
Lemma update_presence_effect (ip d : string) (i : DeviceInfo) (cur : option Z) (secs : Z)
    (s : Store) :
  let k := redis__presence_prefix ip in
  let ik := redis__device_info_prefix ip d in
  let t := current_time cur s in
  0 < secs -> zset_or_free (lookup_key k s) ->
  redis__update_presence_for_device ip d i cur secs s
  = ({| db := <[ik := snapshot_entry (DeviceInfo_to_json i) (Some (clock s + secs))]>
                (<[k := queue_entry (<[d := t]> (zset_of (lookup_key k s)))
                          (Some (clock s + secs))]> (db s));
        clock := clock s |}, Return tt).
Proof.
  intros k ik t Hsecs Hfree.
  unfold redis__update_presence_for_device, execute, exec_all. fold k. fold ik. fold t.
  cbn [exec_command].
  destruct (lookup_key k s) as [[[v|z] dl]|] eqn:E; cbn in Hfree; [tauto| |].
  - apply lookup_key_alive in E as [_ Halive].
    assert (forall v, expired (clock s) {| e_val := v; e_deadline := dl |} = false)
      as Hv by (intros v; exact Halive).
    store_step. rewrite Hv. store_step. cbn [zset_of]. store_done.
  - store_step. cbn [zset_of]. store_done.
Qed.

Lemma zrange_fresh_all (t secs : Z) (z : gmap string Z) :
  filter (fun p : string * Z => t - secs <= p.2) (zrange (unexpired t secs z))
  = zrange (unexpired t secs z).
Proof.
  assert (Forall (fun p : string * Z => t - secs < p.2) (zrange (unexpired t secs z))) as H.
  { apply Forall_forall. intros [m sc] Hin. apply elem_of_zrange in Hin.
    unfold unexpired in Hin. apply map_lookup_filter_Some in Hin as [_ Hin]. exact Hin. }
  induction H as [|p l Hp Hl IH]; [reflexivity|].
  rewrite filter_cons_True by lia. now rewrite IH.
Qed.

(** [redis__pull_messages_for_device] on a key that is free or a queue. *)
Lemma pull_messages_effect (ip d : string) (n : Z) (cur : option Z) (secs : Z) (s : Store) :
  let k := redis__to_device_message_queue_prefix ip d in
  let t := current_time cur s in
  let zf := unexpired t secs (zset_of (lookup_key k s)) in
  let popped := take (Z.to_nat n) (zrange zf) in
  zset_or_free (lookup_key k s) ->
  redis__pull_messages_for_device ip d n cur secs s
  = ({| db := if decide (zremove popped zf = ∅) then delete k (db s)
              else <[k := queue_entry (zremove popped zf) (deadline_of (lookup_key k s))]> (db s);
        clock := clock s |}, parse_messages popped).
Proof.
  intros k t zf popped Hfree. subst zf popped.
  unfold redis__pull_messages_for_device, execute, exec_all. fold k. fold t.
  cbn [exec_command].
  destruct (lookup_key k s) as [[[v|z] dl]|] eqn:E; cbn in Hfree; [tauto| |].
  - apply lookup_key_alive in E as [_ Halive]. cbn [zset_of deadline_of e_deadline].
    fold (unexpired t secs z). unfold put_zset.
    assert (forall v, expired (clock s) {| e_val := v; e_deadline := dl |} = false)
      as Hv by (intros v; exact Halive).
    destruct (decide (unexpired t secs z = ∅)) as [->|Hne]; store_step.
    + rewrite zrange_empty, take_nil. cbn [zremove foldr].
      rewrite decide_True by reflexivity. store_done.
    + rewrite Hv.
      destruct (decide (zremove _ _ = ∅)); store_done.
  - store_step. cbn [zset_of]. unfold unexpired. rewrite map_filter_empty, zrange_empty, take_nil.
    cbn [zremove foldr]. rewrite decide_True by reflexivity. store_done.
Qed.

Lemma purged_refl (s : Store) : purged s s.
Proof. split; [reflexivity | intros k; now left]. Qed.

Lemma purged_lookup_key (s s' : Store) (k : string) :
  purged s s' -> lookup_key k s' = lookup_key k s.
Proof.
  intros [Hc Hk]. unfold lookup_key at 1. rewrite Hc.
  destruct (Hk k) as [->|[-> ->]]; reflexivity.
Qed.

Lemma purged_trans (s1 s2 s3 : Store) : purged s1 s2 -> purged s2 s3 -> purged s1 s3.
Proof.
  intros H12 H23. pose proof (fun k => purged_lookup_key _ _ k H12) as Hl.
  destruct H12 as [C12 K12], H23 as [C23 K23]. split; [congruence|].
  intros k. destruct (K23 k) as [->|[-> Hn]]; [apply K12|].
  right. split; [reflexivity|]. now rewrite <- (Hl k).
Qed.

Lemma purged_del_dead (k : string) (s : Store) :
  lookup_key k s = None -> purged s (del_key k s).
Proof.
  intros Hk. split; [reflexivity|]. intros k'. cbn.
  destruct (decide (k = k')) as [<-|Hne].
  - right. now rewrite lookup_delete_eq.
  - left. now rewrite lookup_delete_ne.
Qed.

Lemma exec_get (key : string) (s : Store) :
  (exec_command (GET key) s).2 = get_reply s key /\ purged s (exec_command (GET key) s).1.
Proof.
  unfold get_reply. cbn [exec_command].
  destruct (lookup_key key s) as [[[v|z] dl]|] eqn:E; cbn;
    auto using purged_refl, purged_del_dead.
Qed.

Lemma exec_gets (keys : list string) (s : Store) :
  (exec_all (map GET keys) s).2 = map (get_reply s) keys /\
  purged s (exec_all (map GET keys) s).1.
Proof.
  revert s. induction keys as [|key keys IH]; intros s; cbn [map exec_all].
  - split; [reflexivity | apply purged_refl].
  - destruct (exec_get key s) as [Hr Hp].
    destruct (exec_command (GET key) s) as [s1 r]. cbn [fst snd] in *.
    destruct (IH s1) as [Hrs Hps].
    destruct (exec_all (map GET keys) s1) as [s2 rs]. cbn [fst snd] in *.
    split; [|eapply purged_trans; eassumption].
    rewrite Hr, Hrs. f_equal. apply map_ext. intros k. unfold get_reply.
    now rewrite (purged_lookup_key _ _ k Hp).
Qed.

Lemma lookup_key_pruned_presence (ip : string) (t secs : Z) (s : Store) (key : string) :
  key <> redis__presence_prefix ip ->
  lookup_key key (pruned_presence ip t secs s) = lookup_key key s.
Proof.
  intros Hne. unfold pruned_presence, put_zset.
  destruct (decide _); [apply lookup_key_del_ne | apply lookup_key_set_ne]; congruence.
Qed.

(** [redis__active_devices_for_client_ip] on a presence key that is free
    or a sorted set. *)
Lemma active_devices_effect (ip : string) (cur : option Z) (secs : Z) (s : Store) :
  let t := current_time cur s in
  let replies := snapshot_replies ip (active_ids ip t secs s) s in
  zset_or_free (lookup_key (redis__presence_prefix ip) s) ->
  exists s2,
    redis__active_devices_for_client_ip ip cur secs s
    = (s2, if existsb is_error replies then Raise ResponseError else parse_infos replies) /\
    purged (pruned_presence ip t secs s) s2.
Proof.
  intros t replies Hfree. subst replies.
  unfold redis__active_devices_for_client_ip, active_ids, pruned_presence.
  fold t. set (k := redis__presence_prefix ip) in *.
  set (gets := fun ids : list string =>
                 map (fun device_id => GET (redis__device_info_prefix ip device_id)) ids).
  assert (forall ids s1,
            (forall key, key <> k -> lookup_key key s1 = lookup_key key s) ->
            exists s2,
              (let '(s2, ret2) := execute (gets ids) s1 in
               (s2, bind ret2 (fun ret2 => parse_infos ret2)))
              = (s2, if existsb is_error (snapshot_replies ip ids s) then Raise ResponseError
                     else parse_infos (snapshot_replies ip ids s)) /\
              purged s1 s2) as Hgets.
  { intros ids s1 Hs1. unfold execute, gets.
    pose proof (exec_gets (map (redis__device_info_prefix ip) ids) s1) as [Hr Hp].
    rewrite !map_map in Hr. rewrite map_map in Hp.
    destruct (exec_all _ s1) as [s2 rs]. cbn [fst snd] in *.
    exists s2. split; [|exact Hp].
    assert (rs = snapshot_replies ip ids s) as ->.
    { rewrite Hr. unfold snapshot_replies. apply map_ext. intros d.
      unfold get_reply. rewrite Hs1; [reflexivity|].
      intros E. symmetry in E. now apply presence_ne_own_device_info in E. }
    now destruct (existsb is_error _). }
  unfold execute at 1. cbn [exec_all exec_command].
  destruct (lookup_key k s) as [[[v|z] dl]|] eqn:E; cbn in Hfree; [tauto| |].
  - apply lookup_key_alive in E as [_ Halive].
    assert (forall v, expired (clock s) {| e_val := v; e_deadline := dl |} = false)
      as Hv by (intros v; exact Halive).
    cbn [zset_of deadline_of e_deadline]. fold (unexpired t secs z). unfold put_zset.
    destruct (decide (unexpired t secs z = ∅)) as [Hz|Hne]; store_step.
    + cbn [existsb is_error orb]. rewrite Hz, zrange_empty. cbn [fmap list_fmap].
      destruct (Hgets [] (del_key k (del_key k s))) as (s2 & Hs2 & Hp).
      { intros key Hk. rewrite !lookup_key_del_ne by congruence. reflexivity. }
      exists s2. split; [exact Hs2|].
      assert (del_key k (del_key k s) = del_key k s) as Hdd
        by (apply store_eq; [apply delete_delete_eq | reflexivity]).
      now rewrite Hdd in Hp.
    + rewrite Hv. cbn [existsb is_error orb]. rewrite zrange_fresh_all.
      apply Hgets. intros key Hk. apply lookup_key_set_ne. congruence.
  - store_step. cbn [existsb is_error orb zset_of deadline_of].
    unfold unexpired, put_zset. rewrite map_filter_empty, zrange_empty. cbn [fmap list_fmap].
    rewrite decide_True by reflexivity.
    destruct (Hgets [] (del_key k (del_key k s))) as (s2 & Hs2 & Hp).
    { intros key Hk. rewrite !lookup_key_del_ne by congruence. reflexivity. }
    exists s2. split; [exact Hs2|].
    assert (del_key k (del_key k s) = del_key k s) as Hdd
      by (apply store_eq; [apply delete_delete_eq | reflexivity]).
    now rewrite Hdd in Hp.
Qed.

Lemma lookup_key_db (k : string) (s : Store) (e : entry) :
  db s !! k = Some e -> expired (clock s) e = false -> lookup_key k s = Some e.
Proof. intros H1 H2. unfold lookup_key. now rewrite H1, H2. Qed.

Lemma zscore_zset (k m : string) (s : Store) (sc : Z) :
  zscore k m s = Some sc ->
  exists z dl, lookup_key k s = Some (queue_entry z dl) /\ z !! m = Some sc.
Proof.
  unfold zscore. destruct (lookup_key k s) as [[[v|z] dl]|]; cbn [zset_of];
    try (rewrite lookup_empty; discriminate).
  intros H. now exists z, dl.
Qed.

(** C6: whatever score a device already has, [updatePresence] with a
    positive window records the [now] of the call, also when [now] is the
    older of the two; the call returns normally. *)
Theorem update_presence_overwrites_score
    (ip d : string) (i : DeviceInfo) (now secs old : Z) (s : Store) :
  0 < secs ->
  zscore (redis__presence_prefix ip) d s = Some old ->
  zscore (redis__presence_prefix ip) d
    (redis__update_presence_for_device ip d i (Some now) secs s).1 = Some now /\
  (redis__update_presence_for_device ip d i (Some now) secs s).2 = Return tt.
Proof.
  intros Hsecs Hold. apply zscore_zset in Hold as (z & dl & Hk & Hz).
  rewrite update_presence_effect by (rewrite ?Hk; easy).
  cbn [fst snd]. split; [|reflexivity]. unfold zscore.
  match goal with
  | |- context [<[_ := queue_entry ?z' ?dl']> _] =>
      rewrite (lookup_key_db _ _ (queue_entry z' dl'))
  end.
  - cbn [zset_of queue_entry]. apply lookup_insert_eq.
  - cbn [db]. rewrite lookup_insert_ne by (symmetry; apply presence_ne_own_device_info).
    apply lookup_insert_eq.
  - cbn. apply fresh_deadline. assumption.
Qed.

Lemma update_presence_overwrites_score_witness :
  let s := (redis__update_presence_for_device ipA idA infoA (Some 100) 10 (empty_store 100)).1 in
  zscore (redis__presence_prefix ipA) idA
    (redis__update_presence_for_device ipA idA infoA (Some 95) 10 s).1 = Some 95 /\
  (redis__update_presence_for_device ipA idA infoA (Some 95) 10 s).2 = Return tt.
Proof.
  apply (update_presence_overwrites_score ipA idA infoA 95 10 100); [lia | vm_compute; reflexivity].
Defined.

Lemma nonpositive_secs (secs : Z) : secs <= 0 -> (secs <=? 0) = true.
Proof. intros H. apply Z.leb_le. lia. Qed.

Ltac store_cases k s v z dl Hv :=
  let E := fresh "E" in let Halive := fresh "Halive" in
  destruct (lookup_key k s) as [[[v|z] dl]|] eqn:E;
    [ pose proof (lookup_key_alive _ _ _ E) as [_ Halive];
      assert (forall v', expired (clock s) {| e_val := v'; e_deadline := dl |} = false)
        as Hv by (intros ?; exact Halive) ..
    | ].

Lemma push_message_cases (ip d : string) (m : DeviceMessage) (cur : option Z) (secs : Z)
    (s : Store) :
  let k := redis__to_device_message_queue_prefix ip d in
  let o := lookup_key k s in
  redis__push_message_for_device ip d m cur secs s
  = (write_key k (pushed_entry (DeviceMessage_to_json m) (current_time cur s) secs (clock s) o) s,
     if holds_string o then Raise ResponseError else Return tt).
Proof.
  intros k o. subst o.
  unfold redis__push_message_for_device, execute, exec_all, pushed_entry. fold k.
  generalize (DeviceMessage_to_json m) as raw. generalize (current_time cur s) as t.
  intros t raw. cbn [exec_command].
  store_cases k s v z dl Hv; (destruct (Z.leb_spec secs 0) as [Hs|Hs]);
    cbn [holds_string zset_of write_key]; unfold put_zset;
    try (destruct (decide (filter _ z = ∅)) as [Hz|Hz]; [rewrite Hz|]);
    repeat (store_step; rewrite ?Hv, ?E);
    rewrite ?nonpositive_secs by assumption;
    unfold unexpired; rewrite ?map_filter_empty, ?Hz; store_done.
Qed.

Lemma update_presence_cases (ip d : string) (i : DeviceInfo) (cur : option Z) (secs : Z)
    (s : Store) :
  let k := redis__presence_prefix ip in
  let ik := redis__device_info_prefix ip d in
  let o := lookup_key k s in
  let s1 := write_key k (presence_entry d (current_time cur s) secs (clock s) o) s in
  redis__update_presence_for_device ip d i cur secs s
  = (if secs <=? 0 then s1
     else set_key ik (snapshot_entry (DeviceInfo_to_json i) (Some (clock s + secs))) s1,
     if holds_string o || (secs <=? 0) then Raise ResponseError else Return tt).
Proof.
  intros k ik o s1. subst o s1.
  unfold redis__update_presence_for_device, execute, exec_all, presence_entry.
  fold k. fold ik.
  generalize (DeviceInfo_to_json i) as raw. generalize (current_time cur s) as t.
  intros t raw. cbn [exec_command].
  store_cases k s v z dl Hv; (destruct (Z.leb_spec secs 0) as [Hs|Hs]);
    cbn [holds_string zset_of write_key orb];
    repeat (store_step; rewrite ?Hv, ?E);
    rewrite ?nonpositive_secs by assumption; store_done.
Qed.

Lemma lookup_key_write_eq (k : string) (o : option entry) (s : Store) :
  alive_or_free (clock s) o -> lookup_key k (write_key k o s) = o.
Proof.
  destruct o as [e|]; cbn [write_key alive_or_free].
  - intros He. now rewrite lookup_key_set_eq, He.
  - intros _. apply lookup_key_del_eq.
Qed.

Lemma clock_write_key (k : string) (o : option entry) (s : Store) :
  clock (write_key k o s) = clock s.
Proof. now destruct o. Qed.

Lemma write_key_twice (k : string) (o o' : option entry) (s : Store) :
  write_key k o' (write_key k o s) = write_key k o' s.
Proof.
  destruct o, o'; apply store_eq; cbn;
    rewrite ?insert_insert_eq, ?insert_delete_eq, ?delete_insert_eq, ?delete_delete_eq;
    reflexivity.
Qed.

Lemma pushed_entry_alive (raw : string) (t secs now : Z) (o : option entry) :
  alive_or_free now (pushed_entry raw t secs now o).
Proof.
  unfold pushed_entry. destruct (Z.leb_spec secs 0) as [Hs|Hs]; [exact I|].
  destruct o as [[[v|z] dl]|]; cbn; now apply fresh_deadline.
Qed.

Lemma presence_entry_alive (d : string) (t secs now : Z) (o : option entry) :
  alive_or_free now (presence_entry d t secs now o).
Proof.
  unfold presence_entry. destruct (Z.leb_spec secs 0) as [Hs|Hs]; [exact I|].
  destruct o as [[[v|z] dl]|]; cbn; now apply fresh_deadline.
Qed.

Lemma unexpired_insert_again (raw : string) (t secs : Z) (z : gmap string Z) :
  0 < secs ->
  <[raw := t]> (unexpired t secs (<[raw := t]> (unexpired t secs z)))
  = <[raw := t]> (unexpired t secs z).
Proof.
  intros Hs. unfold unexpired.
  rewrite map_filter_insert_True by (cbn; lia).
  rewrite map_filter_filter, insert_insert_eq. f_equal.
  apply map_filter_ext. intros m sc _. cbn. tauto.
Qed.

Lemma pushed_entry_twice (raw : string) (t secs now : Z) (o : option entry) :
  pushed_entry raw t secs now (pushed_entry raw t secs now o) = pushed_entry raw t secs now o.
Proof.
  unfold pushed_entry. destruct (Z.leb_spec secs 0) as [Hs|Hs]; [reflexivity|].
  destruct o as [[[v|z] dl]|]; cbn [zset_of queue_entry]; try reflexivity;
    unfold queue_entry; now rewrite unexpired_insert_again.
Qed.

Lemma presence_entry_twice (d : string) (t secs now : Z) (o : option entry) :
  presence_entry d t secs now (presence_entry d t secs now o) = presence_entry d t secs now o.
Proof.
  unfold presence_entry. destruct (Z.leb_spec secs 0) as [Hs|Hs]; [reflexivity|].
  destruct o as [[[v|z] dl]|]; cbn [zset_of queue_entry]; try reflexivity;
    unfold queue_entry; now rewrite insert_insert_eq.
Qed.

Lemma holds_string_pushed (raw : string) (t secs now : Z) (o : option entry) :
  0 < secs -> holds_string (pushed_entry raw t secs now o) = holds_string o.
Proof.
  intros Hs. unfold pushed_entry. rewrite positive_secs by assumption.
  now destruct o as [[[v|z] dl]|].
Qed.

Lemma holds_string_presence (d : string) (t secs now : Z) (o : option entry) :
  0 < secs -> holds_string (presence_entry d t secs now o) = holds_string o.
Proof.
  intros Hs. unfold presence_entry. rewrite positive_secs by assumption.
  now destruct o as [[[v|z] dl]|].
Qed.

Lemma current_time_clock (cur : option Z) (s s' : Store) :
  clock s' = clock s -> current_time cur s' = current_time cur s.
Proof. intros H. destruct cur; [reflexivity|]. exact H. Qed.

Lemma push_message_idempotent (ip d : string) (m : DeviceMessage) (cur : option Z) (secs : Z)
    (s : Store) :
  (redis__push_message_for_device ip d m cur secs
     (redis__push_message_for_device ip d m cur secs s).1).1
  = (redis__push_message_for_device ip d m cur secs s).1.
Proof.
  rewrite (push_message_cases ip d m cur secs s). cbn [fst].
  rewrite push_message_cases. cbn [fst].
  rewrite lookup_key_write_eq by apply pushed_entry_alive.
  rewrite clock_write_key, (current_time_clock cur s) by apply clock_write_key.
  now rewrite pushed_entry_twice, write_key_twice.
Qed.

Lemma update_presence_idempotent (ip d : string) (i : DeviceInfo) (cur : option Z) (secs : Z)
    (s : Store) :
  (redis__update_presence_for_device ip d i cur secs
     (redis__update_presence_for_device ip d i cur secs s).1).1
  = (redis__update_presence_for_device ip d i cur secs s).1.
Proof.
  rewrite (update_presence_cases ip d i cur secs s). cbn [fst].
  rewrite update_presence_cases. cbn [fst].
  set (k := redis__presence_prefix ip). set (ik := redis__device_info_prefix ip d).
  assert (k <> ik) as Hk by apply presence_ne_own_device_info.
  destruct (Z.leb_spec secs 0) as [Hs|Hs].
  - rewrite lookup_key_write_eq by apply presence_entry_alive.
    rewrite clock_write_key, (current_time_clock cur s) by apply clock_write_key.
    now rewrite presence_entry_twice, write_key_twice.
  - rewrite lookup_key_set_ne by congruence.
    rewrite lookup_key_write_eq by apply presence_entry_alive.
    rewrite clock_set_key, clock_write_key.
    rewrite (current_time_clock cur s) by (rewrite clock_set_key; apply clock_write_key).
    rewrite presence_entry_twice.
    destruct (presence_entry d (current_time cur s) secs (clock s) (lookup_key k s));
      apply store_eq; try reflexivity; cbn; apply map_eq; intros key;
      destruct (decide (key = ik)) as [E1|H1], (decide (key = k)) as [E2|H2];
      subst; simplify_map_eq; congruence.
Qed.

(** C8: repeating [updatePresence] or [pushMessage] with the same
    arguments leaves the store as the first call left it. *)
Theorem writes_idempotent (ip d : string) (i : DeviceInfo) (m : DeviceMessage)
    (cur : option Z) (secs : Z) (s : Store) :
  (redis__update_presence_for_device ip d i cur secs
     (redis__update_presence_for_device ip d i cur secs s).1).1
  = (redis__update_presence_for_device ip d i cur secs s).1 /\
  (redis__push_message_for_device ip d m cur secs
     (redis__push_message_for_device ip d m cur secs s).1).1
  = (redis__push_message_for_device ip d m cur secs s).1.
Proof.
  split; [apply update_presence_idempotent | apply push_message_idempotent].
Qed.

Lemma pull_messages_on_string (ip d : string) (n : Z) (cur : option Z) (secs : Z) (s : Store) :
  holds_string (lookup_key (redis__to_device_message_queue_prefix ip d) s) = true ->
  redis__pull_messages_for_device ip d n cur secs s = (s, Raise ResponseError).
Proof.
  intros Hstr. unfold redis__pull_messages_for_device, execute, exec_all.
  cbn [exec_command].
  destruct (lookup_key _ s) as [[[v|z] dl]|] eqn:E; try discriminate Hstr.
  rewrite E. reflexivity.
Qed.

Lemma holds_string_free (o : option entry) : holds_string o = false -> zset_or_free o.
Proof. now destruct o as [[[v|z] dl]|]. Qed.

Lemma parse_messages_Return (raws : list (string * Z)) (msgs : list DeviceMessage) :
  parse_messages raws = Return msgs ->
  Forall2 (fun p m => DeviceMessage_from_json p.1 = Return m) raws msgs.
Proof.
  revert msgs. induction raws as [|[raw sc] raws IH]; intros msgs; cbn [parse_messages].
  - intros [= <-]. constructor.
  - destruct (DeviceMessage_from_json raw) as [m|e] eqn:Em; [|discriminate].
    cbn [bind]. destruct (parse_messages raws) as [ms|e]; [|discriminate].
    cbn [bind]. intros [= <-]. constructor; [exact Em | now apply IH].
Qed.

(** What a successful pull hands out: the parsed members of a prefix of
    the unexpired entries, in their order. *)
Lemma pull_messages_Return (ip d : string) (n : Z) (cur : option Z) (secs : Z) (s : Store)
    (msgs : list DeviceMessage) :
  let k := redis__to_device_message_queue_prefix ip d in
  let t := current_time cur s in
  (redis__pull_messages_for_device ip d n cur secs s).2 = Return msgs ->
  Forall2 (fun p m => DeviceMessage_from_json p.1 = Return m)
    (take (Z.to_nat n) (zrange (unexpired t secs (zset_of (lookup_key k s))))) msgs.
Proof.
  intros k t Hret.
  destruct (holds_string (lookup_key k s)) eqn:Hstr.
  - rewrite pull_messages_on_string in Hret by exact Hstr. discriminate Hret.
  - rewrite pull_messages_effect in Hret by now apply holds_string_free.
    now apply parse_messages_Return.
Qed.

(** C2: every message a pull returns was stored with a score less than
    the window before the [now] of the pull. *)
Theorem pull_messages_within_window (ip d : string) (n now secs : Z) (s : Store)
    (msgs : list DeviceMessage) :
  (redis__pull_messages_for_device ip d n (Some now) secs s).2 = Return msgs ->
  Forall (fun m => exists raw t,
            zscore (redis__to_device_message_queue_prefix ip d) raw s = Some t /\
            DeviceMessage_from_json raw = Return m /\
            now < t + secs) msgs.
Proof.
  intros Hret. apply pull_messages_Return in Hret. cbn [current_time] in Hret.
  apply Forall_forall. intros m Hm.
  apply list_elem_of_lookup in Hm as [j Hj].
  destruct (Forall2_lookup_r _ _ _ _ _ Hret Hj) as ([raw t] & Hp & Hparse).
  exists raw, t. apply list_elem_of_lookup_2, elem_of_take in Hp as (j' & Hp & _).
  apply list_elem_of_lookup_2, elem_of_zrange, map_lookup_filter_Some in Hp as [Hz Ht].
  cbn in Ht. unfold zscore. repeat split; [exact Hz | exact Hparse | lia].
Qed.

Lemma pull_messages_within_window_witness :
  let s := (redis__push_message_for_device ipA idA msgA (Some 0) 60 (empty_store 0)).1 in
  Forall (fun m => exists raw t,
            zscore (redis__to_device_message_queue_prefix ipA idA) raw s = Some t /\
            DeviceMessage_from_json raw = Return m /\
            5 < t + 60) [msgA].
Proof.
  apply (pull_messages_within_window ipA idA 3 5 60). vm_compute. reflexivity.
Defined.

(** ** Batch cap *)
Lemma pull_messages_cap (ip d : string) (n : Z) (cur : option Z) (secs : Z) (s : Store)
    (msgs : list DeviceMessage) :
  (redis__pull_messages_for_device ip d n cur secs s).2 = Return msgs ->
  (length msgs <= Z.to_nat n)%nat.
Proof.
  intros Hret. apply pull_messages_Return in Hret.
  apply Forall2_length in Hret. rewrite <- Hret, length_take. lia.
Qed.

Lemma filter_unique_key (l : list (string * Z)) (m : string) (sc : Z) :
  NoDup l.*1 -> (m, sc) ∈ l -> filter (fun p => p.1 = m) l = [(m, sc)].
Proof.
  induction l as [|[m' sc'] l IH]; intros Hnd Hin; [now apply elem_of_nil in Hin|].
  cbn [fmap list_fmap fst] in Hnd. apply NoDup_cons in Hnd as [Hm' Hnd].
  apply elem_of_cons in Hin as [[= <- <-]|Hin].
  - rewrite filter_cons_True by reflexivity. f_equal.
    clear IH. induction l as [|[m2 sc2] l IH]; [reflexivity|].
    cbn [fmap list_fmap fst] in Hm', Hnd. apply not_elem_of_cons in Hm' as [Hne Hm'].
    apply NoDup_cons in Hnd as [_ Hnd].
    rewrite filter_cons_False by (cbn; congruence). now apply IH.
  - rewrite filter_cons_False; [now apply IH|].
    cbn. intros ->. apply Hm'. apply list_elem_of_fmap. now exists (m, sc).
Qed.

Lemma size_reinsert (m : string) (sc sc' : Z) (P : string * Z -> Prop)
    `{!forall p, Decision (P p)} (z : gmap string Z) :
  z !! m = Some sc -> (size (<[m := sc']> (filter P z)) <= size z)%nat.
Proof.
  intros Hm. rewrite <- !size_dom. apply subseteq_size.
  rewrite dom_insert. intros x Hx. apply elem_of_union in Hx as [Hx|Hx].
  - apply elem_of_singleton in Hx as ->. apply elem_of_dom. eauto.
  - revert Hx. apply subseteq_dom, map_filter_subseteq.
Qed.

Lemma lookup_key_pushed (ip d : string) (m : DeviceMessage) (cur : option Z) (secs : Z)
    (s : Store) :
  let k := redis__to_device_message_queue_prefix ip d in
  0 < secs -> zset_or_free (lookup_key k s) ->
  lookup_key k (redis__push_message_for_device ip d m cur secs s).1
  = Some (queue_entry
            (<[DeviceMessage_to_json m := current_time cur s]>
               (unexpired (current_time cur s) secs (zset_of (lookup_key k s))))
            (Some (clock s + secs))).
Proof.
  intros k Hsecs Hfree. rewrite push_message_effect by assumption. cbn [fst].
  apply lookup_key_db; [apply lookup_insert_eq | now apply fresh_deadline].
Qed.

(** C10: pushing a payload that the mailbox already holds leaves one entry
    for it, dated with the [now] of the push, and adds none. *)
Theorem push_same_payload_redates (ip d : string) (m : DeviceMessage) (now secs old : Z)
    (s : Store) :
  let k := redis__to_device_message_queue_prefix ip d in
  let raw := DeviceMessage_to_json m in
  let s' := (redis__push_message_for_device ip d m (Some now) secs s).1 in
  0 < secs ->
  zscore k raw s = Some old ->
  zscore k raw s' = Some now /\
  filter (fun p => p.1 = raw) (mailbox ip d s') = [(raw, now)] /\
  NoDup (mailbox ip d s').*1 /\
  (length (mailbox ip d s') <= length (mailbox ip d s))%nat.
Proof.
  intros k raw s' Hsecs Hold. subst s' k.
  apply zscore_zset in Hold as (z & dl & Hk & Hz).
  unfold zscore, mailbox.
  rewrite lookup_key_pushed by (rewrite ?Hk; easy).
  fold raw. rewrite Hk. cbn [zset_of queue_entry current_time].
  assert (<[raw:=now]> (unexpired now secs z) !! raw = Some now) as Hnew
    by apply lookup_insert_eq.
  repeat split.
  - exact Hnew.
  - apply filter_unique_key; [apply zrange_NoDup | now apply elem_of_zrange].
  - apply zrange_NoDup.
  - rewrite !zrange_length. unfold unexpired.
    eapply size_reinsert. exact Hz.
Qed.

Lemma push_same_payload_redates_witness :
  let s := (redis__push_message_for_device ipA idA msgA (Some 0) 60 (empty_store 0)).1 in
  let k := redis__to_device_message_queue_prefix ipA idA in
  let raw := DeviceMessage_to_json msgA in
  let s' := (redis__push_message_for_device ipA idA msgA (Some 7) 60 s).1 in
  zscore k raw s' = Some 7 /\
  filter (fun p => p.1 = raw) (mailbox ipA idA s') = [(raw, 7)] /\
  NoDup (mailbox ipA idA s').*1 /\
  (length (mailbox ipA idA s') <= length (mailbox ipA idA s))%nat.
Proof.
  apply (push_same_payload_redates ipA idA msgA 7 60 0); [lia | vm_compute; reflexivity].
Defined.

Lemma parse_messages_Raise (raws : list (string * Z)) (p : string * Z) (e : exn) :
  p ∈ raws -> DeviceMessage_from_json p.1 = Raise e ->
  exists e', parse_messages raws = Raise e'.
Proof.
  intros Hin Hbad. induction raws as [|[raw sc] raws IH]; [now apply elem_of_nil in Hin|].
  cbn [parse_messages]. apply elem_of_cons in Hin as [->|Hin].
  - cbn [fst] in Hbad. rewrite Hbad. now exists e.
  - destruct (DeviceMessage_from_json raw) as [m|e1]; [|now exists e1].
    destruct (IH Hin) as [e' ->]. now exists e'.
Qed.

(** A malformed member among the entries a pull removes makes the call
    raise; nothing is returned. *)
Lemma pull_messages_malformed (ip d : string) (n : Z) (cur : option Z) (secs : Z) (s : Store)
    (p : string * Z) (e : exn) :
  let k := redis__to_device_message_queue_prefix ip d in
  p ∈ take (Z.to_nat n) (zrange (unexpired (current_time cur s) secs (zset_of (lookup_key k s)))) ->
  DeviceMessage_from_json p.1 = Raise e ->
  exists e', (redis__pull_messages_for_device ip d n cur secs s).2 = Raise e'.
Proof.
  intros k Hin Hbad.
  destruct (holds_string (lookup_key k s)) eqn:Hstr.
  - rewrite pull_messages_on_string by exact Hstr. now exists ResponseError.
  - rewrite pull_messages_effect by now apply holds_string_free.
    cbn [snd]. eapply parse_messages_Raise; eassumption.
Qed.

(** C1: the pull raises on a malformed member instead of skipping it, and
    the well-formed message removed in the same batch is lost. *)
Theorem pull_messages_raises_on_malformed :
  (redis__pull_messages_for_device ipA idA 3 (Some 5) 60 store_with_junk).2
    = Raise JSONDecodeError /\
  mailbox ipA idA (redis__pull_messages_for_device ipA idA 3 (Some 5) 60 store_with_junk).1 = [] /\
  (redis__pull_messages_for_device ipA idA 3 (Some 5) 60 store_with_blank_type).2
    = Raise ValidationError /\
  mailbox ipA idA (redis__pull_messages_for_device ipA idA 3 (Some 5) 60 store_with_blank_type).1
    = [].
Proof. repeat split; vm_compute; reflexivity. Qed.

Lemma unexpired_empty (t secs : Z) : unexpired t secs ∅ = ∅.
Proof. apply map_filter_empty. Qed.

Lemma unexpired_insert (t secs sc : Z) (m : string) (z : gmap string Z) :
  t - secs < sc -> unexpired t secs (<[m := sc]> z) = <[m := sc]> (unexpired t secs z).
Proof. intros H. unfold unexpired. now rewrite map_filter_insert_True. Qed.

Lemma unexpired_all (t secs : Z) (z : gmap string Z) :
  (forall m sc, z !! m = Some sc -> t - secs < sc) -> unexpired t secs z = z.
Proof. intros H. apply map_filter_id. intros m sc Hm. cbn. eauto. Qed.

Lemma zrange_singleton (m : string) (sc : Z) : zrange {[ m := sc ]} = [(m, sc)].
Proof.
  apply zrange_unique; [repeat constructor|]. now rewrite map_to_list_singleton.
Qed.

Lemma zrange_three (m1 m2 m3 : string) (t1 t2 t3 : Z) :
  m1 <> m2 -> m1 <> m3 -> m2 <> m3 -> t1 < t2 -> t2 < t3 ->
  zrange (<[m3 := t3]> (<[m2 := t2]> (<[m1 := t1]> ∅))) = [(m1, t1); (m2, t2); (m3, t3)].
Proof.
  intros H12 H13 H23 Ht12 Ht23. apply zrange_unique.
  - repeat constructor; unfold zle; cbn; lia.
  - rewrite map_to_list_insert by (simplify_map_eq; reflexivity).
    rewrite map_to_list_insert by (simplify_map_eq; reflexivity).
    rewrite map_to_list_insert by apply lookup_empty.
    rewrite map_to_list_empty.
    change [(m1, t1); (m2, t2); (m3, t3)] with ([(m1, t1); (m2, t2)] ++ [(m3, t3)]).
    rewrite <- Permutation_cons_append. apply perm_skip, perm_swap.
Qed.

Lemma clock_push_message (ip d : string) (m : DeviceMessage) (cur : option Z) (secs : Z)
    (s : Store) :
  clock (redis__push_message_for_device ip d m cur secs s).1 = clock s.
Proof. rewrite push_message_cases. apply clock_write_key. Qed.

Lemma lookup_key_advance (k : string) (dt : Z) (s : Store) (e : entry) (dl : Z) :
  lookup_key k s = Some e -> e_deadline e = Some dl -> clock s + Z.max 0 dt <= dl ->
  lookup_key k (advance dt s) = Some e.
Proof.
  intros Hk Hd Hle. apply lookup_key_alive in Hk as [Hk _].
  apply lookup_key_db; [exact Hk|]. unfold expired. rewrite Hd. cbn. apply Z.ltb_ge. lia.
Qed.

Lemma clock_advance (dt : Z) (s : Store) : 0 <= dt -> clock (advance dt s) = clock s + dt.
Proof. intros H. cbn. lia. Qed.

Lemma zremove_two_of_three (m1 m2 m3 : string) (t1 t2 t3 : Z) :
  m1 <> m3 -> m2 <> m3 ->
  zremove [(m1, t1); (m2, t2)] (<[m3 := t3]> (<[m2 := t2]> (<[m1 := t1]> ∅)))
  = {[ m3 := t3 ]}.
Proof.
  intros H13 H23. cbn [zremove foldr fst]. apply map_eq. intros key.
  destruct (decide (key = m1)) as [E1|?], (decide (key = m2)) as [E2|?],
    (decide (key = m3)) as [E3|?]; subst; simplify_map_eq; congruence.
Qed.

Lemma pull_messages_on_queue (ip d : string) (n : Z) (cur : option Z) (secs : Z) (s : Store)
    (z : gmap string Z) (dl : option Z) :
  let k := redis__to_device_message_queue_prefix ip d in
  let popped := take (Z.to_nat n) (zrange z) in
  lookup_key k s = Some (queue_entry z dl) ->
  unexpired (current_time cur s) secs z = z ->
  (redis__pull_messages_for_device ip d n cur secs s).2 = parse_messages popped /\
  clock (redis__pull_messages_for_device ip d n cur secs s).1 = clock s /\
  lookup_key k (redis__pull_messages_for_device ip d n cur secs s).1
  = if decide (zremove popped z = ∅) then None else Some (queue_entry (zremove popped z) dl).
Proof.
  intros k popped Hk Hz. subst k popped.
  rewrite pull_messages_effect by (rewrite Hk; exact I).
  rewrite Hk. cbn [zset_of deadline_of queue_entry e_deadline fst snd clock]. rewrite Hz.
  split; [reflexivity|]. split; [reflexivity|].
  apply lookup_key_alive in Hk as [_ Halive].
  destruct (decide (zremove _ z = ∅)).
  - unfold lookup_key. cbn [db]. now rewrite lookup_delete_eq.
  - apply lookup_key_db; [apply lookup_insert_eq | exact Halive].
Qed.

(** C4, as amended: three pairwise different messages enqueued at
    increasing times (scores that the doubles of the server keep apart)
    into a mailbox that holds nothing else, each call made before the
    expiry set by the push before it has passed on the clock of the
    store, come out oldest first, two with the first pull of size two and
    the third with the next pull, which empties the mailbox; no pull
    returns more entries than asked for. *)
Theorem mailbox_fifo (ip d : string) (m1 m2 m3 : DeviceMessage)
    (t1 t2 t3 now now' W n e1 e2 e3 e4 : Z) (s0 : Store) :
  let k := redis__to_device_message_queue_prefix ip d in
  let push m t s := (redis__push_message_for_device ip d m (Some t) W s).1 in
  let s3 := push m3 t3 (advance e2 (push m2 t2 (advance e1 (push m1 t1 s0)))) in
  let r4 := redis__pull_messages_for_device ip d 2 (Some now) W (advance e3 s3) in
  let r5 := redis__pull_messages_for_device ip d n (Some now') W (advance e4 r4.1) in
  valid_message m1 -> valid_message m2 -> valid_message m3 ->
  m1 <> m2 -> m1 <> m3 -> m2 <> m3 ->
  lookup_key k s0 = None ->
  - 2 ^ 53 < t1 -> t1 < t2 -> t2 < t3 -> t3 < 2 ^ 53 ->
  t3 - W < t1 -> now - W < t1 -> now' - W < t3 ->
  0 <= e1 <= W -> 0 <= e2 <= W -> 0 <= e3 -> 0 <= e4 -> e3 + e4 <= W ->
  1 <= n ->
  r4.2 = Return [m1; m2] /\
  mailbox ip d r4.1 = [(DeviceMessage_to_json m3, t3)] /\
  r5.2 = Return [m3] /\
  mailbox ip d r5.1 = [] /\
  (forall ip' d' c cur secs s msgs,
      (redis__pull_messages_for_device ip' d' c cur secs s).2 = Return msgs ->
      (length msgs <= Z.to_nat c)%nat).
Proof.
  intros k push s3 r4 r5 V1 V2 V3 N12 N13 N23 Hk0 _ H12 H23 _ Hw0 Hw1 Hw3 He1 He2 He3 He4 He34
    Hn.
  subst k.
  set (raw1 := DeviceMessage_to_json m1). set (raw2 := DeviceMessage_to_json m2).
  set (raw3 := DeviceMessage_to_json m3).
  assert (raw1 <> raw2) as R12 by (intros E; now apply DeviceMessage_to_json_inj in E).
  assert (raw1 <> raw3) as R13 by (intros E; now apply DeviceMessage_to_json_inj in E).
  assert (raw2 <> raw3) as R23 by (intros E; now apply DeviceMessage_to_json_inj in E).
  assert (0 < W) as HW by lia.
  set (c0 := clock s0).
  (* the three pushes *)
  set (s1 := push m1 t1 s0).
  assert (lookup_key (redis__to_device_message_queue_prefix ip d) s1
          = Some (queue_entry (<[raw1 := t1]> ∅) (Some (c0 + W))) /\
          clock s1 = c0) as [K1 C1].
  { subst s1 push. cbn beta. rewrite clock_push_message.
    rewrite lookup_key_pushed by (rewrite ?Hk0; easy).
    rewrite Hk0. cbn [zset_of current_time]. now rewrite unexpired_empty. }
  set (s2 := push m2 t2 (advance e1 s1)).
  assert (lookup_key (redis__to_device_message_queue_prefix ip d) s2
          = Some (queue_entry (<[raw2 := t2]> (<[raw1 := t1]> ∅)) (Some (c0 + e1 + W))) /\
          clock s2 = c0 + e1) as [K2 C2].
  { assert (lookup_key (redis__to_device_message_queue_prefix ip d) (advance e1 s1)
            = Some (queue_entry (<[raw1 := t1]> ∅) (Some (c0 + W)))) as Ka
      by (eapply lookup_key_advance; [exact K1 | reflexivity | lia]).
    subst s2 push. cbn beta. rewrite clock_push_message, clock_advance by lia.
    rewrite lookup_key_pushed by (rewrite ?Ka; easy).
    rewrite Ka, clock_advance, C1 by lia. cbn [zset_of queue_entry current_time].
    rewrite unexpired_insert, unexpired_empty by lia.
    split; reflexivity. }
  assert (lookup_key (redis__to_device_message_queue_prefix ip d) s3
          = Some (queue_entry (<[raw3 := t3]> (<[raw2 := t2]> (<[raw1 := t1]> ∅)))
                    (Some (c0 + e1 + e2 + W))) /\
          clock s3 = c0 + e1 + e2) as [K3 C3].
  { assert (lookup_key (redis__to_device_message_queue_prefix ip d) (advance e2 s2)
            = Some (queue_entry (<[raw2 := t2]> (<[raw1 := t1]> ∅)) (Some (c0 + e1 + W)))) as Ka
      by (eapply lookup_key_advance; [exact K2 | reflexivity | lia]).
    subst s3 push. cbn beta. fold s1. fold s2.
    rewrite clock_push_message, clock_advance by lia.
    rewrite lookup_key_pushed by (rewrite ?Ka; easy).
    rewrite Ka, clock_advance, C2 by lia. cbn [zset_of queue_entry current_time].
    rewrite !unexpired_insert, unexpired_empty by lia.
    split; reflexivity. }
  clearbody s3. clear s1 s2 K1 C1 K2 C2 push.
  set (z3 := <[raw3 := t3]> (<[raw2 := t2]> (<[raw1 := t1]> ∅))) in *.
  assert (zrange z3 = [(raw1, t1); (raw2, t2); (raw3, t3)]) as Hrange
    by now apply zrange_three.
  (* the first pull *)
  assert (lookup_key (redis__to_device_message_queue_prefix ip d) (advance e3 s3)
          = Some (queue_entry z3 (Some (c0 + e1 + e2 + W)))) as K4
    by (eapply lookup_key_advance; [exact K3 | reflexivity | lia]).
  destruct (pull_messages_on_queue ip d 2 (Some now) W _ _ _ K4) as (O4 & C4 & K4').
  { apply unexpired_all. intros m sc Hm. cbn [current_time].
    apply elem_of_zrange in Hm. rewrite Hrange in Hm.
    repeat (apply elem_of_cons in Hm as [[= -> ->]|Hm]; [lia|]). now apply elem_of_nil in Hm. }
  fold r4 in O4, C4, K4'. rewrite Hrange in O4, K4'.
  change (take (Z.to_nat 2) [(raw1, t1); (raw2, t2); (raw3, t3)])
    with [(raw1, t1); (raw2, t2)] in O4, K4'.
  assert (zremove [(raw1, t1); (raw2, t2)] z3 = {[ raw3 := t3 ]}) as Hrem.
  { now apply zremove_two_of_three. }
  rewrite Hrem in K4'. rewrite decide_False in K4' by apply insert_non_empty.
  split.
  { rewrite O4. cbn [parse_messages]. fold raw1 raw2. unfold raw1, raw2.
    now rewrite !DeviceMessage_round_trip. }
  split.
  { unfold mailbox. rewrite K4'. cbn [zset_of queue_entry]. apply zrange_singleton. }
  (* the second pull *)
  assert (lookup_key (redis__to_device_message_queue_prefix ip d) (advance e4 r4.1)
          = Some (queue_entry {[ raw3 := t3 ]} (Some (c0 + e1 + e2 + W)))) as K5.
  { eapply lookup_key_advance; [exact K4' | reflexivity |].
    rewrite C4, clock_advance, C3 by lia. lia. }
  destruct (pull_messages_on_queue ip d n (Some now') W _ _ _ K5) as (O5 & C5 & K5').
  { apply unexpired_all. intros m sc Hm. cbn [current_time].
    apply lookup_singleton_Some in Hm as [_ <-]. lia. }
  fold r5 in O5, C5, K5'. rewrite zrange_singleton in O5, K5'.
  assert (take (Z.to_nat n) [(raw3, t3)] = [(raw3, t3)]) as Htake.
  { apply take_ge. cbn [length]. lia. }
  rewrite Htake in O5, K5'. cbn [zremove foldr fst] in K5'.
  rewrite delete_singleton_eq in K5'. rewrite decide_True in K5' by reflexivity.
  split.
  { rewrite O5. cbn [parse_messages]. unfold raw3. now rewrite DeviceMessage_round_trip. }
  split.
  { unfold mailbox. now rewrite K5'. }
  intros ip' d' c cur secs s msgs. apply pull_messages_cap.
Qed.

Ltac valid_value :=
  repeat split; cbn [m_data map fst snd];
  first [ reflexivity | apply (bool_decide_unpack _); reflexivity ].

Lemma msgA_valid : valid_message msgA.
Proof. valid_value. Qed.

Lemma msgB_valid : valid_message msgB.
Proof. valid_value. Qed.

Lemma msgC_valid : valid_message msgC.
Proof. valid_value. Qed.

Lemma infoA_valid : valid_info infoA.
Proof. valid_value. Qed.

Lemma mailbox_fifo_witness :
  let push m t s := (redis__push_message_for_device ipA idA m (Some t) 60 s).1 in
  let s3 := push msgC 20 (advance 10 (push msgB 10 (advance 10 (push msgA 0 (empty_store 0))))) in
  let r4 := redis__pull_messages_for_device ipA idA 2 (Some 30) 60 (advance 10 s3) in
  let r5 := redis__pull_messages_for_device ipA idA 3 (Some 40) 60 (advance 10 r4.1) in
  r4.2 = Return [msgA; msgB] /\
  mailbox ipA idA r4.1 = [(DeviceMessage_to_json msgC, 20)] /\
  r5.2 = Return [msgC] /\
  mailbox ipA idA r5.1 = [] /\
  (forall ip' d' c cur secs s msgs,
      (redis__pull_messages_for_device ip' d' c cur secs s).2 = Return msgs ->
      (length msgs <= Z.to_nat c)%nat).
Proof.
  apply (mailbox_fifo ipA idA msgA msgB msgC 0 10 20 30 40 60 3 10 10 10 10 (empty_store 0));
    first [ exact msgA_valid | exact msgB_valid | exact msgC_valid
          | discriminate | reflexivity | lia ].
Defined.

(** C4, as stated, fails: the payload is the member of the sorted set, so
    the message enqueued at 0 and again at 10 is there once; the pull of
    size two returns it with the message enqueued at 20, and the next
    pull returns nothing. *)
Lemma repeated_payload_breaks_fifo :
  let push m t s := (redis__push_message_for_device ipA idA m (Some t) 60 s).1 in
  let s3 := push msgC 20 (advance 10 (push msgA 10 (advance 10 (push msgA 0 (empty_store 0))))) in
  let r4 := redis__pull_messages_for_device ipA idA 2 (Some 30) 60 (advance 10 s3) in
  let r5 := redis__pull_messages_for_device ipA idA 3 (Some 40) 60 (advance 10 r4.1) in
  r4.2 = Return [msgA; msgC] /\ r5.2 = Return [] /\
  0 < 10 < 20 /\ 30 - 60 < 0 /\ msgA <> msgC.
Proof.
  repeat split; first [ vm_compute; reflexivity | lia | discriminate ].
Qed.

Lemma exec_command_frame (c : command) (s : Store) (k : string) :
  k <> command_key c -> db (exec_command c s).1 !! k = db s !! k.
Proof.
  intros Hk. destruct c; cbn [exec_command command_key] in *;
    repeat match goal with
    | |- context [match lookup_key ?key s with _ => _ end] =>
        destruct (lookup_key key s) as [[[?|?] ?]|]
    | |- context [if ?b then _ else _] => destruct b
    end;
    unfold put_zset; repeat case_decide; cbn [fst db set_key del_key];
    rewrite ?lookup_insert_ne, ?lookup_delete_ne by congruence; reflexivity.
Qed.

Lemma exec_all_frame (cs : list command) (s : Store) (k : string) :
  Forall (fun c => k <> command_key c) cs -> db (exec_all cs s).1 !! k = db s !! k.
Proof.
  intros H. revert s. induction H as [|c cs Hc Hcs IH]; intros s; [reflexivity|].
  cbn [exec_all]. pose proof (exec_command_frame c s k Hc) as Hf.
  destruct (exec_command c s) as [s1 r]. specialize (IH s1).
  destruct (exec_all cs s1) as [s2 rs]. cbn [fst] in *. congruence.
Qed.

Lemma execute_frame (cs : list command) (s : Store) (k : string) :
  Forall (fun c => k <> command_key c) cs -> db (execute cs s).1 !! k = db s !! k.
Proof.
  intros H. unfold execute. pose proof (exec_all_frame cs s k H) as Hf.
  now destruct (exec_all cs s).
Qed.

Lemma push_message_frame (ip d : string) (m : DeviceMessage) (cur : option Z) (secs : Z)
    (s : Store) (k : string) :
  k <> redis__to_device_message_queue_prefix ip d ->
  db (redis__push_message_for_device ip d m cur secs s).1 !! k = db s !! k.
Proof.
  intros Hk. unfold redis__push_message_for_device.
  match goal with |- context [execute ?cs s] =>
    pose proof (execute_frame cs s k) as Hf; destruct (execute cs s) end.
  apply Hf. repeat constructor; exact Hk.
Qed.

Lemma pull_messages_frame (ip d : string) (n : Z) (cur : option Z) (secs : Z)
    (s : Store) (k : string) :
  k <> redis__to_device_message_queue_prefix ip d ->
  db (redis__pull_messages_for_device ip d n cur secs s).1 !! k = db s !! k.
Proof.
  intros Hk. unfold redis__pull_messages_for_device.
  match goal with |- context [execute ?cs s] =>
    pose proof (execute_frame cs s k) as Hf; destruct (execute cs s) end.
  apply Hf. repeat constructor; exact Hk.
Qed.

Lemma update_presence_frame (ip d : string) (i : DeviceInfo) (cur : option Z) (secs : Z)
    (s : Store) (k : string) :
  k <> redis__presence_prefix ip -> k <> redis__device_info_prefix ip d ->
  db (redis__update_presence_for_device ip d i cur secs s).1 !! k = db s !! k.
Proof.
  intros Hk Hik. unfold redis__update_presence_for_device.
  match goal with |- context [execute ?cs s] =>
    pose proof (execute_frame cs s k) as Hf; destruct (execute cs s) end.
  apply Hf. repeat constructor; assumption.
Qed.

(** C9, as amended: for device identifiers that cannot be mistaken for a
    part of a key name, the mailbox operations leave every presence set
    and every snapshot as they are, and [updatePresence] leaves every
    mailbox as it is. *)
Theorem presence_and_mailbox_disjoint (ip d ip' d' : string) (i : DeviceInfo)
    (m : DeviceMessage) (n : Z) (cur : option Z) (secs : Z) (s : Store) :
  key_safe d -> key_safe d' ->
  let pushed := (redis__push_message_for_device ip d m cur secs s).1 in
  let pulled := (redis__pull_messages_for_device ip d n cur secs s).1 in
  let updated := (redis__update_presence_for_device ip d i cur secs s).1 in
  (db pushed !! redis__presence_prefix ip' = db s !! redis__presence_prefix ip' /\
   db pushed !! redis__device_info_prefix ip' d' = db s !! redis__device_info_prefix ip' d') /\
  (db pulled !! redis__presence_prefix ip' = db s !! redis__presence_prefix ip' /\
   db pulled !! redis__device_info_prefix ip' d' = db s !! redis__device_info_prefix ip' d') /\
  db updated !! redis__to_device_message_queue_prefix ip' d'
  = db s !! redis__to_device_message_queue_prefix ip' d'.
Proof.
  intros Hd Hd'. cbn zeta. repeat split.
  - apply push_message_frame. now apply presence_ne_message_queue.
  - apply push_message_frame. now apply device_info_ne_message_queue.
  - apply pull_messages_frame. now apply presence_ne_message_queue.
  - apply pull_messages_frame. now apply device_info_ne_message_queue.
  - apply update_presence_frame.
    + intros E. symmetry in E. revert E. now apply presence_ne_message_queue.
    + intros E. symmetry in E. revert E. now apply device_info_ne_message_queue.
Qed.

Lemma idA_key_safe : key_safe idA.
Proof. split; [reflexivity | discriminate]. Qed.

Lemma presence_and_mailbox_disjoint_witness :
  let s := empty_store 0 in
  let pushed := (redis__push_message_for_device ipA idA msgA (Some 0) 60 s).1 in
  let pulled := (redis__pull_messages_for_device ipA idA 3 (Some 0) 60 s).1 in
  let updated := (redis__update_presence_for_device ipA idA infoA (Some 0) 60 s).1 in
  (db pushed !! redis__presence_prefix ipA = db s !! redis__presence_prefix ipA /\
   db pushed !! redis__device_info_prefix ipA idA = db s !! redis__device_info_prefix ipA idA) /\
  (db pulled !! redis__presence_prefix ipA = db s !! redis__presence_prefix ipA /\
   db pulled !! redis__device_info_prefix ipA idA = db s !! redis__device_info_prefix ipA idA) /\
  db updated !! redis__to_device_message_queue_prefix ipA idA
  = db s !! redis__to_device_message_queue_prefix ipA idA.
Proof.
  apply (presence_and_mailbox_disjoint ipA idA ipA idA infoA msgA 3 (Some 0) 60 (empty_store 0));
    (split; [reflexivity | discriminate]).
Defined.

(** C9, as stated, fails: with a colon in the device identifier a mailbox
    key is the presence key of another client address, and a push rewrites
    that presence set. *)
Lemma key_families_collide :
  String.length id_with_colon = 32%nat /\
  redis__to_device_message_queue_prefix ipA id_with_colon = redis__presence_prefix ip_reached /\
  zscore (redis__presence_prefix ip_reached) (DeviceMessage_to_json msgA) (empty_store 0)
  = None /\
  zscore (redis__presence_prefix ip_reached) (DeviceMessage_to_json msgA)
    (redis__push_message_for_device ipA id_with_colon msgA (Some 0) 60 (empty_store 0)).1
  = Some 0.
Proof. repeat split; vm_compute; reflexivity. Qed.

Lemma from_json_empty : DeviceInfo_from_json EmptyString = Raise JSONDecodeError.
Proof. reflexivity. Qed.

Lemma parse_infos_readable (rs : list reply) :
  Forall readable rs ->
  existsb is_error rs = false /\ parse_infos rs = Return (omap reply_info rs).
Proof.
  induction 1 as [|r rs Hr Hrs [IH1 IH2]]; [split; reflexivity|].
  destruct r as [n| |raw|l|l|]; cbn [readable] in Hr; try contradiction.
  - split; assumption.
  - destruct Hr as [i Hi]. split; [assumption|].
    cbn [parse_infos omap list_omap reply_info].
    destruct raw as [|c raw]; [rewrite from_json_empty in Hi; discriminate|].
    cbn [is_empty_str]. rewrite Hi, IH2. reflexivity.
Qed.

Lemma omap_map {A B C} (f : B -> option C) (g : A -> B) (l : list A) :
  omap f (map g l) = omap (fun x => f (g x)) l.
Proof.
  induction l as [|x l IH]; [reflexivity|].
  cbn [map omap list_omap]. destruct (f (g x)); [f_equal|]; exact IH.
Qed.

(** When every snapshot that is there parses, the listing returns
    normally, with the snapshots of the fresh devices that have one. *)
Lemma active_devices_readable (ip : string) (cur : option Z) (secs : Z) (s : Store) :
  zset_or_free (lookup_key (redis__presence_prefix ip) s) ->
  (forall d e, d ∈ active_ids ip (current_time cur s) secs s ->
     lookup_key (redis__device_info_prefix ip d) s = Some e ->
     exists raw i, e_val e = VStr raw /\ DeviceInfo_from_json raw = Return i) ->
  (redis__active_devices_for_client_ip ip cur secs s).2
  = Return (omap (snapshot_of ip s) (active_ids ip (current_time cur s) secs s)).
Proof.
  intros Hfree Hsnap.
  destruct (active_devices_effect ip cur secs s Hfree) as (s2 & -> & _). cbn [snd].
  destruct (parse_infos_readable
              (snapshot_replies ip (active_ids ip (current_time cur s) secs s) s)) as [-> ->].
  - unfold snapshot_replies. apply Forall_forall. intros r Hr.
    apply list_elem_of_fmap in Hr as (d & -> & Hd). unfold get_reply.
    destruct (lookup_key (redis__device_info_prefix ip d) s) as [e|] eqn:E; [|exact I].
    destruct (Hsnap d e Hd E) as (raw & i & Hraw & Hi).
    destruct e as [v dl]. cbn in Hraw. subst v. now exists i.
  - unfold snapshot_replies, snapshot_of. f_equal. apply omap_map.
Qed.

(** C7: a device with a fresh presence score and no snapshot contributes
    nothing and raises nothing; the result lists the snapshots of the
    fresh devices that have one. *)
Theorem active_devices_skip_missing_snapshot (ip : string) (now secs : Z) (s : Store) :
  zset_or_free (lookup_key (redis__presence_prefix ip) s) ->
  (forall d e, d ∈ active_ids ip now secs s ->
     lookup_key (redis__device_info_prefix ip d) s = Some e ->
     exists raw i, e_val e = VStr raw /\ DeviceInfo_from_json raw = Return i) ->
  (redis__active_devices_for_client_ip ip (Some now) secs s).2
  = Return (omap (snapshot_of ip s) (active_ids ip now secs s)) /\
  (forall d, d ∈ active_ids ip now secs s ->
     lookup_key (redis__device_info_prefix ip d) s = None -> snapshot_of ip s d = None).
Proof.
  intros Hfree Hsnap. split.
  - now apply (active_devices_readable ip (Some now) secs s).
  - intros d _ Hnone. unfold snapshot_of, get_reply. now rewrite Hnone.
Qed.

Lemma active_devices_skip_missing_snapshot_witness :
  (redis__active_devices_for_client_ip ipA (Some 100) 10 store_with_lost_snapshot).2
  = Return (omap (snapshot_of ipA store_with_lost_snapshot)
              (active_ids ipA 100 10 store_with_lost_snapshot)) /\
  (forall d, d ∈ active_ids ipA 100 10 store_with_lost_snapshot ->
     lookup_key (redis__device_info_prefix ipA d) store_with_lost_snapshot = None ->
     snapshot_of ipA store_with_lost_snapshot d = None).
Proof.
  apply (active_devices_skip_missing_snapshot ipA 100 10 store_with_lost_snapshot).
  - vm_compute. exact I.
  - intros d e Hd. vm_compute in Hd.
    apply elem_of_cons in Hd as [->|Hd]; [|apply elem_of_cons in Hd as [->|Hd]].
    + assert (lookup_key (redis__device_info_prefix ipA idA) store_with_lost_snapshot
              = Some (snapshot_entry (DeviceInfo_to_json infoA) (Some 10))) as Hl
        by (vm_compute; reflexivity).
      intros He. pose proof (eq_trans (eq_sym He) Hl) as [= ->].
      exists (DeviceInfo_to_json infoA), infoA.
      split; [reflexivity | vm_compute; reflexivity].
    + assert (lookup_key (redis__device_info_prefix ipA idB) store_with_lost_snapshot = None)
        as Hl by (vm_compute; reflexivity).
      intros He. pose proof (eq_trans (eq_sym He) Hl) as [=].
    + now apply elem_of_nil in Hd.
Defined.

Lemma snapshots_ok_empty (now : Z) : snapshots_ok (empty_store now).
Proof. split; intros *; cbn; rewrite ?lookup_empty; discriminate || (intros; discriminate). Qed.

Lemma snapshots_ok_presence_free (s : Store) (ip : string) :
  snapshots_ok s -> zset_or_free (lookup_key (redis__presence_prefix ip) s).
Proof.
  intros [Hp _]. destruct (lookup_key _ s) as [e|] eqn:E; [|exact I].
  apply lookup_key_alive in E as [E _]. destruct (Hp ip e E) as (z & Hz & _).
  destruct e as [v dl]. cbn in Hz. now subst v.
Qed.

Lemma snapshots_ok_members (s : Store) (ip d : string) (sc : Z) :
  snapshots_ok s -> zset_of (lookup_key (redis__presence_prefix ip) s) !! d = Some sc ->
  key_safe d.
Proof.
  intros [Hp _] Hd. destruct (lookup_key _ s) as [e|] eqn:E;
    [|cbn in Hd; rewrite lookup_empty in Hd; discriminate].
  apply lookup_key_alive in E as [E _]. destruct (Hp ip e E) as (z & Hz & Hsafe).
  destruct e as [v dl]. cbn in Hz. subst v. cbn in Hd. eauto.
Qed.

(** Keys that only lose entries keep the registry well formed. *)
Lemma snapshots_ok_shrink (s s' : Store) :
  (forall k, db s' !! k = db s !! k \/ db s' !! k = None) -> snapshots_ok s -> snapshots_ok s'.
Proof.
  intros Hsub [Hp Hi]. split.
  - intros ip e He. destruct (Hsub (redis__presence_prefix ip)) as [E|E];
      rewrite E in He; [eauto | discriminate].
  - intros ip d e Hd He. destruct (Hsub (redis__device_info_prefix ip d)) as [E|E];
      rewrite E in He; [eauto | discriminate].
Qed.

Lemma db_put_zset_eq (k : string) (z : gmap string Z) (dl : option Z) (s : Store) :
  db (put_zset k z dl s) !! k = if decide (z = ∅) then None else Some (queue_entry z dl).
Proof.
  unfold put_zset. destruct (decide (z = ∅)); cbn;
    [apply lookup_delete_eq | apply lookup_insert_eq].
Qed.

Lemma db_put_zset_ne (k k' : string) (z : gmap string Z) (dl : option Z) (s : Store) :
  k <> k' -> db (put_zset k z dl s) !! k' = db s !! k'.
Proof.
  intros H. unfold put_zset. destruct (decide (z = ∅)); cbn;
    [now apply lookup_delete_ne | now apply lookup_insert_ne].
Qed.

Lemma lookup_key_pruned_presence_eq (ip : string) (t secs : Z) (s : Store) :
  lookup_key (redis__presence_prefix ip) (pruned_presence ip t secs s)
  = db (pruned_presence ip t secs s) !! redis__presence_prefix ip.
Proof.
  unfold lookup_key, pruned_presence.
  assert (clock (put_zset (redis__presence_prefix ip)
                   (unexpired t secs (zset_of (lookup_key (redis__presence_prefix ip) s)))
                   (deadline_of (lookup_key (redis__presence_prefix ip) s)) s) = clock s) as ->
    by (unfold put_zset; now destruct (decide _)).
  rewrite db_put_zset_eq.
  destruct (lookup_key (redis__presence_prefix ip) s) as [[v dl]|] eqn:E.
  - apply lookup_key_alive in E as [_ Halive]. cbn [deadline_of e_deadline].
    destruct (decide _); [reflexivity|]. unfold queue_entry.
    assert (expired (clock s) {| e_val := VZSet (unexpired t secs (zset_of (Some {| e_val := v; e_deadline := dl |}))); e_deadline := dl |} = false)
      as -> by exact Halive.
    reflexivity.
  - cbn [zset_of]. unfold unexpired. rewrite map_filter_empty.
    now rewrite decide_True by reflexivity.
Qed.

(** The store after [redis__active_devices_for_client_ip]: the presence
    set is pruned, other keys are as before or removed. *)
Lemma step_list_db (ip : string) (cur : option Z) (secs : Z) (s : Store) :
  let k := redis__presence_prefix ip in
  let s' := step (ListActive ip cur secs) s in
  zset_or_free (lookup_key k s) ->
  clock s' = clock s /\
  db s' !! k = db (pruned_presence ip (current_time cur s) secs s) !! k /\
  (forall key, key <> k ->
     db s' !! key = db s !! key \/ (db s' !! key = None /\ lookup_key key s = None)).
Proof.
  intros k s' Hfree. subst k s'. cbn [step].
  destruct (active_devices_effect ip cur secs s Hfree) as (s2 & -> & [Hc Hp]).
  cbn [fst]. split; [|split].
  - rewrite Hc. unfold pruned_presence, put_zset. now destruct (decide _).
  - destruct (Hp (redis__presence_prefix ip)) as [E|[E1 E2]]; [exact E|].
    rewrite lookup_key_pruned_presence_eq in E2. congruence.
  - intros key Hkey. destruct (Hp key) as [E|[E1 E2]]; [left | right].
    + rewrite E. unfold pruned_presence. apply db_put_zset_ne. congruence.
    + split; [exact E1|]. now rewrite lookup_key_pruned_presence in E2.
Qed.

Lemma step_update_db (ip d : string) (i : DeviceInfo) (cur : option Z) (secs : Z) (s : Store) :
  let k := redis__presence_prefix ip in
  let ik := redis__device_info_prefix ip d in
  0 < secs -> zset_or_free (lookup_key k s) ->
  step (UpdatePresence ip d i cur secs) s
  = {| db := <[ik := snapshot_entry (DeviceInfo_to_json i) (Some (clock s + secs))]>
               (<[k := queue_entry (<[d := current_time cur s]> (zset_of (lookup_key k s)))
                         (Some (clock s + secs))]> (db s));
       clock := clock s |}.
Proof. intros k ik Hs Hf. cbn [step]. now rewrite update_presence_effect. Qed.

Lemma step_snapshots_ok (c : call) (s : Store) :
  proper c -> snapshots_ok s -> snapshots_ok (step c s).
Proof.
  intros Hc Hok. destruct c as [ip d i cur secs|ip cur secs|ip d m cur secs|ip d n cur secs|dt].
  - destruct Hc as (Hd & Hi & Hid & Hsecs).
    rewrite step_update_db by (try apply snapshots_ok_presence_free; assumption).
    pose proof (snapshots_ok_members s ip) as Hmem. destruct Hok as [Hp Hs]. split.
    + intros ip' e. cbn [db].
      rewrite lookup_insert_ne by (intros E; symmetry in E; revert E;
                                   now apply presence_ne_device_info).
      destruct (decide (redis__presence_prefix ip = redis__presence_prefix ip')) as [E|E].
      * rewrite <- E, lookup_insert_eq. intros [= <-]. eexists. split; [reflexivity|].
        intros d' sc Hd'. destruct (decide (d = d')) as [<-|Hne]; [exact Hd|].
        rewrite lookup_insert_ne in Hd' by exact Hne. eapply Hmem; eauto. now split.
      * rewrite lookup_insert_ne by exact E. apply Hp.
    + intros ip' d' e Hd'. cbn [db].
      destruct (decide (redis__device_info_prefix ip d = redis__device_info_prefix ip' d'))
        as [E|E].
      * rewrite <- E, lookup_insert_eq. intros [= <-].
        apply device_info_inj in E as [_ <-]; [|assumption..].
        exists i. split; [reflexivity | split; assumption].
      * rewrite lookup_insert_ne by exact E.
        rewrite lookup_insert_ne by now apply presence_ne_device_info.
        now apply Hs.
  - pose proof (snapshots_ok_presence_free s ip Hok) as Hfree.
    destruct (step_list_db ip cur secs s Hfree) as (_ & Hk & Hother).
    pose proof (snapshots_ok_members s ip) as Hmem. pose proof Hok as [Hp Hs]. split.
    + intros ip' e He.
      destruct (decide (redis__presence_prefix ip' = redis__presence_prefix ip)) as [E|E].
      * rewrite E, Hk in He. unfold pruned_presence in He. rewrite db_put_zset_eq in He.
        destruct (decide _); [discriminate|]. injection He as <-.
        eexists. split; [reflexivity|]. intros d sc Hd.
        apply map_lookup_filter_Some in Hd as [Hd _]. eapply Hmem; eauto.
      * destruct (Hother _ E) as [E'|[E' _]]; rewrite E' in He; [eauto | discriminate].
    + intros ip' d e Hd He.
      destruct (Hother (redis__device_info_prefix ip' d)) as [E'|[E' _]].
      * intros E. symmetry in E. revert E. now apply presence_ne_device_info.
      * rewrite E' in He. eauto.
      * rewrite E' in He. discriminate.
  - cbn [proper] in Hc. cbn [step]. destruct Hok as [Hp Hs]. split.
    + intros ip' e. rewrite push_message_frame by now apply presence_ne_message_queue.
      apply Hp.
    + intros ip' d' e Hd'.
      rewrite push_message_frame by now apply device_info_ne_message_queue.
      now apply Hs.
  - cbn [proper] in Hc. cbn [step]. destruct Hok as [Hp Hs]. split.
    + intros ip' e. rewrite pull_messages_frame by now apply presence_ne_message_queue.
      apply Hp.
    + intros ip' d' e Hd'.
      rewrite pull_messages_frame by now apply device_info_ne_message_queue.
      now apply Hs.
  - exact Hok.
Qed.

Lemma run_snapshots_ok (cs : list call) (s : Store) :
  Forall proper cs -> snapshots_ok s -> snapshots_ok (run cs s).
Proof.
  intros Hcs. revert s. induction Hcs as [|c cs Hc Hcs IH]; intros s Hok; [exact Hok|].
  cbn [run fold_left]. apply IH. now apply step_snapshots_ok.
Qed.

(** *** The snapshot of the latest call *)

Lemma step_info_key (c : call) (s : Store) (ip d : string) :
  proper c -> key_safe d -> snapshots_ok s -> ~ updates ip d c ->
  db (step c s) !! redis__device_info_prefix ip d = db s !! redis__device_info_prefix ip d \/
  (db (step c s) !! redis__device_info_prefix ip d = None /\
   lookup_key (redis__device_info_prefix ip d) s = None).
Proof.
  intros Hc Hd Hok Hnot.
  destruct c as [ip' d' i cur secs|ip' cur secs|ip' d' m cur secs|ip' d' n cur secs|dt].
  - destruct Hc as (Hd' & Hi & Hid & Hsecs). left.
    rewrite step_update_db by (try apply snapshots_ok_presence_free; assumption).
    cbn [db]. rewrite lookup_insert_ne.
    + apply lookup_insert_ne. now apply presence_ne_device_info.
    + intros E. apply device_info_inj in E; [|assumption..]. now apply Hnot.
  - apply (step_list_db ip' cur secs s (snapshots_ok_presence_free s ip' Hok)).
    intros E. symmetry in E. revert E. now apply presence_ne_device_info.
  - left. apply push_message_frame. now apply device_info_ne_message_queue.
  - left. apply pull_messages_frame. now apply device_info_ne_message_queue.
  - now left.
Qed.

Lemma run_holds_snapshot (cs : list call) (s : Store) (ip d : string) (i : DeviceInfo) :
  Forall proper cs -> Forall (fun c => ~ updates ip d c) cs -> key_safe d ->
  snapshots_ok s -> holds_snapshot ip d i s -> holds_snapshot ip d i (run cs s).
Proof.
  intros Hcs. revert s. induction Hcs as [|c cs Hc Hcs IH]; intros s Hnot Hd Hok Hl;
    [exact Hl|].
  apply Forall_cons in Hnot as [Hn Hnot]. cbn [run fold_left].
  apply IH; [exact Hnot | exact Hd | now apply step_snapshots_ok |].
  intros e He. destruct (step_info_key c s ip d Hc Hd Hok Hn) as [E|[E _]];
    rewrite E in He; [now apply Hl | discriminate].
Qed.

Lemma parse_infos_elem (rs : list reply) (l : list DeviceInfo) (x : DeviceInfo) :
  parse_infos rs = Return l -> x ∈ l ->
  exists raw, RBulk raw ∈ rs /\ DeviceInfo_from_json raw = Return x.
Proof.
  revert l. induction rs as [|r rs IH]; intros l; cbn [parse_infos].
  - intros [= <-] Hx. now apply elem_of_nil in Hx.
  - assert (forall l, parse_infos rs = Return l -> x ∈ l ->
              exists raw, RBulk raw ∈ r :: rs /\ DeviceInfo_from_json raw = Return x) as IH'.
    { intros l' Hl' Hx. destruct (IH l' Hl' Hx) as (raw & Hin & Hraw).
      exists raw. split; [now right | exact Hraw]. }
    destruct r as [n| |raw|ms|ps|]; try (now apply IH').
    destruct (is_empty_str raw); [now apply IH'|].
    destruct (DeviceInfo_from_json raw) as [i|e] eqn:Ei; [|discriminate].
    cbn [bind]. destruct (parse_infos rs) as [l'|e]; [|discriminate].
    cbn [bind]. intros [= <-] Hx. apply elem_of_cons in Hx as [->|Hx].
    + exists raw. split; [left | exact Ei].
    + now apply (IH' l').
Qed.

(** Where an entry of the result comes from: a fresh member of the
    presence set and the snapshot stored under its key. *)
Lemma active_devices_elem (ip : string) (cur : option Z) (secs : Z) (s : Store)
    (l : list DeviceInfo) (x : DeviceInfo) :
  zset_or_free (lookup_key (redis__presence_prefix ip) s) ->
  (redis__active_devices_for_client_ip ip cur secs s).2 = Return l -> x ∈ l ->
  exists d sc raw dl,
    zset_of (lookup_key (redis__presence_prefix ip) s) !! d = Some sc /\
    current_time cur s - secs < sc /\
    lookup_key (redis__device_info_prefix ip d) s = Some (snapshot_entry raw dl) /\
    DeviceInfo_from_json raw = Return x.
Proof.
  intros Hfree Hret Hx.
  destruct (active_devices_effect ip cur secs s Hfree) as (s2 & E & _).
  rewrite E in Hret. cbn [snd] in Hret.
  destruct (existsb is_error _); [discriminate|].
  destruct (parse_infos_elem _ _ _ Hret Hx) as (raw & Hin & Hraw).
  unfold snapshot_replies in Hin. apply list_elem_of_fmap in Hin as (d & Hd & Hin).
  unfold active_ids in Hin. apply list_elem_of_fmap in Hin as ([d' sc] & -> & Hin).
  apply elem_of_zrange, map_lookup_filter_Some in Hin as [Hz Hsc]. cbn [fst snd] in *.
  unfold get_reply in Hd.
  destruct (lookup_key (redis__device_info_prefix ip d') s) as [[[v|z] dl]|] eqn:El;
    try discriminate. injection Hd as ->.
  exists d', sc, v, dl. repeat split; assumption.
Qed.

Lemma DeviceInfo_to_json_inj (i1 i2 : DeviceInfo) :
  valid_info i1 -> valid_info i2 ->
  DeviceInfo_to_json i1 = DeviceInfo_to_json i2 -> i1 = i2.
Proof.
  intros H1 H2 E. apply DeviceInfo_round_trip in H1, H2.
  rewrite E in H1. congruence.
Qed.

(** C5, as amended: an entry of the result is the snapshot supplied by the
    latest [updatePresence] call for its device, in call order, whatever
    the scores of the calls were. *)
Theorem active_devices_latest_snapshot
    (ip d : string) (i : DeviceInfo) (cur : option Z) (secs : Z) (cs : list call) (s0 : Store)
    (cur' : option Z) (secs' : Z) (l : list DeviceInfo) :
  snapshots_ok s0 ->
  proper (UpdatePresence ip d i cur secs) ->
  Forall proper cs ->
  Forall (fun c => ~ updates ip d c) cs ->
  (redis__active_devices_for_client_ip ip cur' secs'
     (run cs (step (UpdatePresence ip d i cur secs) s0))).2 = Return l ->
  Forall (fun x => device_id x = d -> x = i) l.
Proof.
  intros Hok0 Hup Hcs Hnot Hret. apply Forall_forall. intros x Hx Hid.
  pose proof Hup as (Hd & Hi & _ & Hsecs).
  set (s1 := step (UpdatePresence ip d i cur secs) s0) in *.
  assert (snapshots_ok s1) as Hok1 by now apply step_snapshots_ok.
  assert (holds_snapshot ip d i s1) as Hl1.
  { subst s1. rewrite step_update_db by (try apply snapshots_ok_presence_free; assumption).
    intros e. cbn [db]. rewrite lookup_insert_eq. now intros [= <-]. }
  set (s := run cs s1) in *.
  assert (snapshots_ok s) as Hok by now apply run_snapshots_ok.
  assert (holds_snapshot ip d i s) as Hl by now apply run_holds_snapshot.
  destruct (active_devices_elem ip cur' secs' s l x (snapshots_ok_presence_free s ip Hok)
              Hret Hx) as (d' & sc & raw & dl & Hmem & _ & Hkey & Hraw).
  apply lookup_key_alive in Hkey as [Hkey _].
  assert (key_safe d') as Hd' by (eapply snapshots_ok_members; eassumption).
  destruct Hok as [_ Hsnap].
  destruct (Hsnap ip d' _ Hd' Hkey) as (i' & Hv & Hi' & Hid').
  cbn [e_val snapshot_entry] in Hv. injection Hv as ->.
  rewrite DeviceInfo_round_trip in Hraw by assumption. injection Hraw as ->.
  assert (d' = d) as -> by congruence.
  specialize (Hl _ Hkey). cbn [e_val snapshot_entry] in Hl.
  apply DeviceInfo_to_json_inj; [assumption.. | congruence].
Qed.

Lemma idB_key_safe : key_safe idB.
Proof. split; [reflexivity | discriminate]. Qed.

Lemma infoB_valid : valid_info infoB.
Proof. valid_value. Qed.

Lemma active_devices_latest_snapshot_witness :
  (redis__active_devices_for_client_ip ipA (Some 101) 10
     (run history_after_A (step (UpdatePresence ipA idA infoA (Some 100) 10) (empty_store 0)))).2
  = Return [infoA] /\
  Forall (fun x => device_id x = idA -> x = infoA) [infoA].
Proof.
  assert ((redis__active_devices_for_client_ip ipA (Some 101) 10
             (run history_after_A
                (step (UpdatePresence ipA idA infoA (Some 100) 10) (empty_store 0)))).2
          = Return [infoA]) as Hret by (vm_compute; reflexivity).
  split; [exact Hret|].
  apply (active_devices_latest_snapshot ipA idA infoA (Some 100) 10 history_after_A
           (empty_store 0) (Some 101) 10 [infoA]).
  - apply snapshots_ok_empty.
  - repeat split; first [ reflexivity | discriminate | lia ].
  - repeat constructor; first [ reflexivity | discriminate | lia ].
  - repeat (apply Forall_cons; split); try apply Forall_nil_2; cbn; try tauto.
    intros [_ H]; discriminate H.
  - exact Hret.
Defined.

(** C5, as stated, fails: the call with the highest score (100) supplied
    [infoA], the result holds the snapshot of the later call, whose score
    is 95. *)
Lemma latest_call_beats_highest_score :
  let s := (redis__update_presence_for_device ipA idA infoA_renamed (Some 95) 10
              (redis__update_presence_for_device ipA idA infoA (Some 100) 10
                 (empty_store 0)).1).1 in
  (redis__active_devices_for_client_ip ipA (Some 96) 10 s).2 = Return [infoA_renamed] /\
  infoA_renamed <> infoA /\ 95 < 100.
Proof. split; [vm_compute; reflexivity | split; [discriminate | lia]]. Qed.

(** *** Freshness of a presence entry *)

Lemma clock_exec_command (c : command) (s : Store) : clock (exec_command c s).1 = clock s.
Proof.
  destruct c; cbn [exec_command];
    repeat match goal with
    | |- context [match lookup_key ?key s with _ => _ end] =>
        destruct (lookup_key key s) as [[[?|?] ?]|]
    | |- context [if ?b then _ else _] => destruct b
    end;
    unfold put_zset; repeat case_decide; reflexivity.
Qed.

Lemma clock_execute (cs : list command) (s : Store) : clock (execute cs s).1 = clock s.
Proof.
  unfold execute. assert (clock (exec_all cs s).1 = clock s) as H.
  { revert s. induction cs as [|c cs IH]; intros s; [reflexivity|].
    cbn [exec_all]. pose proof (clock_exec_command c s) as Hc.
    destruct (exec_command c s) as [s1 r]. specialize (IH s1).
    destruct (exec_all cs s1) as [s2 rs]. cbn [fst] in *. congruence. }
  now destruct (exec_all cs s).
Qed.

Lemma clock_pull_messages (ip d : string) (n : Z) (cur : option Z) (secs : Z) (s : Store) :
  clock (redis__pull_messages_for_device ip d n cur secs s).1 = clock s.
Proof.
  unfold redis__pull_messages_for_device.
  match goal with |- context [execute ?cs s] =>
    pose proof (clock_execute cs s) as Hc; destruct (execute cs s) end.
  exact Hc.
Qed.


Lemma lookup_key_deadline (k : string) (s : Store) (v : value) (dl : Z) :
  db s !! k = Some {| e_val := v; e_deadline := Some dl |} -> clock s <= dl ->
  lookup_key k s = Some {| e_val := v; e_deadline := Some dl |}.
Proof.
  intros Hk Hle. apply lookup_key_db; [exact Hk|]. cbn. apply Z.ltb_ge. lia.
Qed.

Lemma zset_of_lookup_key (k d : string) (s : Store) (sc : Z) :
  zset_of (lookup_key k s) !! d = Some sc ->
  exists z dl, db s !! k = Some (queue_entry z dl) /\ z !! d = Some sc.
Proof.
  intros Hz. destruct (lookup_key k s) as [[[v|z] dl]|] eqn:E;
    try (cbn in Hz; rewrite lookup_empty in Hz; discriminate).
  apply lookup_key_alive in E as [E _]. now exists z, dl.
Qed.









Lemma active_ids_elem (ip d : string) (t secs : Z) (s : Store) :
  d ∈ active_ids ip t secs s <->
  exists sc, zset_of (lookup_key (redis__presence_prefix ip) s) !! d = Some sc /\ t - secs < sc.
Proof.
  unfold active_ids. rewrite list_elem_of_fmap. split.
  - intros ([d' sc] & -> & Hin). apply elem_of_zrange, map_lookup_filter_Some in Hin.
    now exists sc.
  - intros (sc & Hz & Hsc). exists (d, sc). split; [reflexivity|].
    apply elem_of_zrange, map_lookup_filter_Some. now split.
Qed.

Lemma snapshots_ok_readable (ip : string) (cur : option Z) (secs : Z) (s : Store) :
  snapshots_ok s ->
  (redis__active_devices_for_client_ip ip cur secs s).2
  = Return (omap (snapshot_of ip s) (active_ids ip (current_time cur s) secs s)).
Proof.
  intros Hok. apply active_devices_readable; [now apply snapshots_ok_presence_free|].
  intros d e Hd He. apply active_ids_elem in Hd as (sc & Hz & _).
  assert (key_safe d) as Hsafe by (eapply snapshots_ok_members; eassumption).
  apply lookup_key_alive in He as [He _]. destruct Hok as [_ Hs].
  destruct (Hs ip d e Hsafe He) as (i & Hv & Hi & _).
  exists (DeviceInfo_to_json i), i. split; [exact Hv | now apply DeviceInfo_round_trip].
Qed.







(** * Further properties of the module *)

(** ** What the decoders hand out *)

Lemma bind_Return {A B} (x : outcome A) (f : A -> outcome B) (b : B) :
  bind x f = Return b -> exists a, x = Return a /\ f a = Return b.
Proof. destruct x as [a|e]; cbn; [eauto | discriminate]. Qed.

Lemma lstrip_head (s : string) (c : ascii) (r : string) :
  lstrip s = String c r -> py_isspace c = false.
Proof.
  induction s as [|a s IH]; cbn [lstrip]; [discriminate|].
  destruct (py_isspace a) eqn:Ha; [exact IH|]. intros [= <- _]. exact Ha.
Qed.

Lemma rstrip_head (c : ascii) (s : string) :
  py_isspace c = false -> exists r, rstrip (String c s) = String c r.
Proof.
  intros Hc. cbn [rstrip]. destruct (rstrip s); [rewrite Hc|]; eauto.
Qed.

Lemma rstrip_idem (s : string) : rstrip (rstrip s) = rstrip s.
Proof.
  induction s as [|c s IH]; [reflexivity|]. cbn [rstrip].
  destruct (rstrip s) as [|a r] eqn:E.
  - destruct (py_isspace c) eqn:Hc; [reflexivity|]. cbn [rstrip]. now rewrite Hc.
  - change (rstrip (String c (String a r)))
      with (match rstrip (String a r) with
            | EmptyString => if py_isspace c then EmptyString else String c EmptyString
            | r' => String c r'
            end).
    now rewrite IH.
Qed.

Lemma strip_head (s : string) (c : ascii) (r : string) :
  strip s = String c r -> py_isspace c = false.
Proof.
  unfold strip. destruct (lstrip s) as [|a t] eqn:E; [discriminate|].
  apply lstrip_head in E. destruct (rstrip_head a t E) as [r' ->].
  now intros [= <- _].
Qed.

Lemma strip_idem (s : string) : strip (strip s) = strip s.
Proof.
  destruct (strip s) as [|c r] eqn:E; [reflexivity|].
  pose proof (strip_head _ _ _ E) as Hc.
  unfold strip in *. cbn [lstrip]. rewrite Hc, <- E. apply rstrip_idem.
Qed.

Lemma strip_str_of_int (z : Z) : strip (str_of_int z) <> EmptyString.
Proof.
  destruct (str_of_int_head z EmptyString) as (c & r & E & Hc).
  rewrite str_app_nil_r in E. rewrite E.
  assert (py_isspace c = false) as Hs.
  { apply orb_true_iff in Hc as [Hc|Hc].
    - apply Ascii.eqb_eq in Hc. now subst.
    - unfold is_digit in Hc. apply andb_true_iff in Hc as [H1 H2].
      apply N.leb_le in H1, H2. unfold py_isspace.
      repeat match goal with
             | |- context [(?a <=? ?b)%N] => destruct (N.leb_spec a b)
             | |- context [(?a =? ?b)%N] => destruct (N.eqb_spec a b)
             end; try reflexivity; lia. }
  unfold strip. cbn [lstrip]. rewrite Hs.
  destruct (rstrip_head c r Hs) as [r' ->]. discriminate.
Qed.

(** A value that a [CharField] returns satisfies the bounds of the field;
    the blank string passes by the validators, so a field that allows it
    must have no minimum length for this to hold. *)
Lemma CharField_sound (f : CharField) (data : option json) (s : string) :
  (allow_blank f = true -> min_length f = None) ->
  CharField_run_validation f data = Return s -> field_accepts f s = true.
Proof.
  intros Hblank. unfold field_accepts.
  assert (forall x, x <> EmptyString -> run_validators f (strip x) = Return s ->
            strip x <> EmptyString ->
            String.eqb (strip s) s && (allow_blank f || negb (is_empty_str s)) &&
            length_ok f s && negb (str_mem "000" s) = true) as Hrun.
  { intros x _ H Hne. unfold run_validators in H.
    destruct (length_ok f (strip x) && negb (str_mem "000" (strip x))) eqn:E; [|discriminate].
    injection H as <-. rewrite strip_idem, String.eqb_refl.
    apply andb_true_iff in E as [-> ->].
    destruct (strip x); [congruence|]. cbn. now rewrite orb_true_r. }
  destruct data as [[| |z|x| |]|]; cbn [CharField_run_validation]; try discriminate.
  - intros H. apply (Hrun (str_of_int z)); [|exact H|apply strip_str_of_int].
    intros E. apply (strip_str_of_int z). now rewrite E.
  - destruct (strip x) eqn:E; cbn [is_empty_str].
    + destruct (allow_blank f) eqn:Hb; [|discriminate]. intros [= <-].
      unfold length_ok. rewrite (Hblank eq_refl). cbn.
      now destruct (max_length f).
    + intros H. rewrite <- E in *. apply (Hrun x); [|exact H|congruence].
      intros ->. discriminate.
Qed.

Lemma field_accepts_length (f : CharField) (s : string) :
  field_accepts f s = true ->
  (forall n, max_length f = Some n -> (String.length s <= n)%nat) /\
  (forall n, min_length f = Some n -> (n <= String.length s)%nat).
Proof.
  unfold field_accepts, length_ok. rewrite !andb_true_iff. intros [[_ [Ha Hb]] _].
  split; intros n E; rewrite E in *; now apply Nat.leb_le.
Qed.

Lemma field_accepts_nonblank (f : CharField) (s : string) :
  allow_blank f = false -> field_accepts f s = true -> s <> EmptyString.
Proof.
  unfold field_accepts. rewrite !andb_true_iff. intros -> [[[_ H] _] _] ->. discriminate.
Qed.

Lemma DeviceInfo_from_json_valid (raw : string) (i : DeviceInfo) :
  DeviceInfo_from_json raw = Return i -> valid_info i.
Proof.
  unfold DeviceInfo_from_json. destruct (json_loads raw) as [j|]; [|discriminate].
  destruct j as [| | | | |d]; cbn [DeviceInfo_from_dict]; try discriminate.
  intros H.
  repeat (apply bind_Return in H as (? & ? & H)).
  injection H as <-. unfold valid_info. cbn. rewrite !or_empty_id.
  repeat split; eapply CharField_sound; try eassumption; cbn; congruence.
Qed.

(** X1: whatever [DeviceInfo.from_json] returns went through the
    serializer: the device identifier has exactly 32 characters, the host
    name is not blank, and every field is trimmed, free of NUL and within
    its length bound. *)
Theorem DeviceInfo_from_json_validated (raw : string) (i : DeviceInfo) :
  DeviceInfo_from_json raw = Return i ->
  valid_info i /\ String.length (device_id i) = 32%nat /\ hostname i <> EmptyString /\
  Forall (fun s => (String.length s <= 253)%nat)
    [hostname i; os i; arch i; rpi_model i; octopi_version i; printerprofile i].
Proof.
  intros H. apply DeviceInfo_from_json_valid in H.
  split; [exact H|]. destruct H as (H1 & H2 & H3 & H4 & H5 & H6 & H7).
  split; [|split].
  - apply field_accepts_length in H1 as [Ha Hb].
    specialize (Ha 32%nat eq_refl). specialize (Hb 32%nat eq_refl). lia.
  - now apply (field_accepts_nonblank hostname_field).
  - repeat (apply Forall_cons; split); try apply Forall_nil_2;
      match goal with
      | |- (String.length ?s <= _)%nat =>
          match goal with
          | K : field_accepts _ s = true |- _ =>
              apply field_accepts_length in K as [K _]; exact (K 253%nat eq_refl)
          end
      end.
Qed.

Lemma DeviceInfo_from_json_validated_witness :
  valid_info infoA /\ String.length (device_id infoA) = 32%nat /\
  hostname infoA <> EmptyString /\
  Forall (fun s => (String.length s <= 253)%nat)
    [hostname infoA; os infoA; arch infoA; rpi_model infoA; octopi_version infoA;
     printerprofile infoA].
Proof.
  apply (DeviceInfo_from_json_validated raw_padded infoA). vm_compute. reflexivity.
Defined.

(** X2: a [DeviceInfo] survives [to_json] followed by [from_json] exactly
    when its fields satisfy the serializer. *)
Theorem DeviceInfo_round_trip_exact (i : DeviceInfo) :
  DeviceInfo_from_json (DeviceInfo_to_json i) = Return i <-> valid_info i.
Proof.
  split.
  - apply DeviceInfo_from_json_valid.
  - apply DeviceInfo_round_trip.
Qed.

Lemma json_wf_obj (d : list (string * json)) :
  json_wf (JObj d) <-> NoDup (map fst d) /\ members_wf d.
Proof. reflexivity. Qed.

Lemma json_wf_arr (l : list json) : json_wf (JArr l) <-> items_wf l.
Proof. reflexivity. Qed.

Lemma dict_set_keys {A} (k : string) (v : A) (d : list (string * A)) :
  map fst (dict_set k v d) = if decide (k ∈ map fst d) then map fst d else map fst d ++ [k].
Proof.
  induction d as [|[k' v'] d IH]; [reflexivity|]. cbn [dict_set map fst].
  destruct (String.eqb_spec k k') as [->|Hne].
  - rewrite decide_True by left. reflexivity.
  - cbn [map fst]. rewrite IH. destruct (decide (k ∈ map fst d)) as [Hin|Hin].
    + rewrite decide_True by now right. reflexivity.
    + rewrite decide_False; [reflexivity|]. now apply not_elem_of_cons.
Qed.

Lemma dict_set_wf (k : string) (v : json) (d : list (string * json)) :
  json_wf v -> json_wf (JObj d) -> json_wf (JObj (dict_set k v d)).
Proof.
  intros Hv [Hnd Hd]. split.
  - rewrite dict_set_keys. destruct (decide (k ∈ map fst d)); [exact Hnd|].
    apply NoDup_app. repeat split; [exact Hnd | | apply NoDup_singleton].
    intros x Hx ->%list_elem_of_singleton. contradiction.
  - clear Hnd. induction d as [|[k' v'] d IH]; [now split|].
    destruct Hd as [Hv' Hd]. cbn [dict_set].
    destruct (String.eqb k k'); (split; [assumption|]); [exact Hd | exact (IH Hd)].
Qed.

Lemma py_dict_wf (pairs : list (string * json)) :
  members_wf pairs -> json_wf (JObj (py_dict pairs)).
Proof.
  unfold py_dict. assert (json_wf (JObj [])) as Hacc by (split; [constructor | exact I]).
  revert Hacc. generalize (@nil (string * json)) as acc.
  induction pairs as [|[k v] l IH]; intros acc Hacc Hl; [exact Hacc|].
  destruct Hl as [Hv Hl]. cbn [fold_left fst snd].
  apply IH; [|exact Hl]. now apply dict_set_wf.
Qed.

Lemma dict_get_wf (k : string) (d : list (string * json)) (v : json) :
  members_wf d -> dict_get k d = Some v -> json_wf v.
Proof.
  induction d as [|[k' v'] d IH]; [discriminate|]. intros [Hv Hd]. cbn [dict_get].
  destruct (String.eqb k k'); [now intros [= <-] | now apply IH].
Qed.

Lemma scan_number_wf (s : string) (j : json) (r : string) :
  scan_number s = Some (j, r) -> json_wf j.
Proof.
  unfold scan_number. intros H. repeat case_match; simplify_eq; exact I.
Qed.

(** Every document that the parser returns has objects with distinct
    keys. *)
Lemma parse_wf (n : nat) :
  (forall s j r, parse_value n s = Some (j, r) -> json_wf j) /\
  (forall s l r, parse_elems n s = Some (l, r) -> items_wf l) /\
  (forall s l r, parse_members n s = Some (l, r) -> members_wf l).
Proof.
  induction n as [|n (IHv & IHe & IHm)]; [repeat split; discriminate|].
  split; [|split]; intros s x r H.
  - cbn [parse_value] in H.
    repeat case_match; simplify_eq; try exact I;
      try (split; [constructor | exact I]).
    + apply json_wf_arr. eauto.
    + apply py_dict_wf. eauto.
    + eapply scan_number_wf. exact H.
  - cbn [parse_elems] in H.
    repeat case_match; simplify_eq; split; eauto. exact I.
  - cbn [parse_members] in H.
    repeat case_match; simplify_eq; split; cbn [snd]; eauto. exact I.
Qed.

Lemma json_loads_wf (raw : string) (j : json) : json_loads raw = Some j -> json_wf j.
Proof.
  unfold json_loads. intros H. repeat case_match; simplify_eq.
  eapply (proj1 (parse_wf _)); eassumption.
Qed.

Lemma DeviceMessage_from_json_valid (raw : string) (m : DeviceMessage) :
  DeviceMessage_from_json raw = Return m -> valid_message m.
Proof.
  unfold DeviceMessage_from_json. destruct (json_loads raw) as [j|] eqn:Hj; [|discriminate].
  apply json_loads_wf in Hj.
  destruct j as [| | | | |d]; cbn [DeviceMessage_from_dict]; try discriminate.
  intros H. apply json_wf_obj in Hj as [_ Hd].
  apply bind_Return in H as (v1 & H1 & H). apply bind_Return in H as (v2 & H2 & H).
  apply bind_Return in H as (v3 & H3 & H). injection H as <-.
  unfold valid_message. cbn [m_device_id m_type m_data].
  split; [|split]; try (eapply CharField_sound; [|eassumption]; cbn; congruence).
  unfold DictField_run_validation in H3.
  destruct (dict_get "data" d) as [[| | | | |dd]|] eqn:E; try discriminate.
  injection H3 as <-. pose proof (dict_get_wf _ _ _ Hd E) as Hdd.
  rewrite py_dict_nodup; [exact Hdd | apply Hdd].
Qed.



(** X4: a [DeviceMessage] survives [to_json] followed by [from_json]
    exactly when its identifier and type satisfy the serializer and no
    object of its data holds a key twice. *)
Theorem DeviceMessage_round_trip_exact (m : DeviceMessage) :
  DeviceMessage_from_json (DeviceMessage_to_json m) = Return m <-> valid_message m.
Proof.
  split.
  - apply DeviceMessage_from_json_valid.
  - apply DeviceMessage_round_trip.
Qed.

(** ** Rejected input *)

Lemma CharField_absent (f : CharField) (data : option json) (s : string) :
  data = None \/ data = Some JNull -> CharField_run_validation f data <> Return s.
Proof. intros [-> | ->]; discriminate. Qed.

Lemma CharField_raises (f : CharField) (data : option json) (e : exn) :
  CharField_run_validation f data = Raise e -> e = ValidationError.
Proof.
  destruct data as [[| |z|x| |]|]; cbn [CharField_run_validation]; unfold run_validators;
    intros H; repeat case_match; congruence.
Qed.

Lemma bind_Raise {A B} (x : outcome A) (f : A -> outcome B) (e : exn) :
  bind x f = Raise e -> x = Raise e \/ exists a, x = Return a /\ f a = Raise e.
Proof. destruct x as [a|e']; cbn; [eauto | intros [= ->]; now left]. Qed.

Lemma DeviceInfo_from_dict_raises (data : json) (e : exn) :
  DeviceInfo_from_dict data = Raise e -> e = ValidationError.
Proof.
  destruct data as [| | | | |d]; cbn [DeviceInfo_from_dict]; try congruence.
  intros H.
  repeat (apply bind_Raise in H as [H | (? & _ & H)]; [now apply CharField_raises in H|]).
  discriminate.
Qed.

Lemma DeviceMessage_from_dict_raises (data : json) (e : exn) :
  DeviceMessage_from_dict data = Raise e -> e = ValidationError.
Proof.
  destruct data as [| | | | |d]; cbn [DeviceMessage_from_dict]; try congruence.
  intros H.
  do 2 (apply bind_Raise in H as [H | (? & _ & H)]; [now apply CharField_raises in H|]).
  apply bind_Raise in H as [H | (? & _ & H)]; [|discriminate].
  unfold DictField_run_validation in H. repeat case_match; congruence.
Qed.

(** X5: every field of the two serializers is required and none may be
    null: a mapping that lacks one of the keys, or maps it to [None], is
    refused with a validation error, the fields that may be blank
    included. *)
Theorem from_dict_requires_fields (d : list (string * json)) (k : string) :
  dict_get k d = None \/ dict_get k d = Some JNull ->
  (k ∈ DeviceInfo_fields -> DeviceInfo_from_dict (JObj d) = Raise ValidationError) /\
  (k ∈ DeviceMessage_fields -> DeviceMessage_from_dict (JObj d) = Raise ValidationError).
Proof.
  intros Hk. split; intros Hin.
  - destruct (DeviceInfo_from_dict (JObj d)) as [i|e] eqn:E;
      [|now apply DeviceInfo_from_dict_raises in E; subst].
    exfalso. cbn [DeviceInfo_from_dict] in E.
    repeat (apply bind_Return in E as (? & ? & E)).
    unfold DeviceInfo_fields in Hin.
    repeat (apply elem_of_cons in Hin as [-> | Hin];
            [eapply CharField_absent; eassumption|]).
    now apply elem_of_nil in Hin.
  - destruct (DeviceMessage_from_dict (JObj d)) as [m|e] eqn:E;
      [|now apply DeviceMessage_from_dict_raises in E; subst].
    exfalso. cbn [DeviceMessage_from_dict] in E.
    repeat (apply bind_Return in E as (? & ? & E)).
    unfold DeviceMessage_fields in Hin.
    do 2 (apply elem_of_cons in Hin as [-> | Hin];
          [eapply CharField_absent; eassumption|]).
    apply elem_of_cons in Hin as [-> | Hin]; [|now apply elem_of_nil in Hin].
    unfold DictField_run_validation in *. destruct Hk as [Hk | Hk]; rewrite Hk in *; discriminate.
Qed.

Lemma from_dict_requires_fields_witness :
  ("device_id" ∈ DeviceInfo_fields ->
   DeviceInfo_from_dict (JObj [("hostname", JStr "octopi"); ("type", JStr "cmd")])
   = Raise ValidationError) /\
  ("device_id" ∈ DeviceMessage_fields ->
   DeviceMessage_from_dict (JObj [("hostname", JStr "octopi"); ("type", JStr "cmd")])
   = Raise ValidationError).
Proof.
  apply (from_dict_requires_fields _ "device_id"). left. reflexivity.
Defined.

(** ** Key names within one family *)

Lemma queue_inj (ip ip' d d' : string) :
  colon_free d -> colon_free d' ->
  redis__to_device_message_queue_prefix ip d = redis__to_device_message_queue_prefix ip' d' ->
  ip = ip' /\ d = d'.
Proof.
  intros Hd Hd'. rewrite !message_queue_form. intros E.
  apply split_last_colon in E as [E ->]; [| exact Hd | exact Hd'].
  split; [|reflexivity]. rewrite <- !str_app_assoc in E.
  apply (split_last_colon _ _ "messages_to" "messages_to") in E as [E _];
    [| reflexivity | reflexivity].
  now apply (inj (String.app _)) in E.
Qed.

Lemma snapshot_inj (ip ip' d d' : string) :
  colon_free d -> colon_free d' ->
  redis__device_info_prefix ip d = redis__device_info_prefix ip' d' -> ip = ip' /\ d = d'.
Proof.
  intros Hd Hd'. rewrite !device_info_form. intros E.
  apply split_last_colon in E as [E ->]; [| exact Hd | exact Hd'].
  split; [|reflexivity]. rewrite <- !str_app_assoc in E.
  apply (split_last_colon _ _ "device_info" "device_info") in E as [E _];
    [| reflexivity | reflexivity].
  now apply (inj (String.app _)) in E.
Qed.

(** X6: within each family a key names one client and one device: two
    client addresses never share a presence key, and for device
    identifiers without a colon two different pairs of client and device
    never share a snapshot key or a mailbox key. *)
Theorem key_names_injective (ip ip' d d' : string) :
  colon_free d -> colon_free d' ->
  (redis__presence_prefix ip = redis__presence_prefix ip' -> ip = ip') /\
  (redis__device_info_prefix ip d = redis__device_info_prefix ip' d' -> ip = ip' /\ d = d') /\
  (redis__to_device_message_queue_prefix ip d = redis__to_device_message_queue_prefix ip' d' ->
   ip = ip' /\ d = d').
Proof.
  intros Hd Hd'. split; [|split].
  - apply presence_inj.
  - now apply snapshot_inj.
  - now apply queue_inj.
Qed.

Lemma key_names_injective_witness :
  (redis__presence_prefix ipA = redis__presence_prefix "203.0.113.8" -> ipA = "203.0.113.8") /\
  (redis__device_info_prefix ipA idA = redis__device_info_prefix "203.0.113.8" idB ->
   ipA = "203.0.113.8" /\ idA = idB) /\
  (redis__to_device_message_queue_prefix ipA idA
   = redis__to_device_message_queue_prefix "203.0.113.8" idB ->
   ipA = "203.0.113.8" /\ idA = idB).
Proof.
  apply (key_names_injective ipA "203.0.113.8" idA idB); reflexivity.
Defined.

(** ** The mailbox as a list *)

Lemma StronglySorted_sublist {A} (R : relation A) (l k : list A) :
  StronglySorted R l -> k `sublist_of` l -> StronglySorted R k.
Proof.
  intros Hl Hk. revert Hl. induction Hk as [|x k l Hk IH|x k l Hk IH]; intros Hl.
  - constructor.
  - apply StronglySorted_inv in Hl as [Hl Hx]. constructor; [now apply IH|].
    apply Forall_forall. intros y Hy. rewrite Forall_forall in Hx. apply Hx.
    eapply sublist_subseteq; eassumption.
  - apply StronglySorted_inv in Hl as [Hl _]. now apply IH.
Qed.

Lemma zrange_filter (P : string * Z -> Prop) `{!forall p, Decision (P p)} (z : gmap string Z) :
  zrange (filter P z) = filter P (zrange z).
Proof.
  apply zrange_unique.
  - eapply StronglySorted_sublist; [apply zrange_sorted | apply sublist_filter].
  - apply NoDup_Permutation.
    + apply NoDup_filter. eapply NoDup_fmap_1. apply zrange_NoDup.
    + apply NoDup_map_to_list.
    + intros [m sc]. rewrite list_elem_of_filter, elem_of_zrange, elem_of_map_to_list.
      rewrite map_lookup_filter_Some. tauto.
Qed.

Lemma zremove_lookup (l : list (string * Z)) (z : gmap string Z) (m : string) :
  zremove l z !! m = if decide (m ∈ l.*1) then None else z !! m.
Proof.
  induction l as [|[k sc] l IH]; [reflexivity|]. cbn [zremove foldr fst fmap list_fmap].
  fold (zremove l z). destruct (decide (m = k)) as [->|Hne].
  - rewrite lookup_delete_eq. rewrite decide_True by left. reflexivity.
  - rewrite lookup_delete_ne by congruence. rewrite IH.
    destruct (decide (m ∈ l.*1)) as [Hin|Hin].
    + rewrite decide_True by now right. reflexivity.
    + rewrite decide_False; [reflexivity|]. now apply not_elem_of_cons.
Qed.

(** Popping the first [n] members leaves the others, in their order. *)
Lemma zrange_zremove_take (n : nat) (z : gmap string Z) :
  zrange (zremove (take n (zrange z)) z) = drop n (zrange z).
Proof.
  pose proof (zrange_NoDup z) as Hnd. pose proof (zrange_sorted z) as Hs.
  apply zrange_unique.
  - eapply StronglySorted_sublist; [exact Hs | apply sublist_drop].
  - apply NoDup_Permutation.
    + apply (sublist_NoDup _ (zrange z)); [|apply sublist_drop]. eapply NoDup_fmap_1. exact Hnd.
    + apply NoDup_map_to_list.
    + intros [m sc]. rewrite elem_of_map_to_list, zremove_lookup.
      rewrite <- (take_drop n (zrange z)) in Hnd. rewrite fmap_app in Hnd.
      apply NoDup_app in Hnd as (_ & Hdis & _).
      destruct (decide (m ∈ (take n (zrange z)).*1)) as [Hin|Hin].
      * split; [|discriminate]. intros Hd. exfalso. apply (Hdis m Hin).
        apply list_elem_of_fmap. exists (m, sc). split; [reflexivity | exact Hd].
      * rewrite <- elem_of_zrange. rewrite <- (take_drop n (zrange z)) at 2.
        rewrite elem_of_app. split; [tauto|]. intros [Ht|Hd]; [|exact Hd].
        exfalso. apply Hin. apply list_elem_of_fmap. exists (m, sc). split; [reflexivity | exact Ht].
Qed.

Lemma zset_of_string (o : option entry) : holds_string o = true -> zset_of o = ∅.
Proof. now destruct o as [[[v|z] dl]|]. Qed.

Lemma zset_of_nonempty (o : option entry) :
  zset_of o <> ∅ -> exists z dl, o = Some (queue_entry z dl).
Proof. destruct o as [[[v|z] dl]|]; cbn; try congruence. eauto. Qed.

(** What [redis__pull_messages_for_device] leaves in the mailbox. *)
Lemma mailbox_after_pull (ip d : string) (n : Z) (cur : option Z) (secs : Z) (s : Store) :
  mailbox ip d (redis__pull_messages_for_device ip d n cur secs s).1
  = drop (Z.to_nat n)
      (filter (fun p : string * Z => current_time cur s - secs < p.2) (mailbox ip d s)).
Proof.
  unfold mailbox.
  destruct (holds_string (lookup_key (redis__to_device_message_queue_prefix ip d) s)) eqn:Hstr.
  - rewrite pull_messages_on_string by assumption. cbn [fst].
    rewrite (zset_of_string _ Hstr). rewrite zrange_empty, filter_nil. now rewrite drop_nil.
  - rewrite pull_messages_effect by now apply holds_string_free.
    rewrite <- zrange_filter. fold (unexpired (current_time cur s) secs).
    rewrite <- zrange_zremove_take.
    set (k := redis__to_device_message_queue_prefix ip d).
    set (zf := unexpired (current_time cur s) secs (zset_of (lookup_key k s))).
    set (z' := zremove (take (Z.to_nat n) (zrange zf)) zf).
    cbn [fst]. f_equal. transitivity z'; [|reflexivity].
    destruct (decide (z' = ∅)) as [E|E].
    + rewrite E. unfold lookup_key. cbn [db]. now rewrite lookup_delete_eq.
    + assert (zset_of (lookup_key k s) <> ∅) as Hne.
      { intros H0. apply E. subst z' zf. rewrite H0. unfold unexpired.
        rewrite map_filter_empty. now rewrite zrange_empty, take_nil. }
      apply zset_of_nonempty in Hne as (z & dl & Hk). rewrite Hk. cbn [deadline_of].
      apply lookup_key_alive in Hk as [_ Hal].
      unfold lookup_key. cbn [db clock]. rewrite lookup_insert_eq.
      unfold expired in *. cbn [queue_entry e_deadline] in *.
      now rewrite Hal.
Qed.

(** X7: a pull with a count that is not negative takes the oldest
    [message_count] entries that are still within the window out of the
    mailbox and leaves the others in their order, whether or not it
    raises; what it returns normally are those entries decoded, and none
    of their payloads is in the mailbox afterwards. *)
Theorem pull_messages_takes_oldest (ip d : string) (n : Z) (cur : option Z) (secs : Z)
    (s : Store) :
  let within := filter (fun p : string * Z => current_time cur s - secs < p.2)
                  (mailbox ip d s) in
  let r := redis__pull_messages_for_device ip d n cur secs s in
  0 <= n ->
  mailbox ip d r.1 = drop (Z.to_nat n) within /\
  Forall (fun p => zscore (redis__to_device_message_queue_prefix ip d) p.1 r.1 = None)
    (take (Z.to_nat n) within) /\
  (forall msgs, r.2 = Return msgs ->
     Forall2 (fun p m => DeviceMessage_from_json p.1 = Return m)
       (take (Z.to_nat n) within) msgs).
Proof.
  intros within r _. pose proof (mailbox_after_pull ip d n cur secs s) as Hrest.
  fold within in Hrest. fold r in Hrest.
  assert (within = zrange (unexpired (current_time cur s) secs
            (zset_of (lookup_key (redis__to_device_message_queue_prefix ip d) s)))) as Hw.
  { subst within. unfold mailbox, unexpired. now rewrite zrange_filter. }
  split; [exact Hrest|]. split.
  - apply Forall_forall. intros [m sc] Hin. cbn [fst].
    destruct (zscore _ m r.1) as [sc'|] eqn:E; [|reflexivity]. exfalso.
    unfold zscore in E. apply elem_of_zrange in E. fold (mailbox ip d r.1) in E.
    rewrite Hrest in E.
    pose proof (zrange_NoDup (unexpired (current_time cur s) secs
      (zset_of (lookup_key (redis__to_device_message_queue_prefix ip d) s)))) as Hnd.
    rewrite <- Hw, <- (take_drop (Z.to_nat n) within), fmap_app in Hnd.
    apply NoDup_app in Hnd as (_ & Hdis & _). apply (Hdis m).
    + apply list_elem_of_fmap. now exists (m, sc).
    + apply list_elem_of_fmap. now exists (m, sc').
  - intros msgs Hr. rewrite Hw. now apply pull_messages_Return.
Qed.

Lemma pull_messages_takes_oldest_witness :
  let s := (redis__push_message_for_device ipA idA msgC (Some 1020) 60
              (redis__push_message_for_device ipA idA msgA (Some 1000) 60
                 (redis__push_message_for_device ipA idA msgB (Some 1010) 60
                    (empty_store 1000)).1).1).1 in
  let within := filter (fun p : string * Z => current_time (Some 1061) s - 60 < p.2)
                  (mailbox ipA idA s) in
  let r := redis__pull_messages_for_device ipA idA 1 (Some 1061) 60 s in
  mailbox ipA idA r.1 = drop (Z.to_nat 1) within /\
  Forall (fun p => zscore (redis__to_device_message_queue_prefix ipA idA) p.1 r.1 = None)
    (take (Z.to_nat 1) within) /\
  (forall msgs, r.2 = Return msgs ->
     Forall2 (fun p m => DeviceMessage_from_json p.1 = Return m)
       (take (Z.to_nat 1) within) msgs).
Proof.
  apply (pull_messages_takes_oldest ipA idA 1 (Some 1061) 60). lia.
Defined.

(** X8: a valid message pushed into an empty mailbox is what the next pull
    returns as long as less than the window has passed, and afterwards
    the pull returns nothing. *)
Theorem push_then_pull (ip d : string) (m : DeviceMessage) (W dt n : Z) (s : Store) :
  valid_message m -> 0 < W -> 0 <= dt -> 1 <= n ->
  lookup_key (redis__to_device_message_queue_prefix ip d) s = None ->
  let r := redis__push_message_for_device ip d m None W s in
  r.2 = Return tt /\
  (redis__pull_messages_for_device ip d n None W (advance dt r.1)).2
  = Return (if dt <? W then [m] else []).
Proof.
  intros Hm HW Hdt Hn Hfree r. subst r.
  rewrite push_message_effect by (rewrite ?Hfree; easy).
  rewrite Hfree. cbn [zset_of fst snd]. rewrite unexpired_empty, insert_empty.
  split; [reflexivity|].
  set (k := redis__to_device_message_queue_prefix ip d).
  set (raw := DeviceMessage_to_json m).
  set (e := queue_entry {[raw := current_time None s]} (Some (clock s + W))).
  set (s1 := advance dt _).
  assert (clock s1 = clock s + dt) as Hc by (subst s1; cbn; lia).
  assert (db s1 !! k = Some e) as Hdb by (subst s1; cbn; apply lookup_insert_eq).
  assert (zset_or_free (lookup_key k s1)) as Hz.
  { unfold lookup_key. rewrite Hdb. now destruct (expired _ e). }
  rewrite pull_messages_effect by exact Hz. cbn [snd]. fold k.
  assert (current_time None s1 = clock s + dt) as -> by (cbn; exact Hc).
  cbn [current_time] in e. unfold time_time in e.
  destruct (Z.ltb_spec dt W) as [Hlt|Hge].
  - assert (lookup_key k s1 = Some e) as ->.
    { apply lookup_key_db; [exact Hdb|]. unfold expired. cbn. apply Z.ltb_ge. lia. }
    cbn [zset_of e queue_entry]. rewrite unexpired_all.
    + rewrite zrange_singleton.
      destruct (Z.to_nat n) as [|n'] eqn:En; [lia|]. cbn [take parse_messages].
      subst raw. rewrite DeviceMessage_round_trip by assumption.
      cbn [bind]. now rewrite take_nil.
    + intros x sc [<- <-]%lookup_singleton_Some. lia.
  - assert (unexpired (clock s + dt) W (zset_of (lookup_key k s1)) = ∅) as ->.
    { unfold lookup_key. rewrite Hdb. destruct (expired (clock s1) e); cbn [zset_of].
      - apply unexpired_empty.
      - unfold unexpired. apply map_empty. intros x.
        apply map_lookup_filter_None. right. intros sc Hx.
        apply lookup_singleton_Some in Hx as [<- <-]. cbn. lia. }
    rewrite zrange_empty, take_nil. reflexivity.
Qed.

Lemma push_then_pull_witness :
  let r := redis__push_message_for_device ipA idA msgA None 60 (empty_store 1000) in
  r.2 = Return tt /\
  (redis__pull_messages_for_device ipA idA 3 None 60 (advance 59 r.1)).2
  = Return (if 59 <? 60 then [msgA] else []).
Proof.
  apply (push_then_pull ipA idA msgA 60 59 3 (empty_store 1000));
    first [ exact msgA_valid | reflexivity | lia ].
Defined.

(** ** Keys that are not there *)

Lemma pull_messages_absent (ip d : string) (n : Z) (cur : option Z) (secs : Z) (s : Store) :
  lookup_key (redis__to_device_message_queue_prefix ip d) s = None ->
  redis__pull_messages_for_device ip d n cur secs s
  = (del_key (redis__to_device_message_queue_prefix ip d) s, Return []).
Proof.
  intros Hk. unfold redis__pull_messages_for_device, execute, exec_all.
  cbn [exec_command]. rewrite Hk. cbn [exec_command]. rewrite lookup_key_del_eq.
  cbn. apply (f_equal2 pair); [|reflexivity].
  apply store_eq; [|reflexivity]. cbn. apply delete_delete_eq.
Qed.

Lemma active_devices_absent (ip : string) (cur : option Z) (secs : Z) (s : Store) :
  lookup_key (redis__presence_prefix ip) s = None ->
  redis__active_devices_for_client_ip ip cur secs s
  = (del_key (redis__presence_prefix ip) s, Return []).
Proof.
  intros Hk. unfold redis__active_devices_for_client_ip, execute, exec_all.
  cbn [exec_command]. rewrite Hk. cbn [exec_command]. rewrite lookup_key_del_eq.
  cbn. apply (f_equal2 pair); [|reflexivity].
  apply store_eq; [|reflexivity]. cbn. apply delete_delete_eq.
Qed.

Lemma lookup_key_del_dead (k k' : string) (s : Store) :
  lookup_key k s = None -> lookup_key k' (del_key k s) = lookup_key k' s.
Proof.
  intros Hk. destruct (decide (k = k')) as [<-|Hne].
  - now rewrite lookup_key_del_eq.
  - now apply lookup_key_del_ne.
Qed.

(** X9: for a client that has no presence key and a device that has no
    mailbox key, also when the key has just expired, the listing and the
    pull (with a count that is not negative) return the empty list
    without an error, and no key reads differently afterwards. *)
Theorem absent_keys_read_empty (ip d : string) (n : Z) (cur : option Z) (secs : Z)
    (s : Store) :
  lookup_key (redis__presence_prefix ip) s = None ->
  lookup_key (redis__to_device_message_queue_prefix ip d) s = None ->
  0 <= n ->
  let r1 := redis__active_devices_for_client_ip ip cur secs s in
  let r2 := redis__pull_messages_for_device ip d n cur secs s in
  r1.2 = Return [] /\ r2.2 = Return [] /\
  forall k, lookup_key k r1.1 = lookup_key k s /\ lookup_key k r2.1 = lookup_key k s.
Proof.
  intros Hp Hq _ r1 r2. subst r1 r2.
  rewrite active_devices_absent, pull_messages_absent by assumption. cbn [fst snd].
  repeat split; now apply lookup_key_del_dead.
Qed.

Lemma absent_keys_read_empty_witness :
  let s := advance 11 (redis__update_presence_for_device ipA idA infoA None 10
                         (empty_store 1000)).1 in
  let r1 := redis__active_devices_for_client_ip ipA None 10 s in
  let r2 := redis__pull_messages_for_device ipA idA 3 None 10 s in
  r1.2 = Return [] /\ r2.2 = Return [] /\
  forall k, lookup_key k r1.1 = lookup_key k s /\ lookup_key k r2.1 = lookup_key k s.
Proof.
  apply (absent_keys_read_empty ipA idA 3 None 10); first [ lia | vm_compute; reflexivity ].
Defined.

(** ** The life of a key *)

Lemma lookup_key_lapsed (k : string) (o : option entry) (dt secs : Z) (s : Store) :
  (forall e, o = Some e -> e_deadline e = Some (clock s + secs)) -> secs < dt ->
  lookup_key k (advance dt (write_key k o s)) = None.
Proof.
  intros Ho Hdt. unfold lookup_key, advance. cbn [db clock]. rewrite clock_write_key.
  destruct o as [e|]; cbn [write_key set_key del_key db].
  - rewrite lookup_insert_eq. unfold expired. rewrite (Ho e eq_refl).
    assert ((clock s + secs <? clock s + Z.max 0 dt) = true) as -> by (apply Z.ltb_lt; lia).
    reflexivity.
  - now rewrite lookup_delete_eq.
Qed.

Lemma pushed_entry_deadline (raw : string) (t secs now : Z) (o : option entry) (e : entry) :
  pushed_entry raw t secs now o = Some e -> e_deadline e = Some (now + secs).
Proof.
  unfold pushed_entry. destruct (secs <=? 0); [discriminate|].
  destruct o as [[[v|z] dl]|]; now intros [= <-].
Qed.

Lemma presence_entry_deadline (d : string) (t secs now : Z) (o : option entry) (e : entry) :
  presence_entry d t secs now o = Some e -> e_deadline e = Some (now + secs).
Proof.
  unfold presence_entry. destruct (secs <=? 0); [discriminate|].
  destruct o as [[[v|z] dl]|]; now intros [= <-].
Qed.

Lemma lookup_key_advance_set_ne (k k' : string) (e : entry) (dt : Z) (s : Store) :
  k <> k' -> lookup_key k' (advance dt (set_key k e s)) = lookup_key k' (advance dt s).
Proof. intros H. unfold lookup_key, advance, set_key. cbn. now rewrite lookup_insert_ne. Qed.

(** X10: the window of the latest push bounds the life of the whole
    mailbox: once more than that has passed on the clock of the store the
    mailbox is empty and a pull returns nothing, whatever the scores of
    the entries and the windows of the earlier pushes were. *)
Theorem mailbox_expires_with_last_push (ip d : string) (m : DeviceMessage) (cur : option Z)
    (secs dt n : Z) (cur' : option Z) (secs' : Z) (s : Store) :
  secs < dt -> 0 <= n ->
  let s' := advance dt (redis__push_message_for_device ip d m cur secs s).1 in
  mailbox ip d s' = [] /\
  (redis__pull_messages_for_device ip d n cur' secs' s').2 = Return [].
Proof.
  intros Hdt _ s'.
  assert (lookup_key (redis__to_device_message_queue_prefix ip d) s' = None) as Hk.
  { subst s'. rewrite push_message_cases. cbn [fst].
    apply (lookup_key_lapsed _ _ dt secs); [|exact Hdt].
    intros e. apply pushed_entry_deadline. }
  split.
  - unfold mailbox. now rewrite Hk.
  - now rewrite pull_messages_absent.
Qed.

Lemma mailbox_expires_with_last_push_witness :
  let s' := advance 6
              (redis__push_message_for_device ipA idA msgB (Some 1030) 5
                 (redis__push_message_for_device ipA idA msgA (Some 1000) 60
                    (empty_store 1000)).1).1 in
  mailbox ipA idA s' = [] /\
  (redis__pull_messages_for_device ipA idA 3 (Some 1006) 60 s').2 = Return [].
Proof.
  apply (mailbox_expires_with_last_push ipA idA msgB (Some 1030) 5 6 3 (Some 1006) 60); lia.
Defined.

(** X11: the window of the latest announcement bounds the life of the
    whole presence set of the client: once more than that has passed on
    the clock of the store the listing is empty, also for devices that
    were announced with a longer window. *)
Theorem presence_expires_with_last_update (ip d : string) (i : DeviceInfo) (cur : option Z)
    (secs dt : Z) (cur' : option Z) (secs' : Z) (s : Store) :
  secs < dt ->
  let s' := advance dt (redis__update_presence_for_device ip d i cur secs s).1 in
  redis__active_devices_for_client_ip ip cur' secs' s'
  = (del_key (redis__presence_prefix ip) s', Return []).
Proof.
  intros Hdt s'. apply active_devices_absent.
  subst s'. rewrite update_presence_cases. cbn [fst].
  destruct (secs <=? 0).
  - apply (lookup_key_lapsed _ _ dt secs); [|exact Hdt].
    intros e. apply presence_entry_deadline.
  - rewrite lookup_key_advance_set_ne
      by (intros E; symmetry in E; now apply presence_ne_own_device_info in E).
    apply (lookup_key_lapsed _ _ dt secs); [|exact Hdt].
    intros e. apply presence_entry_deadline.
Qed.

Lemma presence_expires_with_last_update_witness :
  let s' := advance 2
              (redis__update_presence_for_device ipA idB infoB None 1
                 (redis__update_presence_for_device ipA idA infoA None 10
                    (empty_store 1000)).1).1 in
  redis__active_devices_for_client_ip ipA None 10 s'
  = (del_key (redis__presence_prefix ipA) s', Return []).
Proof.
  apply (presence_expires_with_last_update ipA idB infoB None 1 2 None 10). lia.
Defined.

(** ** Windows that are not positive *)

(** X12: with a window that is not positive [EXPIRE] deletes the key it is
    given and [SETEX] is refused: an announcement raises, removes the
    whole presence set of the client and leaves the snapshot untouched; a
    push discards the whole mailbox, the new message included, and still
    returns normally on a mailbox key that is free or a queue. *)
Theorem nonpositive_window_discards (ip d : string) (i : DeviceInfo) (m : DeviceMessage)
    (cur : option Z) (secs : Z) (s : Store) :
  secs <= 0 ->
  let r := redis__update_presence_for_device ip d i cur secs s in
  let q := redis__push_message_for_device ip d m cur secs s in
  r.2 = Raise ResponseError /\
  lookup_key (redis__presence_prefix ip) r.1 = None /\
  lookup_key (redis__device_info_prefix ip d) r.1
  = lookup_key (redis__device_info_prefix ip d) s /\
  lookup_key (redis__to_device_message_queue_prefix ip d) q.1 = None /\
  (zset_or_free (lookup_key (redis__to_device_message_queue_prefix ip d) s) ->
   q.2 = Return tt).
Proof.
  intros Hs r q. subst r q. rewrite update_presence_cases, push_message_cases.
  unfold presence_entry, pushed_entry. rewrite nonpositive_secs by assumption.
  cbn [fst snd write_key]. rewrite orb_true_r.
  split; [reflexivity|]. split; [apply lookup_key_del_eq|].
  split; [apply lookup_key_del_ne, presence_ne_own_device_info|].
  split; [apply lookup_key_del_eq|].
  intros Hz. destruct (lookup_key _ s) as [[[v|z] dl]|]; easy.
Qed.

Lemma nonpositive_window_discards_witness :
  let s := (redis__push_message_for_device ipA idA msgA None 60
              (redis__update_presence_for_device ipA idB infoB None 10
                 (empty_store 1000)).1).1 in
  let r := redis__update_presence_for_device ipA idA infoA None 0 s in
  let q := redis__push_message_for_device ipA idA msgB None 0 s in
  r.2 = Raise ResponseError /\
  lookup_key (redis__presence_prefix ipA) r.1 = None /\
  lookup_key (redis__device_info_prefix ipA idA) r.1
  = lookup_key (redis__device_info_prefix ipA idA) s /\
  lookup_key (redis__to_device_message_queue_prefix ipA idA) q.1 = None /\
  (zset_or_free (lookup_key (redis__to_device_message_queue_prefix ipA idA) s) ->
   q.2 = Return tt).
Proof.
  apply (nonpositive_window_discards ipA idA infoA msgB None 0). lia.
Defined.

(** ** What stays in the sorted sets *)

Lemma active_devices_on_string (ip : string) (cur : option Z) (secs : Z) (s : Store) :
  holds_string (lookup_key (redis__presence_prefix ip) s) = true ->
  redis__active_devices_for_client_ip ip cur secs s = (s, Raise ResponseError).
Proof.
  intros Hstr. unfold redis__active_devices_for_client_ip, execute, exec_all.
  cbn [exec_command].
  destruct (lookup_key _ s) as [[[v|z] dl]|] eqn:E; try discriminate Hstr.
  rewrite E. reflexivity.
Qed.

Lemma zset_of_pruned_presence (ip : string) (t secs : Z) (s : Store) :
  zset_of (lookup_key (redis__presence_prefix ip) (pruned_presence ip t secs s))
  = unexpired t secs (zset_of (lookup_key (redis__presence_prefix ip) s)).
Proof.
  unfold pruned_presence, put_zset.
  set (k := redis__presence_prefix ip).
  destruct (decide (unexpired t secs (zset_of (lookup_key k s)) = ∅)) as [E|E].
  - now rewrite lookup_key_del_eq, E.
  - assert (zset_of (lookup_key k s) <> ∅) as Hne.
    { intros H0. apply E. rewrite H0. apply unexpired_empty. }
    apply zset_of_nonempty in Hne as (z & dl & Hk). rewrite Hk.
    apply lookup_key_alive in Hk as [_ Hal]. rewrite lookup_key_set_eq.
    cbn [deadline_of queue_entry e_deadline zset_of]. unfold expired in *.
    cbn [queue_entry e_deadline] in *. now rewrite Hal.
Qed.

Lemma clock_pruned_presence (ip : string) (t secs : Z) (s : Store) :
  clock (pruned_presence ip t secs s) = clock s.
Proof. unfold pruned_presence, put_zset. now destruct (decide _). Qed.

Lemma unexpired_within (t secs : Z) (z : gmap string Z) :
  Forall (fun p : string * Z => t - secs < p.2) (zrange (unexpired t secs z)).
Proof.
  apply Forall_forall. intros [x sc] Hx%elem_of_zrange.
  unfold unexpired in Hx. now apply map_lookup_filter_Some in Hx as [_ Hx].
Qed.

(** X13: every push, every pull and every listing leaves in the sorted set
    it works on only entries whose score is within the window it was
    called with: what is older is removed from the store. *)
Theorem stale_entries_pruned (ip d : string) (m : DeviceMessage) (n : Z) (cur : option Z)
    (secs : Z) (s : Store) :
  let within (p : string * Z) := current_time cur s - secs < p.2 in
  Forall within (mailbox ip d (redis__push_message_for_device ip d m cur secs s).1) /\
  Forall within (mailbox ip d (redis__pull_messages_for_device ip d n cur secs s).1) /\
  Forall within
    (zrange (zset_of (lookup_key (redis__presence_prefix ip)
                        (redis__active_devices_for_client_ip ip cur secs s).1))).
Proof.
  intros within. split; [|split].
  - unfold mailbox. rewrite push_message_cases. cbn [fst].
    rewrite lookup_key_write_eq by apply pushed_entry_alive.
    unfold pushed_entry. destruct (Z.leb_spec secs 0) as [Hs|Hs]; [constructor|].
    destruct (lookup_key _ s) as [[[v|z] dl]|]; cbn [zset_of queue_entry];
      try (rewrite zrange_empty; constructor);
      apply Forall_forall; intros [x sc] Hx%elem_of_zrange;
      apply lookup_insert_Some in Hx as [[_ <-]|[_ Hx]]; unfold within; cbn [snd];
        try lia.
    + unfold unexpired in Hx. now apply map_lookup_filter_Some in Hx as [_ Hx].
    + rewrite unexpired_empty in Hx. now apply lookup_empty_Some in Hx.
  - rewrite mailbox_after_pull. apply Forall_forall. intros p Hp.
    apply (sublist_subseteq _ _ (sublist_drop _ _)) in Hp.
    now apply list_elem_of_filter in Hp as [Hp _].
  - destruct (holds_string (lookup_key (redis__presence_prefix ip) s)) eqn:Hstr.
    + rewrite active_devices_on_string by assumption. cbn [fst].
      rewrite (zset_of_string _ Hstr). constructor.
    + destruct (active_devices_effect ip cur secs s (holds_string_free _ Hstr))
        as (s2 & -> & Hp).
      cbn [fst]. rewrite (purged_lookup_key _ _ _ Hp), zset_of_pruned_presence.
      apply unexpired_within.
Qed.

(** ** Reading twice *)

Lemma get_reply_lookup (s s' : Store) (key : string) :
  lookup_key key s' = lookup_key key s -> get_reply s' key = get_reply s key.
Proof. unfold get_reply. now intros ->. Qed.

(** X14: a listing repeated with the same arguments, before anything else
    happens, has the same outcome: the same list or the same exception. *)
Theorem active_devices_repeatable (ip : string) (cur : option Z) (secs : Z) (s : Store) :
  (redis__active_devices_for_client_ip ip cur secs
     (redis__active_devices_for_client_ip ip cur secs s).1).2
  = (redis__active_devices_for_client_ip ip cur secs s).2.
Proof.
  set (k := redis__presence_prefix ip).
  destruct (holds_string (lookup_key k s)) eqn:Hstr.
  - rewrite (active_devices_on_string ip cur secs s Hstr). cbn [fst snd].
    now rewrite (active_devices_on_string ip cur secs s Hstr).
  - destruct (active_devices_effect ip cur secs s (holds_string_free _ Hstr))
      as (s2 & E & Hp).
    rewrite E. cbn [fst snd].
    pose proof Hp as [Hc _]. rewrite clock_pruned_presence in Hc.
    assert (current_time cur s2 = current_time cur s) as Ht.
    { destruct cur; [reflexivity|]. cbn. unfold time_time. exact Hc. }
    assert (zset_of (lookup_key k s2)
            = unexpired (current_time cur s) secs (zset_of (lookup_key k s))) as Hz.
    { rewrite (purged_lookup_key _ _ _ Hp). apply zset_of_pruned_presence. }
    assert (zset_or_free (lookup_key k s2)) as Hfree.
    { rewrite (purged_lookup_key _ _ _ Hp). unfold pruned_presence, put_zset. fold k.
      destruct (decide _); [now rewrite lookup_key_del_eq|].
      rewrite lookup_key_set_eq. now destruct (expired _ _). }
    destruct (active_devices_effect ip cur secs s2 Hfree) as (s3 & E3 & _).
    rewrite E3. cbn [snd]. rewrite Ht.
    assert (active_ids ip (current_time cur s) secs s2
            = active_ids ip (current_time cur s) secs s) as ->.
    { unfold active_ids. fold k. rewrite Hz. unfold unexpired.
      now rewrite map_filter_filter_l by tauto. }
    assert (forall ids, snapshot_replies ip ids s2 = snapshot_replies ip ids s) as ->;
      [|reflexivity].
    intros ids. unfold snapshot_replies. apply map_ext. intros d'.
    apply get_reply_lookup. rewrite (purged_lookup_key _ _ _ Hp).
    apply lookup_key_pruned_presence. intros H. symmetry in H.
    now apply presence_ne_own_device_info in H.
Qed.

(** ** The order of a listing *)

Lemma snapshot_of_id (ip d : string) (s : Store) (x : DeviceInfo) :
  snapshots_ok s -> key_safe d -> snapshot_of ip s d = Some x -> device_id x = d.
Proof.
  intros [_ Hs] Hd. unfold snapshot_of, get_reply.
  destruct (lookup_key _ s) as [[[raw|z] dl]|] eqn:E; try discriminate.
  apply lookup_key_alive in E as [E _].
  destruct (Hs ip d _ Hd E) as (i & Hv & Hi & Hid). cbn [e_val] in Hv. injection Hv as ->.
  cbn [reply_info]. rewrite DeviceInfo_round_trip by assumption. now intros [= <-].
Qed.

Lemma zle_score (p q : string * Z) : zle p q -> p.2 <= q.2.
Proof. unfold zle. lia. Qed.

Lemma omap_ordered (z : gmap string Z) (f : string -> option DeviceInfo)
    (ps : list (string * Z)) :
  (forall d x, d ∈ ps.*1 -> f d = Some x -> device_id x = d) ->
  (forall p, p ∈ ps -> z !! p.1 = Some p.2) ->
  NoDup ps.*1 -> StronglySorted zle ps ->
  NoDup (device_id <$> omap f ps.*1) /\
  StronglySorted
    (fun x y => exists a b, z !! device_id x = Some a /\ z !! device_id y = Some b /\ a <= b)
    (omap f ps.*1) /\
  Forall (fun x => exists p, p ∈ ps /\ p.1 = device_id x) (omap f ps.*1).
Proof.
  induction ps as [|p ps IH]; intros Hf Hz Hnd Hs.
  - repeat split; constructor.
  - cbn [fmap list_fmap] in *. apply NoDup_cons in Hnd as [Hp Hnd].
    apply StronglySorted_inv in Hs as [Hs Hle]. rewrite Forall_forall in Hle.
    destruct IH as (IH1 & IH2 & IH3); try assumption.
    { intros d x Hd. apply Hf. now right. }
    { intros q Hq. apply Hz. now right. }
    cbn [omap list_omap]. destruct (f p.1) as [x|] eqn:Ex.
    + pose proof (Hf p.1 x ltac:(left) Ex) as Hx.
      split; [|split].
      * cbn [fmap list_fmap]. apply NoDup_cons. split; [|exact IH1].
        intros Hin. apply list_elem_of_fmap in Hin as (y & Hy & Hin).
        rewrite Forall_forall in IH3. destruct (IH3 y Hin) as (q & Hq & Hqy).
        apply Hp. apply list_elem_of_fmap. exists q. split; [congruence | exact Hq].
      * constructor; [exact IH2|]. apply Forall_forall. intros y Hy.
        rewrite Forall_forall in IH3. destruct (IH3 y Hy) as (q & Hq & Hqy).
        exists p.2, q.2. rewrite Hx, <- Hqy.
        split; [apply Hz; left|]. split; [apply Hz; now right|].
        apply zle_score. now apply Hle.
      * constructor; [exists p; split; [left | now rewrite Hx]|].
        eapply Forall_impl; [exact IH3|]. intros y (q & Hq & Hqy). exists q.
        split; [now right | exact Hqy].
    + split; [exact IH1|]. split; [exact IH2|].
      eapply Forall_impl; [exact IH3|]. intros y (q & Hq & Hqy). exists q.
      split; [now right | exact Hqy].
Qed.

(** X15: a listing names no device twice and is ordered by the time of the
    latest announcement, oldest first. *)
Theorem active_devices_ordered (ip : string) (cur : option Z) (secs : Z) (s : Store)
    (l : list DeviceInfo) :
  snapshots_ok s ->
  (redis__active_devices_for_client_ip ip cur secs s).2 = Return l ->
  NoDup (device_id <$> l) /\
  StronglySorted
    (fun x y => exists a b,
       zscore (redis__presence_prefix ip) (device_id x) s = Some a /\
       zscore (redis__presence_prefix ip) (device_id y) s = Some b /\ a <= b) l.
Proof.
  intros Hok. rewrite snapshots_ok_readable by assumption. intros [= <-].
  unfold active_ids, zscore.
  set (z := zset_of (lookup_key (redis__presence_prefix ip) s)).
  assert (forall p, p ∈ zrange (unexpired (current_time cur s) secs z) -> z !! p.1 = Some p.2)
    as Hz.
  { intros [d sc] Hp%elem_of_zrange. unfold unexpired in Hp.
    now apply map_lookup_filter_Some in Hp as [Hp _]. }
  destruct (omap_ordered z (snapshot_of ip s) (zrange (unexpired (current_time cur s) secs z)))
    as (H1 & H2 & _); [| exact Hz | apply zrange_NoDup | apply zrange_sorted | now split].
  intros d x Hd. apply snapshot_of_id; [exact Hok|].
  apply list_elem_of_fmap in Hd as ([d' sc] & -> & Hd). apply Hz in Hd.
  eapply snapshots_ok_members; eassumption.
Qed.

Lemma active_devices_ordered_witness :
  let s := run [UpdatePresence ipA idA infoA (Some 1003) 10;
                UpdatePresence ipA idB infoB (Some 1001) 10] (empty_store 1000) in
  NoDup (device_id <$> [infoB; infoA]) /\
  StronglySorted
    (fun x y => exists a b,
       zscore (redis__presence_prefix ipA) (device_id x) s = Some a /\
       zscore (redis__presence_prefix ipA) (device_id y) s = Some b /\ a <= b)
    [infoB; infoA].
Proof.
  apply (active_devices_ordered ipA (Some 1004) 10).
  - apply run_snapshots_ok; [|apply snapshots_ok_empty].
    repeat (apply Forall_cons; split); try apply Forall_nil_2;
      repeat split; first [ reflexivity | discriminate | lia ].
  - vm_compute. reflexivity.
Defined.

(** ** Clients and devices do not disturb each other *)

Lemma lookup_key_frame (k : string) (s s' : Store) :
  db s' !! k = db s !! k -> clock s' = clock s -> lookup_key k s' = lookup_key k s.
Proof. unfold lookup_key. now intros -> ->. Qed.

Lemma clock_update_presence (ip d : string) (i : DeviceInfo) (cur : option Z) (secs : Z)
    (s : Store) :
  clock (redis__update_presence_for_device ip d i cur secs s).1 = clock s.
Proof.
  unfold redis__update_presence_for_device.
  match goal with |- context [execute ?cs s] =>
    pose proof (clock_execute cs s) as Hc; destruct (execute cs s) end.
  exact Hc.
Qed.

Lemma current_time_frame (cur : option Z) (s s' : Store) :
  clock s' = clock s -> current_time cur s' = current_time cur s.
Proof. intros H. destruct cur; [reflexivity|]. cbn. unfold time_time. exact H. Qed.

Lemma omap_ext_in {A B} (f g : A -> option B) (l : list A) :
  (forall x, x ∈ l -> f x = g x) -> omap f l = omap g l.
Proof.
  intros H. induction l as [|x l IH]; [reflexivity|].
  cbn [omap list_omap]. rewrite (H x) by left. rewrite IH; [reflexivity|].
  intros y Hy. apply H. now right.
Qed.

(** X16: an announcement under one client address does not change what a
    listing for another client address returns. *)
Theorem clients_isolated (ip ip' d : string) (i : DeviceInfo) (cur : option Z) (secs : Z)
    (cur' : option Z) (secs' : Z) (s : Store) :
  snapshots_ok s -> proper (UpdatePresence ip d i cur secs) -> ip' <> ip ->
  (redis__active_devices_for_client_ip ip' cur' secs'
     (redis__update_presence_for_device ip d i cur secs s).1).2
  = (redis__active_devices_for_client_ip ip' cur' secs' s).2.
Proof.
  intros Hok Hc Hip. pose proof Hc as (Hd & _).
  pose proof (step_snapshots_ok _ _ Hc Hok) as Hok'. cbn [step] in Hok'.
  set (s' := (redis__update_presence_for_device ip d i cur secs s).1) in *.
  assert (clock s' = clock s) as Hclk by apply clock_update_presence.
  assert (forall k, k <> redis__presence_prefix ip -> k <> redis__device_info_prefix ip d ->
            lookup_key k s' = lookup_key k s) as Hframe.
  { intros k H1 H2. apply lookup_key_frame; [|exact Hclk]. now apply update_presence_frame. }
  rewrite !snapshots_ok_readable by assumption. f_equal.
  rewrite (current_time_frame cur' s s' Hclk).
  assert (lookup_key (redis__presence_prefix ip') s' = lookup_key (redis__presence_prefix ip') s)
    as Hp.
  { apply Hframe.
    - intros E. now apply presence_inj in E.
    - now apply presence_ne_device_info. }
  unfold active_ids. rewrite Hp.
  apply omap_ext_in. intros d' Hd'.
  apply list_elem_of_fmap in Hd' as ([d'' sc] & -> & Hd'). cbn [fst].
  apply elem_of_zrange in Hd'. unfold unexpired in Hd'.
  apply map_lookup_filter_Some in Hd' as [Hd' _].
  assert (key_safe d'') as Hsafe by exact (snapshots_ok_members s ip' d'' sc Hok Hd').
  unfold snapshot_of. apply f_equal, get_reply_lookup, Hframe.
  - intros E. symmetry in E. now apply presence_ne_device_info in E.
  - intros E. now apply device_info_inj in E as [E _].
Qed.

Lemma clients_isolated_witness :
  let s := run [UpdatePresence "203.0.113.8" idB infoB None 10] (empty_store 1000) in
  (redis__active_devices_for_client_ip "203.0.113.8" None 10
     (redis__update_presence_for_device ipA idA infoA None 10 s).1).2
  = (redis__active_devices_for_client_ip "203.0.113.8" None 10 s).2.
Proof.
  apply (clients_isolated ipA "203.0.113.8" idA infoA None 10 None 10).
  - apply run_snapshots_ok; [|apply snapshots_ok_empty].
    repeat (apply Forall_cons; split); try apply Forall_nil_2;
      repeat split; first [ reflexivity | discriminate | lia ].
  - repeat split; first [ reflexivity | discriminate | lia ].
  - discriminate.
Defined.

Lemma pull_messages_result (ip d : string) (n : Z) (cur : option Z) (secs : Z) (s s' : Store) :
  lookup_key (redis__to_device_message_queue_prefix ip d) s'
  = lookup_key (redis__to_device_message_queue_prefix ip d) s ->
  clock s' = clock s ->
  (redis__pull_messages_for_device ip d n cur secs s').2
  = (redis__pull_messages_for_device ip d n cur secs s).2.
Proof.
  intros Hk Hc.
  destruct (holds_string (lookup_key (redis__to_device_message_queue_prefix ip d) s)) eqn:Hstr.
  - rewrite !pull_messages_on_string by (rewrite ?Hk; exact Hstr). reflexivity.
  - rewrite !pull_messages_effect by (rewrite ?Hk; now apply holds_string_free).
    cbn [snd]. now rewrite Hk, (current_time_frame cur s s' Hc).
Qed.

(** X17: the mailboxes of two devices do not disturb each other: for
    device identifiers without a colon a push or a pull on one mailbox
    leaves every other mailbox as it is, and what a pull on the other
    mailbox returns. *)
Theorem mailboxes_isolated (ip d ip' d' : string) (m : DeviceMessage) (n : Z)
    (cur : option Z) (secs : Z) (n' : Z) (cur' : option Z) (secs' : Z) (s : Store) :
  colon_free d -> colon_free d' -> (ip', d') <> (ip, d) ->
  let s1 := (redis__push_message_for_device ip d m cur secs s).1 in
  let s2 := (redis__pull_messages_for_device ip d n cur secs s).1 in
  mailbox ip' d' s1 = mailbox ip' d' s /\ mailbox ip' d' s2 = mailbox ip' d' s /\
  (redis__pull_messages_for_device ip' d' n' cur' secs' s1).2
  = (redis__pull_messages_for_device ip' d' n' cur' secs' s).2 /\
  (redis__pull_messages_for_device ip' d' n' cur' secs' s2).2
  = (redis__pull_messages_for_device ip' d' n' cur' secs' s).2.
Proof.
  intros Hd Hd' Hne s1 s2.
  assert (redis__to_device_message_queue_prefix ip' d'
          <> redis__to_device_message_queue_prefix ip d) as Hk.
  { intros E. apply queue_inj in E as [-> ->]; [now apply Hne | assumption..]. }
  assert (clock s1 = clock s) as Hc1 by apply clock_push_message.
  assert (clock s2 = clock s) as Hc2 by apply clock_pull_messages.
  assert (lookup_key (redis__to_device_message_queue_prefix ip' d') s1
          = lookup_key (redis__to_device_message_queue_prefix ip' d') s) as H1.
  { apply lookup_key_frame; [|exact Hc1]. now apply push_message_frame. }
  assert (lookup_key (redis__to_device_message_queue_prefix ip' d') s2
          = lookup_key (redis__to_device_message_queue_prefix ip' d') s) as H2.
  { apply lookup_key_frame; [|exact Hc2]. now apply pull_messages_frame. }
  unfold mailbox. rewrite H1, H2.
  repeat split; now apply pull_messages_result.
Qed.

Lemma mailboxes_isolated_witness :
  let s := (redis__push_message_for_device ipA idB msgA None 60 (empty_store 1000)).1 in
  let s1 := (redis__push_message_for_device ipA idA msgB None 60 s).1 in
  let s2 := (redis__pull_messages_for_device ipA idA 3 None 60 s).1 in
  mailbox ipA idB s1 = mailbox ipA idB s /\ mailbox ipA idB s2 = mailbox ipA idB s /\
  (redis__pull_messages_for_device ipA idB 3 None 60 s1).2
  = (redis__pull_messages_for_device ipA idB 3 None 60 s).2 /\
  (redis__pull_messages_for_device ipA idB 3 None 60 s2).2
  = (redis__pull_messages_for_device ipA idB 3 None 60 s).2.
Proof.
  apply (mailboxes_isolated ipA idA ipA idB msgB 3 None 60 3 None 60);
    first [ reflexivity | discriminate ].
Defined.

(** X18: two different valid messages have different payloads, so a push
    of one never replaces the other: after both pushes the mailbox holds
    each of them with the time of its own push, as long as the first is
    still within the window at the time of the second. *)
Theorem distinct_messages_coexist (ip d : string) (m1 m2 : DeviceMessage)
    (cur1 cur2 : option Z) (W : Z) (s : Store) :
  let k := redis__to_device_message_queue_prefix ip d in
  let s2 := (redis__push_message_for_device ip d m2 cur2 W
               (redis__push_message_for_device ip d m1 cur1 W s).1).1 in
  valid_message m1 -> valid_message m2 -> m1 <> m2 -> 0 < W ->
  zset_or_free (lookup_key k s) ->
  current_time cur2 s - W < current_time cur1 s ->
  zscore k (DeviceMessage_to_json m1) s2 = Some (current_time cur1 s) /\
  zscore k (DeviceMessage_to_json m2) s2 = Some (current_time cur2 s).
Proof.
  intros k s2 H1 H2 Hne HW Hfree Hlt. subst s2 k.
  set (s1 := (redis__push_message_for_device ip d m1 cur1 W s).1).
  assert (lookup_key (redis__to_device_message_queue_prefix ip d) s1
          = Some (queue_entry
                    (<[DeviceMessage_to_json m1 := current_time cur1 s]>
                       (unexpired (current_time cur1 s) W
                          (zset_of (lookup_key (redis__to_device_message_queue_prefix ip d) s))))
                    (Some (clock s + W)))) as Hk1
    by now apply lookup_key_pushed.
  assert (current_time cur2 s1 = current_time cur2 s) as Ht
    by (apply current_time_frame, clock_push_message).
  unfold zscore. rewrite lookup_key_pushed by (rewrite ?Hk1; easy).
  rewrite Hk1, Ht. cbn [zset_of queue_entry].
  assert (DeviceMessage_to_json m2 <> DeviceMessage_to_json m1) as Hraw.
  { intros E. apply Hne. symmetry. now apply DeviceMessage_to_json_inj. }
  split.
  - rewrite lookup_insert_ne by exact Hraw. unfold unexpired at 1.
    apply map_lookup_filter_Some. split; [apply lookup_insert_eq | exact Hlt].
  - apply lookup_insert_eq.
Qed.

Lemma distinct_messages_coexist_witness :
  let k := redis__to_device_message_queue_prefix ipA idA in
  let s2 := (redis__push_message_for_device ipA idA msgB (Some 1030) 60
               (redis__push_message_for_device ipA idA msgA (Some 1000) 60
                  (empty_store 1000)).1).1 in
  zscore k (DeviceMessage_to_json msgA) s2 = Some (current_time (Some 1000) (empty_store 1000)) /\
  zscore k (DeviceMessage_to_json msgB) s2 = Some (current_time (Some 1030) (empty_store 1000)).
Proof.
  apply (distinct_messages_coexist ipA idA msgA msgB (Some 1000) (Some 1030) 60
           (empty_store 1000));
    first [ exact msgA_valid | exact msgB_valid | discriminate | exact I | cbn; lia ].
Defined.

(** X19: an announcement of one device leaves the other devices of the
    client listed as they were: a listing made right after it holds the
    same entries for them as a listing made right before it. *)
Theorem update_presence_keeps_others (ip d : string) (i : DeviceInfo) (cur : option Z)
    (secs : Z) (cur' : option Z) (secs' : Z) (s : Store) :
  snapshots_ok s -> proper (UpdatePresence ip d i cur secs) ->
  exists l0 l1,
    (redis__active_devices_for_client_ip ip cur' secs' s).2 = Return l0 /\
    (redis__active_devices_for_client_ip ip cur' secs'
       (redis__update_presence_for_device ip d i cur secs s).1).2 = Return l1 /\
    forall x, device_id x <> d -> x ∈ l1 <-> x ∈ l0.
Proof.
  intros Hok Hc. pose proof Hc as (Hd & _ & _ & Hsecs).
  pose proof (step_snapshots_ok _ _ Hc Hok) as Hok'.
  pose proof (step_update_db ip d i cur secs s Hsecs (snapshots_ok_presence_free s ip Hok))
    as Hs'.
  cbn [step] in Hok', Hs'.
  set (s' := (redis__update_presence_for_device ip d i cur secs s).1) in *.
  set (k := redis__presence_prefix ip) in *.
  assert (clock s' = clock s) as Hclk by (rewrite Hs'; reflexivity).
  assert (zset_of (lookup_key k s') = <[d := current_time cur s]> (zset_of (lookup_key k s)))
    as Hz.
  { assert (lookup_key k s'
            = Some (queue_entry (<[d := current_time cur s]> (zset_of (lookup_key k s)))
                      (Some (clock s + secs)))) as ->; [|reflexivity].
    apply lookup_key_deadline; [|rewrite Hclk; lia].
    rewrite Hs'. cbn [db].
    rewrite lookup_insert_ne
      by (intros E; symmetry in E; now apply presence_ne_own_device_info in E).
    apply lookup_insert_eq. }
  eexists _, _. rewrite !snapshots_ok_readable by assumption.
  split; [reflexivity|]. split; [reflexivity|].
  intros x Hx. rewrite (current_time_frame cur' s s' Hclk). rewrite !list_elem_of_omap.
  assert (forall d', key_safe d' -> d' <> d -> snapshot_of ip s' d' = snapshot_of ip s d')
    as Hsnap.
  { intros d' Hd' Hne. unfold snapshot_of. apply f_equal, get_reply_lookup.
    apply lookup_key_frame; [|exact Hclk]. apply update_presence_frame.
    - intros E. symmetry in E. now apply presence_ne_own_device_info in E.
    - intros E. now apply device_info_inj in E as [_ E]. }
  split; intros (d' & Hin & Hf); exists d'.
  - apply active_ids_elem in Hin as (sc & Hsc & Hlt).
    assert (key_safe d') as Hd' by exact (snapshots_ok_members s' ip d' sc Hok' Hsc).
    assert (d' <> d) as Hne.
    { intros ->. apply Hx. now apply (snapshot_of_id ip d s'). }
    rewrite Hsnap in Hf by assumption. split; [|exact Hf].
    apply active_ids_elem. exists sc. split; [|exact Hlt].
    fold k in Hsc. rewrite Hz, lookup_insert_ne in Hsc by congruence. exact Hsc.
  - apply active_ids_elem in Hin as (sc & Hsc & Hlt).
    assert (key_safe d') as Hd' by exact (snapshots_ok_members s ip d' sc Hok Hsc).
    assert (d' <> d) as Hne.
    { intros ->. apply Hx. now apply (snapshot_of_id ip d s). }
    rewrite Hsnap by assumption. split; [|exact Hf].
    apply active_ids_elem. exists sc. split; [|exact Hlt].
    fold k. rewrite Hz, lookup_insert_ne by congruence. exact Hsc.
Qed.

Lemma update_presence_keeps_others_witness :
  let s := run [UpdatePresence ipA idB infoB None 10] (empty_store 1000) in
  exists l0 l1,
    (redis__active_devices_for_client_ip ipA None 10 s).2 = Return l0 /\
    (redis__active_devices_for_client_ip ipA None 10
       (redis__update_presence_for_device ipA idA infoA None 10 s).1).2 = Return l1 /\
    forall x, device_id x <> idA -> x ∈ l1 <-> x ∈ l0.
Proof.
  apply (update_presence_keeps_others ipA idA infoA None 10 None 10).
  - apply run_snapshots_ok; [|apply snapshots_ok_empty].
    repeat (apply Forall_cons; split); try apply Forall_nil_2;
      repeat split; first [ reflexivity | discriminate | lia ].
  - repeat split; first [ reflexivity | discriminate | lia ].
Defined.

(** ** Stored text that the serializer refuses *)

Lemma parse_infos_Raise (rs : list reply) (raw : string) (e : exn) :
  RBulk raw ∈ rs -> raw <> EmptyString -> DeviceInfo_from_json raw = Raise e ->
  exists e', parse_infos rs = Raise e'.
Proof.
  intros Hin Hne Hbad. induction rs as [|r rs IH]; [now apply elem_of_nil in Hin|].
  apply elem_of_cons in Hin as [<-|Hin].
  - cbn [parse_infos]. destruct raw; [congruence|]. cbn [is_empty_str].
    rewrite Hbad. now exists e.
  - destruct (IH Hin) as [e' He']. cbn [parse_infos].
    destruct r as [n| |raw'|l|l|]; try (now exists e').
    destruct (is_empty_str raw'); [now exists e'|].
    destruct (DeviceInfo_from_json raw') as [i|e1]; [|now exists e1].
    rewrite He'. now exists e'.
Qed.

(** X20: a stored payload that the serializer refuses is not skipped: when
    one of the entries a pull takes out of the mailbox is the text of a
    document that fails to validate as a message, the pull raises and
    returns none of the messages of the batch, which are removed from the
    mailbox all the same. *)
Theorem pull_messages_raises_on_bad_entry (ip d : string) (n : Z) (cur : option Z) (secs : Z)
    (s : Store) (p : string * Z) (j : json) (e : exn) :
  let within := filter (fun p : string * Z => current_time cur s - secs < p.2)
                  (mailbox ip d s) in
  let r := redis__pull_messages_for_device ip d n cur secs s in
  p ∈ take (Z.to_nat n) within ->
  p.1 = json_dumps j -> json_wf j -> DeviceMessage_from_dict j = Raise e ->
  (exists e', r.2 = Raise e') /\ mailbox ip d r.1 = drop (Z.to_nat n) within.
Proof.
  intros within r Hin Hp Hj Hbad. split; [|apply mailbox_after_pull].
  apply (pull_messages_malformed ip d n cur secs s p e).
  - subst within. unfold mailbox in Hin. unfold unexpired. now rewrite zrange_filter.
  - unfold DeviceMessage_from_json. now rewrite Hp, json_loads_dumps.
Qed.

Lemma pull_messages_raises_on_bad_entry_witness :
  let within := filter (fun p : string * Z => current_time (Some 5) store_with_blank_type - 60 < p.2)
                  (mailbox ipA idA store_with_blank_type) in
  let r := redis__pull_messages_for_device ipA idA 3 (Some 5) 60 store_with_blank_type in
  (exists e', r.2 = Raise e') /\ mailbox ipA idA r.1 = drop (Z.to_nat 3) within.
Proof.
  apply (pull_messages_raises_on_bad_entry ipA idA 3 (Some 5) 60 store_with_blank_type
           (DeviceMessage_to_json msg_blank_type, 1) (DeviceMessage_asdict msg_blank_type)
           ValidationError).
  - apply (bool_decide_unpack _). vm_compute. reflexivity.
  - reflexivity.
  - split; [apply (bool_decide_unpack _); reflexivity|]. cbn. repeat split; constructor.
  - reflexivity.
Defined.

(** X21: a snapshot that the serializer refuses is not skipped either:
    when the stored snapshot of one device within the window is the text
    of a document that fails to validate as a snapshot, the listing of
    the client raises. *)
Theorem active_devices_raises_on_bad_snapshot (ip d : string) (cur : option Z) (secs : Z)
    (s : Store) (j : json) (dl : option Z) (e : exn) :
  d ∈ active_ids ip (current_time cur s) secs s ->
  lookup_key (redis__device_info_prefix ip d) s = Some (snapshot_entry (json_dumps j) dl) ->
  json_wf j -> DeviceInfo_from_dict j = Raise e ->
  exists e', (redis__active_devices_for_client_ip ip cur secs s).2 = Raise e'.
Proof.
  intros Hd Hk Hj Hbad.
  assert (zset_or_free (lookup_key (redis__presence_prefix ip) s)) as Hfree.
  { apply active_ids_elem in Hd as (sc & Hsc & _).
    destruct (lookup_key (redis__presence_prefix ip) s) as [[[v|z] dl']|]; try exact I.
    cbn in Hsc. now rewrite lookup_empty in Hsc. }
  destruct (active_devices_effect ip cur secs s Hfree) as (s2 & -> & _). cbn [snd].
  destruct (existsb is_error _); [now exists ResponseError|].
  apply (parse_infos_Raise _ (json_dumps j) e).
  - unfold snapshot_replies. apply list_elem_of_fmap. exists d. split; [|exact Hd].
    unfold get_reply. now rewrite Hk.
  - intros E. pose proof (json_dumps_nonempty j) as Hlen. rewrite E in Hlen. cbn in Hlen. lia.
  - unfold DeviceInfo_from_json. now rewrite json_loads_dumps.
Qed.

Lemma active_devices_raises_on_bad_snapshot_witness :
  exists e', (redis__active_devices_for_client_ip ipA None 10 store_with_blank_hostname).2
             = Raise e'.
Proof.
  apply (active_devices_raises_on_bad_snapshot ipA idA None 10 store_with_blank_hostname
           (DeviceInfo_asdict info_blank_hostname) (Some 1010) ValidationError).
  - apply (bool_decide_unpack _). vm_compute. reflexivity.
  - vm_compute. reflexivity.
  - apply DeviceInfo_asdict_wf.
  - reflexivity.
Defined.

(** ** What a listing writes *)

(** X22: a listing only prunes: it keeps the clock, it leaves every key
    other than the presence key of its client reading as before, the
    snapshots and their expiry included, and in the presence set it
    keeps exactly the devices whose score is within the window, with
    their scores. *)
Theorem active_devices_only_prunes (ip : string) (cur : option Z) (secs : Z) (s : Store) :
  let s' := (redis__active_devices_for_client_ip ip cur secs s).1 in
  clock s' = clock s /\
  (forall k, k <> redis__presence_prefix ip -> lookup_key k s' = lookup_key k s) /\
  (forall d, zscore (redis__presence_prefix ip) d s'
             = match zscore (redis__presence_prefix ip) d s with
               | Some sc => if decide (current_time cur s - secs < sc) then Some sc else None
               | None => None
               end).
Proof.
  intros s'. subst s'.
  destruct (holds_string (lookup_key (redis__presence_prefix ip) s)) eqn:Hstr.
  - rewrite active_devices_on_string by assumption. cbn [fst].
    split; [reflexivity|]. split; [reflexivity|].
    intros d. unfold zscore. rewrite (zset_of_string _ Hstr). now rewrite lookup_empty.
  - destruct (active_devices_effect ip cur secs s (holds_string_free _ Hstr))
      as (s2 & -> & Hp).
    cbn [fst]. split; [|split].
    + destruct Hp as [-> _]. apply clock_pruned_presence.
    + intros k Hk. rewrite (purged_lookup_key _ _ _ Hp).
      now apply lookup_key_pruned_presence.
    + intros d. unfold zscore.
      rewrite (purged_lookup_key _ _ _ Hp), zset_of_pruned_presence.
      unfold unexpired.
      destruct (zset_of (lookup_key (redis__presence_prefix ip) s) !! d) as [sc|] eqn:E.
      * destruct (decide (current_time cur s - secs < sc)) as [Hlt|Hge].
        -- apply map_lookup_filter_Some. now split.
        -- apply map_lookup_filter_None. right. intros x Hx. cbn.
           rewrite E in Hx. injection Hx as <-. exact Hge.
      * apply map_lookup_filter_None. now left.
Qed.

(** ** Histories of validated calls *)

Lemma mailboxes_ok_weaken (done done' : list call) (s s' : Store) :
  done ⊆ done' ->
  (forall k, db s' !! k = db s !! k \/ db s' !! k = None) ->
  mailboxes_ok done s -> mailboxes_ok done' s'.
Proof.
  intros Hsub Hdb Hok ip d e Hd He.
  destruct (Hdb (redis__to_device_message_queue_prefix ip d)) as [E|E];
    rewrite E in He; [|discriminate].
  destruct (Hok ip d e Hd He) as (z & Hz & Hm). exists z. split; [exact Hz|].
  intros raw sc Hraw. destruct (Hm raw sc Hraw) as (m & cur & secs & H1 & H2 & H3).
  exists m, cur, secs. split; [exact H1|]. split; [exact H2 | now apply Hsub].
Qed.

Lemma mailboxes_ok_frame (done done' : list call) (s s' : Store) :
  done ⊆ done' ->
  (forall ip d, key_safe d ->
     db s' !! redis__to_device_message_queue_prefix ip d
     = db s !! redis__to_device_message_queue_prefix ip d) ->
  mailboxes_ok done s -> mailboxes_ok done' s'.
Proof.
  intros Hsub Hdb Hok ip d e Hd He. rewrite (Hdb ip d Hd) in He.
  destruct (Hok ip d e Hd He) as (z & Hz & Hm). exists z. split; [exact Hz|].
  intros raw sc Hraw. destruct (Hm raw sc Hraw) as (m & cur & secs & H1 & H2 & H3).
  exists m, cur, secs. split; [exact H1|]. split; [exact H2 | now apply Hsub].
Qed.

Lemma mailboxes_ok_free (done : list call) (s : Store) (ip d : string) :
  mailboxes_ok done s -> key_safe d ->
  zset_or_free (lookup_key (redis__to_device_message_queue_prefix ip d) s).
Proof.
  intros Hok Hd. destruct (lookup_key _ s) as [e|] eqn:E; [|exact I].
  apply lookup_key_alive in E as [E _]. destruct (Hok ip d e Hd E) as (z & Hz & _).
  destruct e as [v dl]. cbn in Hz. now subst v.
Qed.

Lemma mailboxes_ok_members (done : list call) (s : Store) (ip d raw : string) (sc : Z) :
  mailboxes_ok done s -> key_safe d ->
  zset_of (lookup_key (redis__to_device_message_queue_prefix ip d) s) !! raw = Some sc ->
  exists m cur secs,
    valid_message m /\ raw = DeviceMessage_to_json m /\ PushMessage ip d m cur secs ∈ done.
Proof.
  intros Hok Hd Hraw. apply zset_of_lookup_key in Hraw as (z & dl & Hk & Hraw).
  destruct (Hok ip d _ Hd Hk) as (z' & Hz & Hm). cbn in Hz. injection Hz as <-. eauto.
Qed.

Lemma list_db_shrink (ip : string) (cur : option Z) (secs : Z) (s : Store) (k : string) :
  k <> redis__presence_prefix ip ->
  db (redis__active_devices_for_client_ip ip cur secs s).1 !! k = db s !! k \/
  db (redis__active_devices_for_client_ip ip cur secs s).1 !! k = None.
Proof.
  intros Hk. destruct (holds_string (lookup_key (redis__presence_prefix ip) s)) eqn:Hstr.
  - rewrite active_devices_on_string by assumption. now left.
  - destruct (step_list_db ip cur secs s (holds_string_free _ Hstr)) as (_ & _ & H).
    cbn [step] in H. destruct (H k Hk) as [E|[E _]]; auto.
Qed.

Lemma step_mailboxes_ok (done : list call) (c : call) (s : Store) :
  validated c -> mailboxes_ok done s -> mailboxes_ok (done ++ [c]) (step c s).
Proof.
  intros [Hc Hv] Hok0.
  assert (done ⊆ done ++ [c]) as Hsub by (intros x Hx; apply elem_of_app; now left).
  assert (mailboxes_ok (done ++ [c]) s) as Hok
    by (eapply mailboxes_ok_frame; [exact Hsub | reflexivity | exact Hok0]).
  clear Hok0.
  destruct c as [ip d i cur secs|ip cur secs|ip d m cur secs|ip d n cur secs|dt]; cbn [step].
  - destruct Hc as (Hd & _). eapply mailboxes_ok_frame; [reflexivity| |exact Hok].
    intros ip' d' Hd'. apply update_presence_frame.
    + intros E. symmetry in E. revert E. now apply presence_ne_message_queue.
    + intros E. symmetry in E. revert E. now apply device_info_ne_message_queue.
  - intros ip' d' e Hd' He.
    assert (redis__to_device_message_queue_prefix ip' d' <> redis__presence_prefix ip) as Hne.
    { intros E. symmetry in E. revert E. now apply presence_ne_message_queue. }
    destruct (list_db_shrink ip cur secs s _ Hne) as [E|E];
      rewrite E in He; [|discriminate].
    exact (Hok ip' d' e Hd' He).
  - cbn [proper] in Hc. intros ip' d' e Hd' He.
    destruct (decide (redis__to_device_message_queue_prefix ip' d'
                      = redis__to_device_message_queue_prefix ip d)) as [E|E].
    + apply queue_inj in E as [-> ->]; [|apply Hd'|apply Hc].
      pose proof (mailboxes_ok_free _ s ip d Hok Hc) as Hfree.
      rewrite push_message_cases in He. cbn [fst] in He.
      unfold write_key, pushed_entry in He.
      destruct (secs <=? 0);
        [cbn in He; rewrite lookup_delete_eq in He; discriminate|].
      destruct (lookup_key (redis__to_device_message_queue_prefix ip d) s)
        as [[[v|z] dl]|] eqn:Hk; try contradiction;
        cbn in He; rewrite lookup_insert_eq in He; injection He as <-;
        eexists; (split; [reflexivity|]); intros raw sc Hraw;
        apply lookup_insert_Some in Hraw as [[<- _]|[_ Hraw]];
        try (exists m, cur, secs; split; [exact Hv|]; split;
             [reflexivity | apply elem_of_app; right; left]).
      * unfold unexpired in Hraw. apply map_lookup_filter_Some in Hraw as [Hraw _].
        apply (mailboxes_ok_members _ s ip d raw sc Hok Hc). now rewrite Hk.
      * rewrite unexpired_empty in Hraw. now apply lookup_empty_Some in Hraw.
    + rewrite push_message_frame in He by exact E.
      exact (Hok ip' d' e Hd' He).
  - cbn [proper] in Hc. intros ip' d' e Hd' He.
    destruct (decide (redis__to_device_message_queue_prefix ip' d'
                      = redis__to_device_message_queue_prefix ip d)) as [E|E].
    + apply queue_inj in E as [-> ->]; [|apply Hd'|apply Hc].
      pose proof (mailboxes_ok_free _ s ip d Hok Hc) as Hfree.
      rewrite pull_messages_effect in He by exact Hfree. cbn [fst db] in He.
      destruct (decide _) as [_|_];
        [rewrite lookup_delete_eq in He; discriminate|].
      rewrite lookup_insert_eq in He. injection He as <-.
      eexists. split; [reflexivity|]. intros raw sc Hraw.
      rewrite zremove_lookup in Hraw. destruct (decide _); [discriminate|].
      unfold unexpired in Hraw. apply map_lookup_filter_Some in Hraw as [Hraw _].
      exact (mailboxes_ok_members _ s ip d raw sc Hok Hc Hraw).
    + rewrite pull_messages_frame in He by exact E.
      exact (Hok ip' d' e Hd' He).
  - exact Hok.
Qed.

Lemma run_mailboxes_ok (cs done : list call) (s : Store) :
  Forall validated cs -> mailboxes_ok done s -> mailboxes_ok (done ++ cs) (run cs s).
Proof.
  intros Hcs. revert done s. induction Hcs as [|c cs Hc Hcs IH]; intros done s Hok.
  - now rewrite app_nil_r.
  - change (run (c :: cs) s) with (run cs (step c s)).
    replace (done ++ c :: cs) with ((done ++ [c]) ++ cs) by now rewrite <- app_assoc.
    apply IH. now apply step_mailboxes_ok.
Qed.

Lemma mailboxes_ok_empty (now : Z) : mailboxes_ok [] (empty_store now).
Proof. intros ip d e _ He. cbn in He. rewrite lookup_empty in He. discriminate. Qed.

Lemma parse_messages_valid (done : list call) (ip d : string) (raws : list (string * Z)) :
  Forall (fun p => exists m cur secs,
            valid_message m /\ p.1 = DeviceMessage_to_json m /\
            PushMessage ip d m cur secs ∈ done) raws ->
  exists msgs,
    parse_messages raws = Return msgs /\
    Forall (fun m => valid_message m /\ exists cur secs, PushMessage ip d m cur secs ∈ done)
      msgs.
Proof.
  induction 1 as [|[raw sc] raws (m & cur & secs & Hm & Hraw & Hin) _ (msgs & IH1 & IH2)].
  - exists []. split; [reflexivity | constructor].
  - cbn [fst] in Hraw. subst raw. exists (m :: msgs). split.
    + cbn [parse_messages]. rewrite DeviceMessage_round_trip by assumption.
      cbn [bind]. now rewrite IH1.
    + constructor; [|exact IH2]. split; [exact Hm | eauto].
Qed.

(** X23: when every call of a history that starts on an empty store comes
    from the transport layer (device identifiers without a colon,
    validated snapshots and messages), a pull with a count that is not
    negative never raises, and every message it returns is a validated
    message that a call of the history pushed to this very mailbox. *)
Theorem pull_messages_returns_pushed (cs : list call) (c0 : Z) (ip d : string) (n : Z)
    (cur : option Z) (secs : Z) :
  Forall validated cs -> key_safe d -> 0 <= n ->
  exists msgs,
    (redis__pull_messages_for_device ip d n cur secs (run cs (empty_store c0))).2 = Return msgs /\
    Forall (fun m => valid_message m /\ exists cur' secs', PushMessage ip d m cur' secs' ∈ cs)
      msgs.
Proof.
  intros Hcs Hd _. set (s := run cs (empty_store c0)).
  assert (mailboxes_ok cs s) as Hok.
  { change cs with ([] ++ cs) at 1. apply run_mailboxes_ok; [exact Hcs|].
    apply mailboxes_ok_empty. }
  rewrite pull_messages_effect by (eapply mailboxes_ok_free; eassumption). cbn [snd].
  apply parse_messages_valid. apply Forall_forall. intros [raw sc] Hin.
  apply (sublist_subseteq _ _ (sublist_take _ _)) in Hin.
  apply elem_of_zrange in Hin. unfold unexpired in Hin.
  apply map_lookup_filter_Some in Hin as [Hin _].
  eapply mailboxes_ok_members; eassumption.
Qed.

Lemma pull_messages_returns_pushed_witness :
  exists msgs,
    (redis__pull_messages_for_device ipA idA 3 None 60
       (run history_on_clock (empty_store 1000))).2 = Return msgs /\
    Forall (fun m => valid_message m /\
                     exists cur' secs', PushMessage ipA idA m cur' secs' ∈ history_on_clock)
      msgs.
Proof.
  apply (pull_messages_returns_pushed history_on_clock 1000 ipA idA 3 None 60).
  - repeat (apply Forall_cons; split); try apply Forall_nil_2;
      (split; [|first [exact I | exact msgA_valid]]);
      repeat split; first [ exact infoB_valid | reflexivity | discriminate | lia ].
  - exact idA_key_safe.
  - lia.
Defined.

Lemma announced_frame (done done' : list call) (s s' : Store) :
  done ⊆ done' ->
  (forall ip d, key_safe d ->
     db s' !! redis__device_info_prefix ip d = db s !! redis__device_info_prefix ip d \/
     db s' !! redis__device_info_prefix ip d = None) ->
  announced done s -> announced done' s'.
Proof.
  intros Hsub Hdb Hok ip d e Hd He. destruct (Hdb ip d Hd) as [E|E];
    rewrite E in He; [|discriminate].
  destruct (Hok ip d e Hd He) as (i & cur & secs & H1 & H2 & H3 & H4).
  exists i, cur, secs. repeat (split; [assumption|]). now apply Hsub.
Qed.

Lemma step_announced (done : list call) (c : call) (s : Store) :
  proper c -> announced done s -> announced (done ++ [c]) (step c s).
Proof.
  intros Hc Hok0.
  assert (done ⊆ done ++ [c]) as Hsub by (intros x Hx; apply elem_of_app; now left).
  assert (announced (done ++ [c]) s) as Hok
    by (eapply announced_frame; [exact Hsub | intros; now left | exact Hok0]).
  clear Hok0.
  destruct c as [ip d i cur secs|ip cur secs|ip d m cur secs|ip d n cur secs|dt]; cbn [step].
  - destruct Hc as (Hd & Hi & Hid & Hsecs). intros ip' d' e Hd' He.
    destruct (decide (redis__device_info_prefix ip' d' = redis__device_info_prefix ip d))
      as [E|E].
    + apply device_info_inj in E as [-> ->]; [|assumption..].
      rewrite update_presence_cases in He. cbn [fst] in He.
      rewrite positive_secs in He by assumption.
      cbn [set_key db] in He. rewrite lookup_insert_eq in He. injection He as <-.
      exists i, cur, secs. split; [reflexivity|]. split; [exact Hi|]. split; [exact Hid|].
      apply elem_of_app. right. left.
    + rewrite update_presence_frame in He; [exact (Hok ip' d' e Hd' He)| |exact E].
      intros E'. symmetry in E'. revert E'. now apply presence_ne_device_info.
  - eapply announced_frame; [reflexivity| |exact Hok].
    intros ip' d' Hd'. apply list_db_shrink.
    intros E. symmetry in E. revert E. now apply presence_ne_device_info.
  - cbn [proper] in Hc. eapply announced_frame; [reflexivity| |exact Hok].
    intros ip' d' Hd'. left. apply push_message_frame.
    now apply device_info_ne_message_queue.
  - cbn [proper] in Hc. eapply announced_frame; [reflexivity| |exact Hok].
    intros ip' d' Hd'. left. apply pull_messages_frame.
    now apply device_info_ne_message_queue.
  - exact Hok.
Qed.

Lemma run_announced (cs done : list call) (s : Store) :
  Forall proper cs -> announced done s -> announced (done ++ cs) (run cs s).
Proof.
  intros Hcs. revert done s. induction Hcs as [|c cs Hc Hcs IH]; intros done s Hok.
  - now rewrite app_nil_r.
  - change (run (c :: cs) s) with (run cs (step c s)).
    replace (done ++ c :: cs) with ((done ++ [c]) ++ cs) by now rewrite <- app_assoc.
    apply IH. now apply step_announced.
Qed.

Lemma announced_empty (now : Z) : announced [] (empty_store now).
Proof. intros ip d e _ He. cbn in He. rewrite lookup_empty in He. discriminate. Qed.

(** X24: when every call of a history that starts on an empty store comes
    from the transport layer, a listing never raises, and every entry it
    returns is a validated snapshot that a call of the history announced
    for this client under the device identifier it carries. *)
Theorem active_devices_returns_announced (cs : list call) (c0 : Z) (ip : string)
    (cur : option Z) (secs : Z) :
  Forall proper cs ->
  exists l,
    (redis__active_devices_for_client_ip ip cur secs (run cs (empty_store c0))).2 = Return l /\
    Forall (fun x => valid_info x /\
                     exists cur' secs', UpdatePresence ip (device_id x) x cur' secs' ∈ cs) l.
Proof.
  intros Hcs. set (s := run cs (empty_store c0)).
  assert (snapshots_ok s) as Hok by (apply run_snapshots_ok; [exact Hcs | apply snapshots_ok_empty]).
  assert (announced cs s) as Han.
  { change cs with ([] ++ cs) at 1. apply run_announced; [exact Hcs | apply announced_empty]. }
  eexists. split; [now apply snapshots_ok_readable|].
  apply Forall_forall. intros x Hx. apply list_elem_of_omap in Hx as (d & Hd & Hx).
  apply active_ids_elem in Hd as (sc & Hsc & _).
  assert (key_safe d) as Hsafe by exact (snapshots_ok_members s ip d sc Hok Hsc).
  unfold snapshot_of, get_reply in Hx.
  destruct (lookup_key (redis__device_info_prefix ip d) s) as [[[raw|z] dl]|] eqn:E;
    try discriminate.
  apply lookup_key_alive in E as [E _].
  destruct (Han ip d _ Hsafe E) as (i & cur' & secs' & Hv & Hi & Hid & Hin).
  cbn [e_val] in Hv. injection Hv as ->. cbn [reply_info] in Hx.
  rewrite DeviceInfo_round_trip in Hx by assumption. injection Hx as <-.
  split; [exact Hi|]. exists cur', secs'. now rewrite Hid.
Qed.

Lemma active_devices_returns_announced_witness :
  exists l,
    (redis__active_devices_for_client_ip ipA None 10
       (run history_on_clock (empty_store 1000))).2 = Return l /\
    Forall (fun x => valid_info x /\
                     exists cur' secs',
                       UpdatePresence ipA (device_id x) x cur' secs' ∈ history_on_clock) l.
Proof.
  apply (active_devices_returns_announced history_on_clock 1000 ipA None 10).
  repeat (apply Forall_cons; split); try apply Forall_nil_2;
    repeat split; first [ exact infoB_valid | reflexivity | discriminate | lia ].
Defined.
